(** * systemd-rhel7: the raw image exporter and the pager helper

    Shallow embeddings of src/import/export-raw.c (module [ExportRaw]: the
    embedding, the properties the specification states about it, and further
    properties of the code) and of src/shared/pager.c (module [Pager] for
    the embedding, module [PagerFacts] for its properties).

    Unsigned C objects ([uint64_t], [size_t], [unsigned]) are values of [N]
    with the wrap-around written out; signed ones ([int], [ssize_t], [off_t],
    [pid_t]) are values of [Z].  System calls and the collaborators that live
    in other translation units (compressor, event loop, rate limiter, the
    environment of the process) answer through an explicit environment; every
    call the code makes is recorded in a trace. *)

From Stdlib Require Import Strings.String.
From Stdlib Require Import ZArith NArith List Bool Lia Strings.Byte Sorted.
From Stdlib Require Import Strings.Ascii.
Import ListNotations.

(** * The pager helper (src/shared/pager.c)

    [pager_open] forks a child that becomes the pager and points the
    standard output of the caller at it; [pager_close] waits for it;
    [show_man_page] runs man(1).  The only state is the static [pager_pid],
    passed in and out explicitly.  A call of [fork] returns in two
    processes: the functions below follow the process in which [fork]
    returned the given value, and say which one that is. *)

Module Pager.

Definition EXIT_SUCCESS : Z := 0.
Definition EXIT_FAILURE : Z := 1.
Definition ENXIO : Z := 6.
Definition EINVAL : Z := 22.

(** What a process does to the outside. *)
Inductive Action :=
| Columns                          (* columns() *)
| Pipe (r : Z)                     (* pipe(fd) *)
| Fork (pid : Z)                   (* fork() *)
| LogError (error : Z)             (* log_error_errno *)
| LogDebug (error : Z)             (* log_debug_errno, log_debug *)
| LogWarning (error : Z)           (* log_warning_errno *)
| ClosePair                        (* safe_close_pair(fd) *)
| Dup2Stdin                        (* dup2(fd[0], STDIN_FILENO) *)
| Dup2Stdout (r : Z)               (* dup2(fd[1], STDOUT_FILENO) *)
| Setenv (name value : string)     (* setenv(name, value, 1) *)
| Unsetenv (name : string)
| Prctl (r : Z)                    (* prctl(PR_SET_PDEATHSIG, SIGTERM) *)
| Execlp (file : string)           (* execlp(file, file, NULL) *)
| ExecSh (command : string)        (* execl("/bin/sh", "sh", "-c", command, NULL) *)
| Execvp (args : list string)      (* execvp(args[0], args) *)
| Splice (n : Z)                   (* splice(STDIN_FILENO, ..., STDOUT_FILENO, ..., 64K, 0) *)
| FcloseStdout                     (* fclose(stdout) *)
| Kill (pid : Z)                   (* kill(pid, SIGCONT) *)
| Wait (pid : Z)                   (* wait_for_terminate *)
| MakeNullStdio (r : Z).           (* make_null_stdio() *)

(** How a child ends: none of its paths returns to the caller. *)
Inductive Ending :=
| Replaced (image : Action)        (* an exec call went through *)
| Exited (code : Z)                (* _exit(code) *)
| Copying.                         (* still in the loop of [pager_fallback] *)

(** Modelled from the spec: log.h (absent); [log_error_errno(error, ...)]
    logs and yields the negated error code, as for the exporter. *)
Definition log_error_errno (error : Z) : Z := (- Z.abs error)%Z.

(** ** [pager_fallback] *)

(** Lines 39-52.  [splice] lists what the successive calls of splice(2)
    answer, value and [errno]. *)
Fixpoint pager_fallback (splice : list (Z * Z)) : list Action * Ending :=
  match splice with
  | [] => ([], Copying)
  | (n, errno) :: rest =>
      if (0 <? n)%Z then
        let '(tr, x) := pager_fallback rest in (Splice n :: tr, x)
      else if (n <? 0)%Z then
        ([Splice n; LogError errno], Exited EXIT_FAILURE)
      else ([Splice n], Exited EXIT_SUCCESS)
  end.

(** ** [pg_pid_get_owner_uid] *)

(** Lines 56-62.  [uid_given] says whether the pointer is non-NULL; [cg] is
    what [cg_pid_get_owner_uid] answers if it is called, the value it returns
    and the uid it stores.  The result is the value returned and the uid
    stored, if one was. *)
Definition pg_pid_get_owner_uid (pid : Z) (uid_given : bool) (cg : Z * N)
    : Z * option N :=
  if negb (0 <=? pid)%Z then ((- EINVAL)%Z, None)
  else if negb uid_given then ((- EINVAL)%Z, None)
  else (fst cg, if (fst cg <? 0)%Z then None else Some (snd cg)).

(** ** [pager_open] *)

(** What the outside answers in the child. *)
Record ChildEnv := mkChildEnv {
  ce_SYSTEMD_LESS : option string;   (* getenv("SYSTEMD_LESS") *)
  ce_prctl : Z;
  ce_getppid : Z;
  ce_pagersecure : Z;                (* getenv_bool("SYSTEMD_PAGERSECURE") *)
  ce_owner_uid : Z * N;              (* cg_pid_get_owner_uid(0, &uid) *)
  ce_geteuid : N;
  ce_lesssecure : Z * Z;             (* setenv or unsetenv of LESSSECURE, and errno *)
  ce_exec : Action -> bool;          (* whether this exec call goes through *)
  ce_splice : list (Z * Z)
}.

(** Lines 167-173: [FOREACH_STRING(exe, ...)], from [exes] onwards; the
    calls made and the one that went through, if any. *)
Fixpoint foreach_exe (env : ChildEnv) (use_secure_mode : Z) (exes : list string)
    : list Action * option Action :=
  match exes with
  | [] => ([], None)
  | exe :: rest =>
      if negb (use_secure_mode =? 0)%Z && negb (exe =? "less")%string then
        foreach_exe env use_secure_mode rest
      else if ce_exec env (Execlp exe) then ([Execlp exe], Some (Execlp exe))
      else
        let '(tr, x) := foreach_exe env use_secure_mode rest in
        (Execlp exe :: tr, x)
  end.

(** Lines 127-142: [trust_pager], [use_secure_mode] as it is tested from
    line 146 on, and what was logged. *)
Definition secure_mode (env : ChildEnv) : bool * Z * list Action :=
  let use_secure_mode := ce_pagersecure env in
  let trust_pager := (0 <=? use_secure_mode)%Z in
  if (use_secure_mode =? - ENXIO)%Z then
    let '(r, uid) := pg_pid_get_owner_uid 0 true (ce_owner_uid env) in
    (trust_pager,
     Z.b2z ((r <? 0)%Z ||
            match uid with
            | Some u => negb (u =? ce_geteuid env)%N
            | None => true
            end),
     if (r <? 0)%Z then [LogDebug r] else [])
  else if (use_secure_mode <? 0)%Z then
    (trust_pager, 1%Z, [LogWarning use_secure_mode])
  else (trust_pager, use_secure_mode, []).

(** Lines 98-177: the child.  [pager] is what the parent found in
    $SYSTEMD_PAGER or $PAGER. *)
Definition pager_child (env : ChildEnv) (pager : option string)
    (jump_to_end : bool) (parent_pid : Z) : list Action * Ending :=
  let less_opts :=
    match ce_SYSTEMD_LESS env with Some s => s | None => "FRSXMK"%string end in
  let less_opts :=
    if jump_to_end then (less_opts ++ " +G")%string else less_opts in
  let tr := [Dup2Stdin; ClosePair; Setenv "LESS" less_opts; Prctl (ce_prctl env)] in
  if (ce_prctl env <? 0)%Z then (tr, Exited EXIT_FAILURE)
  else if negb (ce_getppid env =? parent_pid)%Z then (tr, Exited EXIT_SUCCESS)
  else
    let '(trust_pager, use_secure_mode, logs) := secure_mode env in
    let '(r, errno) := ce_lesssecure env in
    let tr :=
      tr ++ logs ++
      [if negb (use_secure_mode =? 0)%Z then Setenv "LESSSECURE" "1"
       else Unsetenv "LESSSECURE"] in
    if (r <? 0)%Z then (tr ++ [LogError errno], Exited EXIT_FAILURE)
    else
      let '(tr1, x) :=
        match pager with
        | Some p =>
            if trust_pager then
              if ce_exec env (Execlp p) then ([Execlp p], Some (Execlp p))
              else if ce_exec env (ExecSh p) then
                ([Execlp p; ExecSh p], Some (ExecSh p))
              else ([Execlp p; ExecSh p], None)
            else ([], None)
        | None => ([], None)
        end in
      match x with
      | Some a => (tr ++ tr1, Replaced a)
      | None =>
          let '(tr2, x) :=
            foreach_exe env use_secure_mode ["pager"; "less"; "more"]%string in
          match x with
          | Some a => (tr ++ tr1 ++ tr2, Replaced a)
          | None =>
              let '(tr3, en) := pager_fallback (ce_splice env) in
              (tr ++ tr1 ++ tr2 ++ tr3, en)
          end
      end.

(** What the outside answers during [pager_open]; a pair is a returned
    value and [errno]. *)
Record OpenEnv := mkOpenEnv {
  oe_SYSTEMD_PAGER : option string;  (* getenv("SYSTEMD_PAGER") *)
  oe_PAGER : option string;          (* getenv("PAGER") *)
  oe_on_tty : bool;
  oe_pipe : Z * Z;
  oe_getpid : Z;
  oe_fork : Z * Z;
  oe_dup2 : Z * Z;                   (* dup2(fd[1], STDOUT_FILENO) *)
  oe_child : ChildEnv
}.

(** Where [pager_open] ends: back in the caller, with the value returned
    and the new [pager_pid], or in the child. *)
Inductive Opened :=
| InParent (ret : Z) (pager_pid : Z) (tr : list Action)
| InChild (tr : list Action) (ending : Ending).

(** Lines 73-75: the configured pager, [None] for a NULL pointer. *)
Definition configured_pager (env : OpenEnv) : option string :=
  match oe_SYSTEMD_PAGER env with
  | Some s => Some s
  | None => oe_PAGER env
  end.

(** Lines 64-185. *)
Definition pager_open (env : OpenEnv) (pager_pid : Z) (jump_to_end : bool)
    : Opened :=
  if (0 <? pager_pid)%Z then InParent 1 pager_pid []
  else
    let pager := configured_pager env in
    if match pager with
       | Some s => (s =? "")%string || (s =? "cat")%string
       | None => false
       end
    then InParent 0 pager_pid []
    else if negb (oe_on_tty env) then InParent 0 pager_pid []
    else
      let '(r, errno) := oe_pipe env in
      let tr := [Columns; Pipe r] in
      if (r <? 0)%Z then
        InParent (log_error_errno errno) pager_pid (tr ++ [LogError errno])
      else
        let parent_pid := oe_getpid env in
        let '(pid, errno) := oe_fork env in
        let tr := tr ++ [Fork pid] in
        if (pid <? 0)%Z then
          InParent (- errno) pid (tr ++ [LogError errno; ClosePair])
        else if (pid =? 0)%Z then
          let '(trc, en) :=
            pager_child (oe_child env) pager jump_to_end parent_pid in
          InChild (tr ++ trc) en
        else
          let '(r, errno) := oe_dup2 env in
          let tr := tr ++ [Dup2Stdout r] in
          if (r <? 0)%Z then
            InParent (log_error_errno errno) pid (tr ++ [LogError errno])
          else InParent 1 pid (tr ++ [ClosePair]).

(** ** [pager_close] and [pager_have] *)

(** Lines 187-197: the new [pager_pid] and what was done. *)
Definition pager_close (pager_pid : Z) : Z * list Action :=
  if (pager_pid <=? 0)%Z then (pager_pid, [])
  else (0%Z, [FcloseStdout; Kill pager_pid; Wait pager_pid]).

(** Lines 199-201. *)
Definition pager_have (pager_pid : Z) : bool := (0 <? pager_pid)%Z.

(** ** [show_man_page] *)

(** Reading [desc[k-1]] of an empty string is outside the object. *)
Inductive Fault :=
| OutOfBounds.

(** [strrchr(s, c)] for a character other than NUL: the index of the last
    [c] in [s], [None] for a NULL pointer. *)
Fixpoint strrchr (s : string) (c : ascii) : option nat :=
  match s with
  | EmptyString => None
  | String a rest =>
      match strrchr rest c with
      | Some i => Some (S i)
      | None => if Ascii.eqb a c then Some 0%nat else None
      end
  end.

(** Lines 204-225: the argument vector, up to its first NULL. *)
Definition man_args (desc : string) : list string + Fault :=
  let k := String.length desc in
  if (k =? 0)%nat then inr OutOfBounds
  else
    let e :=
      match String.get (k - 1) desc with
      | Some c => if Ascii.eqb c ")" then strrchr desc "(" else None
      | None => None
      end in
    match e with
    | Some e =>
        let page := substring 0 e desc in
        let section := substring (e + 1) (k - e - 2) desc in
        inl ["man"; section; page]%string
    | None => inl ["man"; desc]%string
    end.

(** What the outside answers during [show_man_page]. *)
Record ManEnv := mkManEnv {
  me_fork : Z * Z;
  me_make_null_stdio : Z;
  me_execvp : bool * Z;              (* whether man is found, and errno *)
  me_wait : Z * Z                    (* wait_for_terminate and status.si_status *)
}.

Inductive Shown :=
| ManParent (ret : Z) (tr : list Action)
| ManChild (tr : list Action) (ending : Ending).

(** Lines 203-252. *)
Definition show_man_page (env : ManEnv) (desc : string) (null_stdio : bool)
    : Shown + Fault :=
  match man_args desc with
  | inr f => inr f
  | inl args =>
      let '(pid, errno) := me_fork env in
      let tr := [Fork pid] in
      if (pid <? 0)%Z then
        inl (ManParent (log_error_errno errno) (tr ++ [LogError errno]))
      else if (pid =? 0)%Z then
        let r := me_make_null_stdio env in
        if null_stdio && (r <? 0)%Z then
          inl (ManChild (tr ++ [MakeNullStdio r; LogError r]) (Exited EXIT_FAILURE))
        else
          let tr :=
            tr ++ (if null_stdio then [MakeNullStdio r] else [])
               ++ [Execvp args] in
          let '(found, errno) := me_execvp env in
          if found then inl (ManChild tr (Replaced (Execvp args)))
          else inl (ManChild (tr ++ [LogError errno]) (Exited EXIT_FAILURE))
      else
        let '(r, si_status) := me_wait env in
        let tr := tr ++ [Wait pid] in
        if (r <? 0)%Z then inl (ManParent r tr)
        else inl (ManParent si_status (tr ++ [LogDebug si_status]))
  end.

(** ** What the statements below are about *)

Definition is_exec (a : Action) : bool :=
  match a with
  | Execlp _ | ExecSh _ | Execvp _ => true
  | _ => false
  end.

(** A system call that fails sets [errno] to a positive value. *)
Definition errno_set (ret_errno : Z * Z) : Prop :=
  (fst ret_errno < 0 -> 0 < snd ret_errno)%Z.

(** The environment of [pager_open] answers as the kernel does. *)
Record open_env_ok (env : OpenEnv) : Prop := mkOpenEnvOk {
  oeo_pipe : errno_set (oe_pipe env);
  oeo_fork : errno_set (oe_fork env);
  oeo_dup2 : errno_set (oe_dup2 env)
}.

(** The same environment with another value of $PAGER. *)
Definition with_PAGER (v : option string) (env : OpenEnv) : OpenEnv :=
  mkOpenEnv (oe_SYSTEMD_PAGER env) v (oe_on_tty env) (oe_pipe env)
    (oe_getpid env) (oe_fork env) (oe_dup2 env) (oe_child env).

(** The names [pager_open] tries by itself. *)
Definition builtin_pagers : list string := ["pager"; "less"; "more"]%string.

(** ** Concrete calls, to exercise the statements *)

(** Only less(1) is installed. *)
Definition only_less (a : Action) : bool :=
  match a with
  | Execlp f => (f =? "less")%string
  | _ => false
  end.

(** A child in which every call succeeds, $SYSTEMD_PAGERSECURE is unset,
    the session belongs to uid 1000 and the process runs as root (under
    sudo), and only less(1) is installed. *)
Definition child_sudo : ChildEnv :=
  {| ce_SYSTEMD_LESS := None;
     ce_prctl := 0;
     ce_getppid := 100;
     ce_pagersecure := - ENXIO;
     ce_owner_uid := (0%Z, 1000%N);
     ce_geteuid := 0;
     ce_lesssecure := (0%Z, 0%Z);
     ce_exec := only_less;
     ce_splice := [] |}.

(** On a terminal, with PAGER=more, every call succeeding; [pid] is what
    [fork] returns. *)
Definition open_env (pid : Z) : OpenEnv :=
  {| oe_SYSTEMD_PAGER := None;
     oe_PAGER := Some "more"%string;
     oe_on_tty := true;
     oe_pipe := (0%Z, 0%Z);
     oe_getpid := 100;
     oe_fork := (pid, 0%Z);
     oe_dup2 := (1%Z, 0%Z);
     oe_child := child_sudo |}.

(** The same, but the parent cannot point its standard output at the
    pipe: [dup2] fails with EBADF. *)
Definition open_env_dup2_fails (pid : Z) : OpenEnv :=
  {| oe_SYSTEMD_PAGER := None;
     oe_PAGER := Some "more"%string;
     oe_on_tty := true;
     oe_pipe := (0%Z, 0%Z);
     oe_getpid := 100;
     oe_fork := (pid, 0%Z);
     oe_dup2 := ((-1)%Z, 9%Z);
     oe_child := child_sudo |}.

End Pager.

(** * The raw image exporter (src/import/export-raw.c)

    [struct RawExport] and the functions [raw_export_unref],
    [raw_export_new], [raw_export_report_progress], [raw_export_process],
    [raw_export_on_output], [raw_export_on_defer], [reflink_snapshot] and
    [raw_export_start]. *)

Module ExportRaw.

(** ** Constants *)

(** [#define COPY_BUFFER_SIZE (16*1024)] *)
Definition COPY_BUFFER_SIZE : N := 16 * 1024.

(** errno values of <errno.h> on Linux. *)
Definition EPERM : Z := 1.
Definition EIO : Z := 5.
Definition ENXIO : Z := 6.
Definition EAGAIN : Z := 11.
Definition ENOMEM : Z := 12.
Definition EBUSY : Z := 16.
Definition ENOTTY : Z := 25.

(** File type bits of <sys/stat.h>; [S_ISREG(m)] is
    [(m & S_IFMT) == S_IFREG]. *)
Definition S_IFMT : N := 61440.   (* 0170000 *)
Definition S_IFREG : N := 32768.  (* 0100000 *)
Definition S_IFDIR : N := 16384.  (* 0040000 *)
Definition S_IFSOCK : N := 49152. (* 0140000 *)
Definition S_ISREG (m : N) : bool := (N.land m S_IFMT =? S_IFREG)%N.

(** Modelled from the spec: time-util.h (absent) defines [USEC_PER_MSEC];
    the limiter replenishes "every 100 ms", so a millisecond is 1000 usec. *)
Definition USEC_PER_MSEC : N := 1000.

(** [(unsigned) -1] *)
Definition UINT_MAX : N := 2 ^ 32 - 1.

(** Conversions between the C integer types. *)
Definition wrap64 (n : N) : N := (n mod 2 ^ 64)%N.
Definition wrap32 (n : N) : N := (n mod 2 ^ 32)%N.
(** [(uint64_t) x] for a signed 64-bit [x]. *)
Definition to_uint64 (x : Z) : N := Z.to_N (x mod 2 ^ 64).
(** [u += l] for [uint64_t u] and a non-negative [ssize_t l]. *)
Definition add_u64 (u : N) (l : Z) : N := wrap64 (u + to_uint64 l).

(** Modelled from the spec: the enumeration is declared in import-compress.h
    (absent).  The kinds are "uncompressed, gzip-like, xz-like, zstd-like,
    bzip2-like", and "unknown" is the value that [raw_export_start] rejects
    by assertion; a zeroed engine holds it.  The exporter only tells
    uncompressed from the rest. *)
Inductive ImportCompressType :=
| IMPORT_COMPRESS_UNKNOWN
| IMPORT_COMPRESS_UNCOMPRESSED
| IMPORT_COMPRESS_XZ
| IMPORT_COMPRESS_GZIP
| IMPORT_COMPRESS_BZIP2
| IMPORT_COMPRESS_ZSTD.

Definition is_uncompressed (t : ImportCompressType) : bool :=
  match t with IMPORT_COMPRESS_UNCOMPRESSED => true | _ => false end.

(** Modelled from the spec: ratelimit.h (absent) declares [RateLimit] and
    [RATELIMIT_INIT(v, i, b)]; the spec describes a token bucket with an
    interval and a burst, initially unused. *)
Record RateLimit := mkRateLimit {
  interval : N;
  burst : N;
  num : N;
  begin_ : N
}.

Definition RATELIMIT_INIT (i b : N) : RateLimit :=
  {| interval := i; burst := b; num := 0; begin_ := 0 |}.

(** The two fields of [struct stat] the exporter looks at. *)
Record stat := mkStat {
  st_mode : N;
  st_size : Z       (* off_t *)
}.

(** ** The engine

    [struct RawExport].  The event loop [event] and [userdata] are only
    passed on, and [buffer_allocated] is the capacity behind [buffer]; the
    three are left out.  [buffer] is the valid prefix of the C buffer, so
    [buffer_size] is its length. *)

Record RawExport := mkRawExport {
  on_finished : bool;            (* is the callback pointer non-NULL *)
  path : option string;
  input_fd : Z;
  output_fd : Z;
  compress_type : ImportCompressType;   (* compress.type *)
  output_event_source : bool;    (* is a source registered *)
  buffer : list byte;            (* the first buffer_size bytes of buffer *)
  written_compressed : N;
  written_uncompressed : N;
  last_percent : N;
  progress_rate_limit : RateLimit;
  st : stat;
  eof : bool;
  tried_reflink : bool;
  tried_sendfile : bool
}.

Definition buffer_size (e : RawExport) : N := N.of_nat (length (buffer e)).

Definition set_on_finished (v : bool) (e : RawExport) : RawExport :=
  mkRawExport v (path e) (input_fd e) (output_fd e)
    (compress_type e) (output_event_source e) (buffer e)
    (written_compressed e) (written_uncompressed e) (last_percent e)
    (progress_rate_limit e) (st e) (eof e) (tried_reflink e) (tried_sendfile e).

Definition set_progress_rate_limit (v : RateLimit) (e : RawExport) : RawExport :=
  mkRawExport (on_finished e) (path e) (input_fd e) (output_fd e)
    (compress_type e) (output_event_source e) (buffer e)
    (written_compressed e) (written_uncompressed e) (last_percent e)
    v (st e) (eof e) (tried_reflink e) (tried_sendfile e).

Definition set_path (v : option string) (e : RawExport) : RawExport :=
  mkRawExport (on_finished e) v (input_fd e) (output_fd e)
    (compress_type e) (output_event_source e) (buffer e)
    (written_compressed e) (written_uncompressed e) (last_percent e)
    (progress_rate_limit e) (st e) (eof e) (tried_reflink e) (tried_sendfile e).

Definition set_input_fd (v : Z) (e : RawExport) : RawExport :=
  mkRawExport (on_finished e) (path e) v (output_fd e)
    (compress_type e) (output_event_source e) (buffer e)
    (written_compressed e) (written_uncompressed e) (last_percent e)
    (progress_rate_limit e) (st e) (eof e) (tried_reflink e) (tried_sendfile e).

Definition set_output_fd (v : Z) (e : RawExport) : RawExport :=
  mkRawExport (on_finished e) (path e) (input_fd e) v
    (compress_type e) (output_event_source e) (buffer e)
    (written_compressed e) (written_uncompressed e) (last_percent e)
    (progress_rate_limit e) (st e) (eof e) (tried_reflink e) (tried_sendfile e).

Definition set_compress_type (v : ImportCompressType) (e : RawExport) : RawExport :=
  mkRawExport (on_finished e) (path e) (input_fd e) (output_fd e)
    v (output_event_source e) (buffer e)
    (written_compressed e) (written_uncompressed e) (last_percent e)
    (progress_rate_limit e) (st e) (eof e) (tried_reflink e) (tried_sendfile e).

Definition set_output_event_source (v : bool) (e : RawExport) : RawExport :=
  mkRawExport (on_finished e) (path e) (input_fd e) (output_fd e)
    (compress_type e) v (buffer e)
    (written_compressed e) (written_uncompressed e) (last_percent e)
    (progress_rate_limit e) (st e) (eof e) (tried_reflink e) (tried_sendfile e).

Definition set_buffer (v : list byte) (e : RawExport) : RawExport :=
  mkRawExport (on_finished e) (path e) (input_fd e) (output_fd e)
    (compress_type e) (output_event_source e) v
    (written_compressed e) (written_uncompressed e) (last_percent e)
    (progress_rate_limit e) (st e) (eof e) (tried_reflink e) (tried_sendfile e).

Definition set_written_compressed (v : N) (e : RawExport) : RawExport :=
  mkRawExport (on_finished e) (path e) (input_fd e) (output_fd e)
    (compress_type e) (output_event_source e) (buffer e)
    v (written_uncompressed e) (last_percent e)
    (progress_rate_limit e) (st e) (eof e) (tried_reflink e) (tried_sendfile e).

Definition set_written_uncompressed (v : N) (e : RawExport) : RawExport :=
  mkRawExport (on_finished e) (path e) (input_fd e) (output_fd e)
    (compress_type e) (output_event_source e) (buffer e)
    (written_compressed e) v (last_percent e)
    (progress_rate_limit e) (st e) (eof e) (tried_reflink e) (tried_sendfile e).

Definition set_last_percent (v : N) (e : RawExport) : RawExport :=
  mkRawExport (on_finished e) (path e) (input_fd e) (output_fd e)
    (compress_type e) (output_event_source e) (buffer e)
    (written_compressed e) (written_uncompressed e) v
    (progress_rate_limit e) (st e) (eof e) (tried_reflink e) (tried_sendfile e).

Definition set_st (v : stat) (e : RawExport) : RawExport :=
  mkRawExport (on_finished e) (path e) (input_fd e) (output_fd e)
    (compress_type e) (output_event_source e) (buffer e)
    (written_compressed e) (written_uncompressed e) (last_percent e)
    (progress_rate_limit e) v (eof e) (tried_reflink e) (tried_sendfile e).

Definition set_eof (v : bool) (e : RawExport) : RawExport :=
  mkRawExport (on_finished e) (path e) (input_fd e) (output_fd e)
    (compress_type e) (output_event_source e) (buffer e)
    (written_compressed e) (written_uncompressed e) (last_percent e)
    (progress_rate_limit e) (st e) v (tried_reflink e) (tried_sendfile e).

Definition set_tried_reflink (v : bool) (e : RawExport) : RawExport :=
  mkRawExport (on_finished e) (path e) (input_fd e) (output_fd e)
    (compress_type e) (output_event_source e) (buffer e)
    (written_compressed e) (written_uncompressed e) (last_percent e)
    (progress_rate_limit e) (st e) (eof e) v (tried_sendfile e).

Definition set_tried_sendfile (v : bool) (e : RawExport) : RawExport :=
  mkRawExport (on_finished e) (path e) (input_fd e) (output_fd e)
    (compress_type e) (output_event_source e) (buffer e)
    (written_compressed e) (written_uncompressed e) (last_percent e)
    (progress_rate_limit e) (st e) (eof e) (tried_reflink e) v.

(** [new0(RawExport, 1)]: every field zero. *)
Definition new0_RawExport : RawExport :=
  {| on_finished := false;
     path := None;
     input_fd := 0;
     output_fd := 0;
     compress_type := IMPORT_COMPRESS_UNKNOWN;
     output_event_source := false;
     buffer := [];
     written_compressed := 0;
     written_uncompressed := 0;
     last_percent := 0;
     progress_rate_limit := mkRateLimit 0 0 0 0;
     st := {| st_mode := 0; st_size := 0 |};
     eof := false;
     tried_reflink := false;
     tried_sendfile := false |}.

(** [raw_export_new].  The allocation and [sd_event_default] can fail;
    [alloc_ok] and [event_default_r] are their outcomes, [event_given] says
    whether the caller passed an event loop, [callback] whether it passed a
    completion callback. *)
Definition raw_export_new (alloc_ok : bool) (event_given : bool)
    (event_default_r : Z) (callback : bool) : Z * option RawExport :=
  if negb alloc_ok then ((- ENOMEM)%Z, None)
  else
    let e := new0_RawExport in
    let e := set_output_fd (-1) (set_input_fd (-1) e) in
    let e := set_on_finished callback e in
    let e := set_progress_rate_limit (RATELIMIT_INIT (100 * USEC_PER_MSEC) 1) e in
    let e := set_last_percent UINT_MAX e in
    if event_given then (0%Z, Some e)
    else if (event_default_r <? 0)%Z then (event_default_r, None)
    else (0%Z, Some e).

(** ** What the code does to the outside world *)

Inductive Event :=
| EvReflink (r : Z)                          (* btrfs_reflink(input_fd, output_fd) *)
| EvSendfile (l : Z)                         (* sendfile(output_fd, input_fd, NULL, 16K) *)
| EvRead (l : Z)                             (* read(input_fd, input, 16K) *)
| EvCompress (input : list byte) (r : Z)     (* import_compress *)
| EvCompressFinish (r : Z)                   (* import_compress_finish *)
| EvWrite (data : list byte) (l : Z)         (* write(output_fd, buffer, buffer_size) *)
| EvRatelimitTest (ok : bool)                (* ratelimit_test *)
| EvNotify (percent : N)                     (* sd_notifyf("X_IMPORT_PROGRESS=%u") *)
| EvLogInfo (percent : N)                    (* log_info("Exported %u%%.") *)
| EvLogError (r : Z)                         (* log_error_errno *)
| EvCopyTimes
| EvCopyXattr
| EvOnFinished (r : Z)                       (* e->on_finished(e, r, e->userdata) *)
| EvEventExit (r : Z)                        (* sd_event_exit(e->event, r) *)
| EvFdNonblock (r : Z)                       (* fd_nonblock(fd, true) *)
| EvStrdup (r : Z)                           (* free_and_strdup(&e->path, path) *)
| EvOpen (fd : Z)                            (* open(), any of the three *)
| EvFstat (r : Z)
| EvTempfn (r : Z)                           (* tempfn_random *)
| EvUnlink
| EvSnapshotReflink (r : Z)                  (* btrfs_reflink(fd, new_fd) *)
| EvClose (fd : Z)                           (* safe_close, _cleanup_close_ *)
| EvStoreInputFd (fd : Z)                    (* e->input_fd = ... *)
| EvCompressInit (r : Z)                     (* import_compress_init *)
| EvAddIo (r : Z)                            (* sd_event_add_io *)
| EvAddDefer (r : Z)                         (* sd_event_add_defer *)
| EvSetEnabled (r : Z).                      (* sd_event_source_set_enabled *)

(** A C function can stop without returning. *)
Inductive Fault :=
| DivisionByZero
| AssertionFailed
| OutOfFuel.

(** ** [raw_export_report_progress] *)

(** Unsigned 64-bit division; undefined for a zero divisor. *)
Definition div_u64 (a b : N) : option N :=
  if (b =? 0)%N then None else Some (a / b)%N.

(** The division line 136 executes, if it executes one: dividend and
    divisor. *)
Definition progress_division (e : RawExport) : option (N * N) :=
  if (to_uint64 (st_size (st e)) <=? written_uncompressed e)%N then None
  else Some (wrap64 (written_uncompressed e * 100), to_uint64 (st_size (st e))).

(** The percentage computed at lines 133-136, [None] if the division were
    executed with a zero divisor. *)
Definition progress_percent (e : RawExport) : option N :=
  match progress_division e with
  | None => Some 100%N
  | Some (a, b) =>
      match div_u64 a b with
      | None => None
      | Some q => Some (wrap32 q)
      end
  end.

(** [rl_ok] is what [ratelimit_test(&e->progress_rate_limit)] answers if it
    is called.  That call also updates the counters inside
    [progress_rate_limit] (ratelimit.c, absent); the embedding takes the
    answer from the environment and does not follow those counters, so the
    field keeps what [RATELIMIT_INIT] put there and nothing below is stated
    about it after a report. *)
Definition raw_export_report_progress (e : RawExport) (rl_ok : bool)
    : option (RawExport * list Event) :=
  match progress_percent e with
  | None => None
  | Some percent =>
      if (percent =? last_percent e)%N then Some (e, [])
      else if negb rl_ok then Some (e, [EvRatelimitTest false])
      else Some (set_last_percent percent e,
                 [EvRatelimitTest true; EvNotify percent; EvLogInfo percent])
  end.

(** ** The source file and the kernel

    [input_fd] refers to a regular file (the snapshot, or the source itself)
    that nobody else modifies during the export: a length, a content and the
    file offset that [read] and [sendfile] with a NULL offset advance. *)

Record World := mkWorld {
  src_size : N;
  src_data : N -> byte;
  src_off : N
}.

Definition remaining (w : World) : N := (src_size w - src_off w)%N.

Definition advance (l : N) (w : World) : World :=
  mkWorld (src_size w) (src_data w) (src_off w + l).

(** The [l] bytes at the current offset. *)
Definition read_bytes (w : World) (l : N) : list byte :=
  map (fun i => src_data w (src_off w + N.of_nat i)%N) (seq 0 (N.to_nat l)).

(** Answer of the kernel to a call that takes bytes from the source: an
    error, or the readiness to move up to [avail] bytes.  On a regular file
    such a call moves at least one byte unless the offset is at the end. *)
Inductive src_answer :=
| SrcData (avail : positive)
| SrcError (errno : positive).

(** Answer to [write]: an error, or room for [n] bytes. *)
Inductive dst_answer :=
| DstAccept (n : N)
| DstError (errno : positive).

(** [read] and [sendfile]: the value returned, [errno], the new offset. *)
Definition sys_transfer (w : World) (count : N) (a : src_answer)
    : Z * Z * World :=
  match a with
  | SrcError errno => (-1, Z.pos errno, w)%Z
  | SrcData avail =>
      let l := N.min (N.min (N.pos avail) count) (remaining w) in
      (Z.of_N l, 0%Z, advance l w)
  end.

(** [write]: the value returned (never more than [count]) and [errno]. *)
Definition sys_write (count : N) (a : dst_answer) : Z * Z :=
  match a with
  | DstError errno => (-1, Z.pos errno)%Z
  | DstAccept n => (Z.of_N (N.min n count), 0%Z)
  end.

(** Answer of [import_compress] / [import_compress_finish] (import-compress.c,
    absent): the value returned and the bytes appended to the buffer. *)
Record enc_answer := mkEnc {
  enc_r : Z;
  enc_out : list byte
}.

(** Everything the outside answers during one call of [raw_export_process];
    [env_read i] and [env_compress i] belong to the i-th turn of the loop. *)
Record Env := mkEnv {
  env_reflink : Z;
  env_sendfile : src_answer;
  env_read : nat -> src_answer;
  env_compress : nat -> enc_answer;
  env_write : dst_answer;
  env_ratelimit : bool
}.

(** Modelled from the spec: log.h (absent); [log_error_errno(error, ...)]
    logs and yields the negated error code, as "the completion callback
    receives the negated error code" needs. *)
Definition log_error_errno (error : Z) : Z := (- Z.abs error)%Z.

(** ** [raw_export_process] *)

(** Where control is after a part of the function body. *)
Inductive Flow :=
| Continue (e : RawExport) (w : World) (tr : list Event)
| Return_ (e : RawExport) (w : World) (tr : list Event) (v : Z)
| Goto_finish (e : RawExport) (w : World) (tr : list Event) (r : Z)
| Crash (f : Fault).

Definition emit (evs : list Event) (f : Flow) : Flow :=
  match f with
  | Continue e w tr => Continue e w (evs ++ tr)
  | Return_ e w tr v => Return_ e w (evs ++ tr) v
  | Goto_finish e w tr r => Goto_finish e w (evs ++ tr) r
  | Crash c => Crash c
  end.

Definition and_then (f : Flow) (k : RawExport -> World -> Flow) : Flow :=
  match f with
  | Continue e w tr => emit tr (k e w)
  | _ => f
  end.

(** Lines 156-169. *)
Definition reflink_phase (env : Env) (e : RawExport) (w : World) : Flow :=
  if negb (tried_reflink e) && is_uncompressed (compress_type e) then
    let r := env_reflink env in
    if (0 <=? r)%Z then Goto_finish e w [EvReflink r] 0
    else Continue (set_tried_reflink true e) w [EvReflink r]
  else Continue e w [].

(** Lines 171-190. *)
Definition sendfile_phase (env : Env) (e : RawExport) (w : World) : Flow :=
  if negb (tried_sendfile e) && is_uncompressed (compress_type e) then
    let '(l, errno, w1) := sys_transfer w COPY_BUFFER_SIZE (env_sendfile env) in
    if (l <? 0)%Z then
      if (errno =? EAGAIN)%Z then Return_ e w1 [EvSendfile l] 0
      else Continue (set_tried_sendfile true e) w1 [EvSendfile l]
    else if (l =? 0)%Z then Goto_finish e w1 [EvSendfile l] 0
    else
      let e1 := set_written_uncompressed (add_u64 (written_uncompressed e) l) e in
      let e2 := set_written_compressed (add_u64 (written_compressed e1) l) e1 in
      match raw_export_report_progress e2 (env_ratelimit env) with
      | None => Crash DivisionByZero
      | Some (e3, evs) => Return_ e3 w1 (EvSendfile l :: evs) 0
      end
  else Continue e w [].

(** Lines 192-217, the [i]-th turn of the loop onwards. *)
Fixpoint read_loop (fuel : nat) (i : nat) (env : Env) (e : RawExport)
    (w : World) : Flow :=
  match fuel with
  | O => Crash OutOfFuel
  | S fuel' =>
      if negb (buffer_size e <=? 0)%N then Continue e w []
      else if eof e then Goto_finish e w [] 0
      else
        let '(l, errno, w1) := sys_transfer w COPY_BUFFER_SIZE (env_read env i) in
        if (l <? 0)%Z then
          let r := log_error_errno errno in
          Goto_finish e w1 [EvRead l; EvLogError r] r
        else
          let a := env_compress env i in
          let '(e1, ev) :=
            if (l =? 0)%Z then
              (set_buffer (buffer e ++ enc_out a) (set_eof true e),
               EvCompressFinish (enc_r a))
            else
              (set_buffer (buffer e ++ enc_out a)
                 (set_written_uncompressed
                    (add_u64 (written_uncompressed e) l) e),
               EvCompress (read_bytes w (Z.to_N l)) (enc_r a)) in
          if (enc_r a <? 0)%Z then
            let r := log_error_errno (enc_r a) in
            Goto_finish e1 w1 [EvRead l; ev; EvLogError r] r
          else emit [EvRead l; ev] (read_loop fuel' (S i) env e1 w1)
  end.

(** A turn that does not leave the loop consumes source bytes or sets
    [eof], so this many turns are enough (see [read_loop_total]). *)
Definition loop_fuel (w : World) : nat := N.to_nat (remaining w) + 2.

(** Lines 219-235. *)
Definition write_phase (env : Env) (e : RawExport) (w : World) : Flow :=
  let '(l, errno) := sys_write (buffer_size e) (env_write env) in
  if (l <? 0)%Z then
    if (errno =? EAGAIN)%Z then Return_ e w [EvWrite [] l] 0
    else
      let r := log_error_errno errno in
      Goto_finish e w [EvWrite [] l; EvLogError r] r
  else if negb (to_uint64 l <=? buffer_size e)%N then Crash AssertionFailed
  else
    let n := N.to_nat (to_uint64 l) in
    let e1 := set_buffer (skipn n (buffer e)) e in
    let e2 := set_written_compressed (add_u64 (written_compressed e1) l) e1 in
    match raw_export_report_progress e2 (env_ratelimit env) with
    | None => Crash DivisionByZero
    | Some (e3, evs) => Return_ e3 w (EvWrite (firstn n (buffer e)) l :: evs) 0
    end.

(** The body up to the [finish] label. *)
Definition process_body (env : Env) (e : RawExport) (w : World) : Flow :=
  and_then (reflink_phase env e w) (fun e1 w1 =>
  and_then (sendfile_phase env e1 w1) (fun e2 w2 =>
  and_then (read_loop (loop_fuel w2) 0 env e2 w2) (fun e3 w3 =>
  write_phase env e3 w3))).

(** Lines 237-248: what happens from the [finish] label on. *)
Definition finish (e : RawExport) (r : Z) : list Event :=
  (if (0 <=? r)%Z then [EvCopyTimes; EvCopyXattr] else [])
  ++ [if on_finished e then EvOnFinished r else EvEventExit r].

(** The result of a call that returns. *)
Record Result := mkResult {
  res_engine : RawExport;
  res_world : World;
  res_trace : list Event;
  res_value : Z
}.

Definition raw_export_process (env : Env) (e : RawExport) (w : World)
    : Result + Fault :=
  match process_body env e w with
  | Goto_finish e1 w1 tr r => inl (mkResult e1 w1 (tr ++ finish e1 r) 0)
  | Return_ e1 w1 tr v => inl (mkResult e1 w1 tr v)
  | Continue e1 w1 tr => inl (mkResult e1 w1 tr 0)   (* [write_phase] never continues *)
  | Crash c => inr c
  end.

(** [raw_export_on_output] and [raw_export_on_defer] both hand the engine
    to [raw_export_process] and return what it returns. *)
Definition raw_export_on_output := raw_export_process.
Definition raw_export_on_defer := raw_export_process.

(** ** [reflink_snapshot] and [raw_export_start] *)

(** What the outside answers during one call of [raw_export_start]; a pair
    is a returned value and [errno]. *)
Record StartEnv := mkStartEnv {
  se_fd_nonblock : Z;
  se_strdup : Z;
  se_open : Z * Z;
  se_fstat : Z * Z * stat;
  se_open_tmpfile : Z;
  se_tempfn : Z;
  se_open_named : Z * Z;
  se_snapshot_reflink : Z;
  se_compress_init : Z;
  se_add_io : Z;
  se_add_defer : Z;
  se_set_enabled : Z
}.

(** Lines 263-292: the new descriptor, or a negative error. *)
Definition reflink_snapshot (env : StartEnv) (fd : Z) : Z * list Event :=
  let new_fd := se_open_tmpfile env in
  let first := [EvOpen new_fd] in
  let clone (new_fd : Z) (tr : list Event) :=
    let r := se_snapshot_reflink env in
    if (r <? 0)%Z then (r, tr ++ [EvSnapshotReflink r; EvClose new_fd])
    else (new_fd, tr ++ [EvSnapshotReflink r]) in
  if (new_fd <? 0)%Z then
    let r := se_tempfn env in
    if (r <? 0)%Z then (r, first ++ [EvTempfn r])
    else
      let '(new_fd, errno) := se_open_named env in
      if (new_fd <? 0)%Z then ((- errno)%Z, first ++ [EvTempfn r; EvOpen new_fd])
      else clone new_fd (first ++ [EvTempfn r; EvOpen new_fd; EvUnlink])
  else clone new_fd first.

(** [_cleanup_close_ int sfd = -1, tfd = -1]: both are closed on every
    return if they still hold a descriptor. *)
Definition cleanup_close (sfd tfd : Z) : list Event :=
  (if (0 <=? tfd)%Z then [EvClose tfd] else [])
  ++ (if (0 <=? sfd)%Z then [EvClose sfd] else []).

(** The result of a call of [raw_export_start] that returns. *)
Record StartResult := mkStartResult {
  sr_value : Z;
  sr_engine : RawExport;
  sr_trace : list Event
}.

Definition raw_export_start (env : StartEnv) (e : RawExport)
    (path_ : string) (fd : Z) (compress : ImportCompressType)
    : StartResult + Fault :=
  if negb (0 <=? fd)%Z then inr AssertionFailed
  else if match compress with IMPORT_COMPRESS_UNKNOWN => true | _ => false end
  then inr AssertionFailed
  else if (0 <=? output_fd e)%Z then inl (mkStartResult (- EBUSY) e [])
  else
    let r := se_fd_nonblock env in
    let tr := [EvFdNonblock r] in
    if (r <? 0)%Z then inl (mkStartResult r e tr)
    else
      let r := se_strdup env in
      let tr := tr ++ [EvStrdup r] in
      if (r <? 0)%Z then inl (mkStartResult r e tr)
      else
        let e := set_path (Some path_) e in
        let '(sfd, errno) := se_open env in
        let tr := tr ++ [EvOpen sfd] in
        if (sfd <? 0)%Z then inl (mkStartResult (- errno) e tr)
        else
          let '(rs, errno, stbuf) := se_fstat env in
          let tr := tr ++ [EvFstat rs] in
          if (rs <? 0)%Z then
            inl (mkStartResult (- errno) e (tr ++ cleanup_close sfd (-1)))
          else
            let e := set_st stbuf e in
            if negb (S_ISREG (st_mode (st e))) then
              inl (mkStartResult (- ENOTTY) e (tr ++ cleanup_close sfd (-1)))
            else
              let '(tfd, snap) := reflink_snapshot env sfd in
              let tr := tr ++ snap in
              let '(e, sfd, tfd) :=
                if (0 <=? tfd)%Z then (set_input_fd tfd e, sfd, (-1)%Z)
                else (set_input_fd sfd e, (-1)%Z, tfd) in
              let tr := tr ++ [EvStoreInputFd (input_fd e)] in
              let r := se_compress_init env in
              let tr := tr ++ [EvCompressInit r] in
              if (r <? 0)%Z then
                inl (mkStartResult r e (tr ++ cleanup_close sfd tfd))
              else
                let e := set_compress_type compress e in
                let r := se_add_io env in
                let tr := tr ++ [EvAddIo r] in
                let e := if (0 <=? r)%Z then set_output_event_source true e else e in
                let after_register (r : Z) (e : RawExport) (tr : list Event) :=
                  if (r <? 0)%Z then
                    inl (mkStartResult r e (tr ++ cleanup_close sfd tfd))
                  else
                    inl (mkStartResult r (set_output_fd fd e)
                           (tr ++ cleanup_close sfd tfd)) in
                if (r =? - EPERM)%Z then
                  let r := se_add_defer env in
                  let tr := tr ++ [EvAddDefer r] in
                  if (r <? 0)%Z then
                    inl (mkStartResult r e (tr ++ cleanup_close sfd tfd))
                  else
                    let e := set_output_event_source true e in
                    let r := se_set_enabled env in
                    after_register r e (tr ++ [EvSetEnabled r])
                else after_register r e tr.

(** ** Sequences of notifications *)

(** The event loop calls the handler once per notification; [run] collects
    the results of the calls for the environments [envs], in order. *)
Fixpoint run (envs : list Env) (e : RawExport) (w : World) : list Result :=
  match envs with
  | [] => []
  | env :: rest =>
      match raw_export_process env e w with
      | inl r => r :: run rest (res_engine r) (res_world r)
      | inr _ => []
      end
  end.

Definition trace_of (rs : list Result) : list Event := flat_map res_trace rs.

(** The engine before the first call and after each call. *)
Definition engines (e : RawExport) (rs : list Result) : list RawExport :=
  e :: map res_engine rs.

Definition is_finish (ev : Event) : bool :=
  match ev with
  | EvOnFinished _ | EvEventExit _ => true
  | _ => false
  end.

(** How often the finish action was performed. *)
Definition finish_count (tr : list Event) : nat :=
  List.length (filter is_finish tr).

(** The call ended through the [finish] label with result [r]. *)
Definition finished_with (r : Z) (tr : list Event) : Prop :=
  In (EvOnFinished r) tr \/ In (EvEventExit r) tr.

(** The percentages sent out, in order. *)
Definition emitted (tr : list Event) : list N :=
  flat_map (fun ev => match ev with EvNotify p => [p] | _ => [] end) tr.


Definition is_reflink (ev : Event) : bool :=
  match ev with EvReflink _ => true | _ => false end.

Definition is_sendfile (ev : Event) : bool :=
  match ev with EvSendfile _ => true | _ => false end.

Definition is_read (ev : Event) : bool :=
  match ev with EvRead _ => true | _ => false end.

(** An engine and a source as [raw_export_start] leaves them on success:
    nothing transferred yet, the offset at the start, and the size that
    [fstat] stored is the length of the file behind [input_fd]. *)
Record started (e : RawExport) (w : World) : Prop := mkStarted {
  started_written : written_uncompressed e = 0%N;
  started_eof : eof e = false;
  started_off : src_off w = 0%N;
  started_size : to_uint64 (st_size (st e)) = src_size w;
  started_range : (src_size w < 2 ^ 63)%N
}.

(** ** Invariants *)

(** The percentage the specification writes down. *)
Definition spec_percent (written size : N) : N :=
  if (size <=? written)%N then 100%N else (written * 100 / size)%N.

(** The uncompressed counter is the file offset of [input_fd], and input is
    only marked exhausted at the end of the file. *)
Record counted (e : RawExport) (w : World) : Prop := mkCounted {
  counted_written : written_uncompressed e = src_off w;
  counted_off : (src_off w <= src_size w)%N;
  counted_range : (src_size w < 2 ^ 64)%N;
  counted_eof : eof e = true -> src_off w = src_size w
}.

(** [ps] are the percentages sent so far, for a source small enough that
    a hundred times its size fits 64 bits: they increase strictly, none
    exceeds the current percentage, and the last one is remembered. *)
Record reported (e : RawExport) (w : World) (ps : list N) : Prop := mkReported {
  rp_counted : counted e w;
  rp_small : (src_size w * 100 < 2 ^ 64)%N;
  rp_size : to_uint64 (st_size (st e)) = src_size w;
  rp_sorted : StronglySorted N.lt ps;
  rp_bound : Forall (fun p => (p <= spec_percent (written_uncompressed e) (src_size w))%N) ps;
  rp_last : last_percent e = last ps UINT_MAX
}.

Definition is_reflink_ok (ev : Event) : bool :=
  match ev with EvReflink r => (0 <=? r)%Z | _ => false end.

Definition loop_event (ev : Event) : bool :=
  match ev with
  | EvRead _ | EvCompress _ _ | EvCompressFinish _ | EvLogError _ => true
  | _ => false
  end.

(** What every part of the body of [raw_export_process] leaves alone, and
    what it keeps. *)
Record phase_rel (e : RawExport) (w : World) (e' : RawExport) (w' : World)
    (tr : list Event) : Prop := mkPhaseRel {
  pr_on_finished : on_finished e' = on_finished e;
  pr_compress : compress_type e' = compress_type e;
  pr_st : st e' = st e;
  pr_input_fd : input_fd e' = input_fd e;
  pr_output_fd : output_fd e' = output_fd e;
  pr_tried_reflink : tried_reflink e = true -> tried_reflink e' = true;
  pr_tried_sendfile : tried_sendfile e = true -> tried_sendfile e' = true;
  pr_eof : eof e = true -> eof e' = true;
  pr_size : src_size w' = src_size w;
  pr_off : (src_off w <= src_off w')%N;
  pr_counted : counted e w -> counted e' w';
  pr_no_finish : existsb is_finish tr = false;
  pr_no_reflink : tried_reflink e = true -> existsb is_reflink tr = false;
  pr_no_sendfile : tried_sendfile e = true -> existsb is_sendfile tr = false;
  pr_no_read : eof e = true -> existsb is_read tr = false;
  pr_reported : forall ps, reported e w ps -> reported e' w' (ps ++ emitted tr)
}.

(** Why a call may end with success: the reflink went through, or the
    offset of [input_fd] is at the end of the file. *)
Definition success_cause (e : RawExport) (w : World) (w' : World)
    (tr : list Event) : Prop :=
  existsb is_reflink_ok tr = true \/ (counted e w -> src_off w' = src_size w').

Definition flow_ok (e : RawExport) (w : World) (f : Flow) : Prop :=
  match f with
  | Continue e' w' tr => phase_rel e w e' w' tr
  | Return_ e' w' tr v => phase_rel e w e' w' tr /\ v = 0%Z
  | Goto_finish e' w' tr r =>
      phase_rel e w e' w' tr /\ (r <= 0)%Z /\ (r = 0%Z -> success_cause e w w' tr)
  | Crash _ => False
  end.

(** ** Counting over a sequence of calls *)

(** The body of the call reaches the [finish] label. *)
Definition terminal (env : Env) (e : RawExport) (w : World) : bool :=
  match process_body env e w with
  | Goto_finish _ _ _ _ => true
  | _ => false
  end.


(** The event that carries the result code [r] out of the engine. *)
Definition finish_event (e : RawExport) (r : Z) : Event :=
  if on_finished e then EvOnFinished r else EvEventExit r.

(** The fast paths are out of the way: compression is active, or both
    latches are set. *)
Definition generic_path (e : RawExport) : Prop :=
  is_uncompressed (compress_type e) = false \/
  (tried_reflink e = true /\ tried_sendfile e = true).

(** The engine and the source after the calls for [envs]. *)
Fixpoint run_end (envs : list Env) (e : RawExport) (w : World)
    : RawExport * World :=
  match envs with
  | [] => (e, w)
  | env :: rest =>
      match raw_export_process env e w with
      | inl r => run_end rest (res_engine r) (res_world r)
      | inr _ => (e, w)
      end
  end.

Definition is_store_input_fd (ev : Event) : bool :=
  match ev with EvStoreInputFd _ => true | _ => false end.

(** How often [input_fd] was assigned. *)
Definition store_count (tr : list Event) : nat :=
  List.length (filter is_store_input_fd tr).

(** ** Concrete exports, to exercise the statements *)

Definition the_engine (x : Z * option RawExport) : RawExport :=
  match snd x with
  | Some e => e
  | None => new0_RawExport
  end.

(** A new engine with a completion callback. *)
Definition fresh : RawExport := the_engine (raw_export_new true true 0 true).

(** A start in which every call succeeds: the source opens as [sfd], has
    the given mode and size, and the snapshot is the unnamed file [tfd]. *)
Definition start_env (mode : N) (size : Z) (sfd tfd : Z) : StartEnv :=
  {| se_fd_nonblock := 0;
     se_strdup := 0;
     se_open := (sfd, 0%Z);
     se_fstat := (0%Z, 0%Z, mkStat mode size);
     se_open_tmpfile := tfd;
     se_tempfn := 0;
     se_open_named := (tfd, 0%Z);
     se_snapshot_reflink := 0;
     se_compress_init := 0;
     se_add_io := 0;
     se_add_defer := 0;
     se_set_enabled := 0 |}.

(** The same, but [import_compress_init] fails with -EIO. *)
Definition start_env_init_fails (mode : N) (size : Z) (sfd tfd : Z) : StartEnv :=
  {| se_fd_nonblock := 0;
     se_strdup := 0;
     se_open := (sfd, 0%Z);
     se_fstat := (0%Z, 0%Z, mkStat mode size);
     se_open_tmpfile := tfd;
     se_tempfn := 0;
     se_open_named := (tfd, 0%Z);
     se_snapshot_reflink := 0;
     se_compress_init := - EIO;
     se_add_io := 0;
     se_add_defer := 0;
     se_set_enabled := 0 |}.

Definition image_path : string := "/var/lib/machines/image.raw".

(** Mode of a regular file, of a directory and of a socket, with permission
    bits. *)
Definition mode_file : N := S_IFREG + 420.   (* 0100644 *)
Definition mode_dir : N := S_IFDIR + 493.    (* 0040755 *)
Definition mode_sock : N := S_IFSOCK + 493.  (* 0140755 *)

(** A start on the path of a UNIX socket: open(2) refuses it with ENXIO,
    so [fstat], which would answer the mode of a socket, is never asked. *)
Definition start_env_socket : StartEnv :=
  {| se_fd_nonblock := 0;
     se_strdup := 0;
     se_open := ((-1)%Z, ENXIO);
     se_fstat := (0%Z, 0%Z, mkStat mode_sock 0);
     se_open_tmpfile := 6;
     se_tempfn := 0;
     se_open_named := (6%Z, 0%Z);
     se_snapshot_reflink := 0;
     se_compress_init := 0;
     se_add_io := 0;
     se_add_defer := 0;
     se_set_enabled := 0 |}.

(** The engine after a successful start on a regular file of [size] bytes,
    writing to descriptor 3. *)
Definition started_engine (size : Z) (c : ImportCompressType) : RawExport :=
  match raw_export_start (start_env mode_file size 5 6) fresh image_path 3 c with
  | inl r => sr_engine r
  | inr _ => fresh
  end.

(** A source of [size] zero bytes, the offset at the start. *)
Definition zeros (size : N) : World := mkWorld size (fun _ => x00) 0.

(** The reflink works. *)
Definition env_reflink_works : Env :=
  mkEnv 0 (SrcData 16384) (fun _ => SrcData 16384) (fun _ => mkEnc 0 [])
        (DstAccept 16384) true.

(** The reflink is not supported (-EOPNOTSUPP), [sendfile] moves up to
    [avail] bytes, and the rate limiter answers [rl]. *)
Definition env_sendfile_works (avail : positive) (rl : bool) : Env :=
  mkEnv (-95) (SrcData avail) (fun _ => SrcData 16384) (fun _ => mkEnc 0 [])
        (DstAccept 16384) rl.


(** A compressed export: every read is served, the compressor puts out two
    bytes per call, and the output takes whatever is pending. *)
Definition env_gzip : Env :=
  mkEnv (-95) (SrcData 16384) (fun _ => SrcData 16384)
        (fun _ => mkEnc 0 [x1f; x8b]) (DstAccept 16384) true.

(** A sparse source of 4 EiB, and the number of bytes from which
    [written_uncompressed * 100] no longer fits 64 bits. *)
Definition huge : N := 2 ^ 62.
Definition overflow_at : N := 184467440737095517.

(** The engine of an uncompressed export of the [huge] source after [n]
    bytes went through [sendfile] without a progress report. *)
Definition sent (n : N) : RawExport :=
  set_tried_reflink true
    (set_written_compressed n
       (set_written_uncompressed n
          (started_engine (Z.of_N huge) IMPORT_COMPRESS_UNCOMPRESSED))).

(** The [huge] source with the offset of [input_fd] at [n]. *)
Definition at_offset (n : N) : World := mkWorld huge (fun _ => x00) n.

(** The calls that lead up to the overflow: full chunks that the rate
    limiter keeps silent, then a chunk that ends one byte before
    [overflow_at], then one more byte. *)
Definition full_chunks : N := 11258999068426.

Definition envs_to_overflow : list Env :=
  repeat (env_sendfile_works 16384 false) (N.to_nat full_chunks)
  ++ [env_sendfile_works 3932 true; env_sendfile_works 1 true].

(** A small uncompressed export and a small compressed one. *)
Definition plain10 : RawExport := started_engine 10 IMPORT_COMPRESS_UNCOMPRESSED.
Definition gzip3 : RawExport := started_engine 3 IMPORT_COMPRESS_GZIP.

(** The compressed export after its first call: the three bytes are read,
    compressed and written. *)
Definition gzip3_after_first : RawExport :=
  fst (run_end [env_gzip] gzip3 (zeros 3)).
Definition zeros3_after_first : World :=
  snd (run_end [env_gzip] gzip3 (zeros 3)).

(** The second call of the compressed export finds the end of the input;
    the compressor's trailing bytes are pending when the loop is left. *)
Definition gzip3_pending : RawExport :=
  set_buffer [x1f; x8b] (set_eof true gzip3_after_first).

(** The engine of the [huge] export at the call that reports just after
    [overflow_at] bytes: the 3 percent of the byte before were sent. *)
Definition overflown : RawExport := set_last_percent 3 (sent overflow_at).

(** ** Descriptors and teardown *)

(** [safe_close(fd)] closes [fd] unless it is negative. *)
Definition safe_close (fd : Z) : list Event :=
  if (0 <=? fd)%Z then [EvClose fd] else [].

(** What [raw_export_unref] releases, in order. *)
Inductive Release :=
| RelEventSource               (* sd_event_source_unref(e->output_event_source) *)
| RelCompress                  (* import_compress_free(&e->compress) *)
| RelEvent                     (* sd_event_unref(e->event) *)
| RelDescriptor (ev : Event)   (* what safe_close(e->input_fd) does *)
| RelBuffer                    (* free(e->buffer) *)
| RelPath                      (* free(e->path) *)
| RelEngine.                   (* mfree(e) *)

(** Lines 76-91: [None] is the NULL pointer, which is also what the function
    returns in every case. *)
Definition raw_export_unref (e : option RawExport)
    : option RawExport * list Release :=
  match e with
  | None => (None, [])
  | Some e =>
      (None,
       [RelEventSource; RelCompress; RelEvent]
       ++ map RelDescriptor (safe_close (input_fd e))
       ++ [RelBuffer; RelPath; RelEngine])
  end.

(** The system calls among the releases. *)
Definition release_events (rs : list Release) : list Event :=
  flat_map (fun r => match r with RelDescriptor ev => [ev] | _ => [] end) rs.

Fixpoint remove_one (x : Z) (l : list Z) : list Z :=
  match l with
  | [] => []
  | y :: t => if (x =? y)%Z then t else y :: remove_one x t
  end.

(** The descriptor table of the process, as far as the engine moves it: an
    [open] that succeeded adds its descriptor, a [close] takes it out. *)
Definition track (fds : list Z) (ev : Event) : list Z :=
  match ev with
  | EvOpen fd => if (0 <=? fd)%Z then fd :: fds else fds
  | EvClose fd => remove_one fd fds
  | _ => fds
  end.

(** The descriptors that the calls of [tr] opened and left open. *)
Definition descriptors (tr : list Event) : list Z := fold_left track tr [].

(** A system call that fails sets [errno] to a positive value. *)
Definition errno_set (ret_errno : Z * Z) : Prop :=
  (fst ret_errno < 0 -> 0 < snd ret_errno)%Z.

(** The environment of a start answers as the kernel does. *)
Record start_env_ok (env : StartEnv) : Prop := mkStartEnvOk {
  seo_open : errno_set (se_open env);
  seo_fstat : errno_set (fst (se_fstat env));
  seo_named : errno_set (se_open_named env)
}.

(** ** Relations between the parts of a call *)

(** A relation between the engine before and after a part of the body and
    the trace of that part. *)
Definition PartRel : Type :=
  RawExport -> World -> RawExport -> World -> list Event -> Prop.

(** The part that ended in [f] satisfies [Rc] if control goes on to the next
    part and [Rs] if it leaves the body. *)
Definition flow_sat (Rc Rs : PartRel) (e : RawExport) (w : World) (f : Flow)
    : Prop :=
  match f with
  | Continue e' w' tr => Rc e w e' w' tr
  | Return_ e' w' tr _ => Rs e w e' w' tr
  | Goto_finish e' w' tr _ => Rs e w e' w' tr
  | Crash _ => True
  end.

(** The events of the body of [raw_export_process], as opposed to those of
    the [finish] label and of [raw_export_start]. *)
Definition body_event (ev : Event) : bool :=
  match ev with
  | EvReflink _ | EvSendfile _ | EvRead _ | EvCompress _ _
  | EvCompressFinish _ | EvWrite _ _ | EvRatelimitTest _ | EvNotify _
  | EvLogInfo _ | EvLogError _ => true
  | _ => false
  end.

(** No percentage in [ps] repeats the one before it, [x] being the one
    before the first. *)
Fixpoint chain (x : N) (ps : list N) : Prop :=
  match ps with
  | [] => True
  | p :: t => p <> x /\ chain p t
  end.

(** What the body does about progress, and what else it leaves alone. *)
Record body_rel (e : RawExport) (w : World) (e' : RawExport) (w' : World)
    (tr : list Event) : Prop := mkBodyRel {
  br_events : forallb body_event tr = true;
  br_last : last_percent e' = last (emitted tr) (last_percent e);
  br_chain : chain (last_percent e) (emitted tr);
  br_bound : Forall (fun p => (p <= 100)%N) (emitted tr);
  br_path : path e' = path e;
  br_source : output_event_source e' = output_event_source e
}.

(** The bytes handed to [write], in order. *)
Definition written_bytes (tr : list Event) : list byte :=
  flat_map (fun ev => match ev with EvWrite data _ => data | _ => [] end) tr.

Definition is_compress (ev : Event) : bool :=
  match ev with
  | EvCompress _ _ | EvCompressFinish _ => true
  | _ => false
  end.

Definition is_write (ev : Event) : bool :=
  match ev with EvWrite _ _ => true | _ => false end.

Definition count (f : Event -> bool) (tr : list Event) : nat :=
  List.length (filter f tr).

(** What the compressor appended in its calls [i], ..., [i + n - 1]. *)
Definition produced (env : Env) (i n : nat) : list byte :=
  concat (map (fun j => enc_out (env_compress env j)) (seq i n)).

(** The pending buffer is a queue: what was written, followed by what is
    pending, is what was pending before followed by what the compressor
    appended since its call [i]. *)
Definition fifo_rel (env : Env) (i : nat) : PartRel :=
  fun e _ e' _ tr =>
    written_bytes tr ++ buffer e'
      = buffer e ++ produced env i (count is_compress tr).

(** A part that neither writes nor compresses and leaves the buffer. *)
Definition fifo_idle : PartRel :=
  fun e _ e' _ tr =>
    written_bytes tr = [] /\ count is_compress tr = 0 /\ buffer e' = buffer e.

(** The loop writes nothing and appends the compressor's output. *)
Definition appended (env : Env) (i : nat) : PartRel :=
  fun e _ e' _ tr =>
    written_bytes tr = [] /\
    buffer e' = buffer e ++ produced env i (count is_compress tr).

(** The write takes a prefix of the buffer. *)
Definition wrote : PartRel :=
  fun e _ e' _ tr =>
    written_bytes tr ++ buffer e' = buffer e /\ count is_compress tr = 0%nat.

(** At most [a] reflinks, [b] sendfiles, [c] writes and [d] reports. *)
Definition within (a b c d : nat) : PartRel :=
  fun _ _ _ _ tr =>
    (count is_reflink tr <= a /\ count is_sendfile tr <= b /\
     count is_write tr <= c /\ List.length (emitted tr) <= d)%nat.

Definition never : PartRel := fun _ _ _ _ _ => False.

(** The codes that [log_error_errno] logged, in order. *)
Definition logged (tr : list Event) : list Z :=
  flat_map (fun ev => match ev with EvLogError r => [r] | _ => [] end) tr.

(** A part of the body logs an error exactly when it leaves for [finish]
    with a negative code, and it is that code it logs. *)
Definition flow_logged (f : Flow) : Prop :=
  match f with
  | Continue _ _ tr => logged tr = []
  | Return_ _ _ tr _ => logged tr = []
  | Goto_finish _ _ tr r =>
      (r <= 0)%Z /\ logged tr = (if (r <? 0)%Z then [r] else [])
  | Crash _ => True
  end.

(** On the bulk path (no compression, [sendfile] not given up) every byte
    counts on both sides and nothing is pending. *)
Definition bulk (e : RawExport) : Prop :=
  is_uncompressed (compress_type e) = true -> tried_sendfile e = false ->
  written_compressed e = written_uncompressed e /\ buffer e = [].

(** The bulk path is unavailable. *)
Definition bulk_over (e : RawExport) : Prop :=
  is_uncompressed (compress_type e) = false \/ tried_sendfile e = true.

(** A part keeps the compression type and the [sendfile] latch. *)
Definition bulk_frame : PartRel :=
  fun e _ e' _ _ =>
    compress_type e' = compress_type e /\
    (tried_sendfile e = true -> tried_sendfile e' = true).

(** That, and it keeps the bulk path as it found it. *)
Definition bulk_kept : PartRel :=
  fun e w e' w' tr => bulk_frame e w e' w' tr /\ (bulk e -> bulk e').

(** That, and it rules the bulk path out. *)
Definition bulk_left : PartRel :=
  fun e w e' w' tr => bulk_frame e w e' w' tr /\ bulk_over e'.

(** The bytes that went to [output_fd]: what [sendfile] moved and what
    [write] took. *)
Definition output_bytes (tr : list Event) : N :=
  fold_right
    (fun ev n =>
       (match ev with
        | EvSendfile l => Z.to_N l
        | EvWrite data _ => N.of_nat (List.length data)
        | _ => 0
        end + n)%N) 0%N tr.

(** [written_compressed] went up by the bytes that went out, as far as 64
    bits tell. *)
Definition out_counted : PartRel :=
  fun e _ e' _ tr =>
    wrap64 (written_compressed e')
      = wrap64 (written_compressed e + output_bytes tr).

(** ** Progress of a call *)

(** What is left to read: the bytes behind the offset of [input_fd], and the
    end of the file as long as it was not seen. *)
Definition input_left (e : RawExport) (w : World) : N :=
  (remaining w + (if eof e then 0 else 1))%N.

Definition serves (a : src_answer) : bool :=
  match a with
  | SrcData _ => true
  | SrcError _ => false
  end.

(** Room for at least one byte, and for no more than [ssize_t] can tell. *)
Definition accepts (a : dst_answer) : bool :=
  match a with
  | DstAccept n => (0 <? n)%N && (n <? 2 ^ 63)%N
  | DstError _ => false
  end.

(** Nothing fails or would block during the call, and the output takes at
    least one byte. *)
Record cooperative (env : Env) : Prop := mkCooperative {
  co_sendfile : serves (env_sendfile env) = true;
  co_read : forall i, serves (env_read env i) = true;
  co_compress : forall i, (0 <= enc_r (env_compress env i))%Z;
  co_write : accepts (env_write env) = true
}.

(** Less is left to do: less to read, or as much to read and less pending. *)
Definition stepped (e : RawExport) (w : World) (e' : RawExport) (w' : World)
    : Prop :=
  (input_left e' w' < input_left e w)%N \/
  (input_left e' w' = input_left e w /\
   (List.length (buffer e') < List.length (buffer e))%nat).

(** * Properties *)

(** ** Arithmetic of the C integer types *)

Lemma wrap64_small (n : N) : (n < 2 ^ 64)%N -> wrap64 n = n.
Proof. intros H. unfold wrap64. apply N.mod_small. exact H. Qed.

Lemma to_uint64_of_N (n : N) : (n < 2 ^ 64)%N -> to_uint64 (Z.of_N n) = n.
Proof.
  intros H. unfold to_uint64.
  rewrite Z.mod_small.
  - apply N2Z.id.
  - split; [apply N2Z.is_nonneg|].
    change (2 ^ 64)%Z with (Z.of_N (2 ^ 64)). apply N2Z.inj_lt. exact H.
Qed.

Lemma to_uint64_le (n : N) : (to_uint64 (Z.of_N n) <= n)%N.
Proof.
  unfold to_uint64.
  assert (H : (0 <= Z.of_N n mod 2 ^ 64 <= Z.of_N n)%Z).
  { split.
    - apply Z.mod_pos_bound. reflexivity.
    - apply Z.mod_le; [apply N2Z.is_nonneg | reflexivity]. }
  lia.
Qed.

Lemma add_u64_of_N (u l : N) :
  (l < 2 ^ 64)%N -> add_u64 u (Z.of_N l) = wrap64 (u + l).
Proof. intros H. unfold add_u64. rewrite to_uint64_of_N by exact H. reflexivity. Qed.

(** ** The progress reporter *)

Lemma progress_division_divisor (e : RawExport) (a b : N) :
  progress_division e = Some (a, b) ->
  b = to_uint64 (st_size (st e)) /\ (written_uncompressed e < b)%N /\ (1 <= b)%N.
Proof.
  unfold progress_division.
  destruct (N.leb_spec (to_uint64 (st_size (st e))) (written_uncompressed e));
    intros H0; inversion H0; subst. lia.
Qed.

Lemma progress_percent_total (e : RawExport) :
  exists p, progress_percent e = Some p.
Proof.
  unfold progress_percent.
  destruct (progress_division e) as [[a b]|] eqn:D.
  - apply progress_division_divisor in D. destruct D as (_ & _ & Hb).
    unfold div_u64. destruct (N.eqb_spec b 0); [lia|]. eauto.
  - eauto.
Qed.

Lemma report_progress_total (e : RawExport) (ok : bool) :
  exists e' evs, raw_export_report_progress e ok = Some (e', evs).
Proof.
  unfold raw_export_report_progress.
  destruct (progress_percent_total e) as [p ->].
  destruct (p =? last_percent e)%N; [eauto|].
  destruct ok; simpl; eauto.
Qed.


Lemma progress_percent_exact (e : RawExport) :
  (written_uncompressed e * 100 < 2 ^ 64)%N ->
  progress_percent e =
    Some (spec_percent (written_uncompressed e) (to_uint64 (st_size (st e)))).
Proof.
  intros Hr. unfold progress_percent, progress_division, spec_percent.
  destruct (N.leb_spec (to_uint64 (st_size (st e))) (written_uncompressed e)) as [Hle|Hlt];
    [reflexivity|].
  unfold div_u64. destruct (N.eqb_spec (to_uint64 (st_size (st e))) 0); [lia|].
  rewrite wrap64_small by exact Hr.
  f_equal. unfold wrap32. apply N.mod_small.
  apply N.lt_le_trans with (m := 100%N); [|vm_compute; discriminate].
  apply N.Div0.div_lt_upper_bound. lia.
Qed.

Lemma progress_percent_le_100 (e : RawExport) (p : N) :
  progress_percent e = Some p -> (p <= 100)%N.
Proof.
  unfold progress_percent, progress_division.
  destruct (N.leb_spec (to_uint64 (st_size (st e))) (written_uncompressed e)) as [Hle|Hlt].
  - intros H; inversion H. lia.
  - unfold div_u64. destruct (N.eqb_spec (to_uint64 (st_size (st e))) 0); [lia|].
    intros H; inversion H; clear H.
    unfold wrap32.
    assert (Hq : (wrap64 (written_uncompressed e * 100) / to_uint64 (st_size (st e)) <= 100)%N).
    { destruct (N.lt_ge_cases (written_uncompressed e * 100) (2 ^ 64)) as [Hs|Hb].
      - rewrite wrap64_small by exact Hs.
        apply N.lt_le_incl, N.Div0.div_lt_upper_bound. lia.
      - apply N.lt_le_incl, N.Div0.div_lt_upper_bound.
        assert (wrap64 (written_uncompressed e * 100) < 2 ^ 64)%N
          by (apply N.mod_upper_bound; discriminate).
        lia. }
    etransitivity; [apply N.Div0.mod_le | exact Hq].
Qed.

Lemma COPY_BUFFER_SIZE_pos : (0 < COPY_BUFFER_SIZE < 2 ^ 63)%N.
Proof. vm_compute. split; reflexivity. Qed.

(** The kernel's side of [read] and [sendfile]. *)
Lemma sys_transfer_data (w : World) (count : N) (avail : positive) :
  (0 < count)%N ->
  exists l,
    sys_transfer w count (SrcData avail) = (Z.of_N l, 0%Z, advance l w) /\
    (l <= count)%N /\ (l <= remaining w)%N /\ (l = 0%N <-> remaining w = 0%N).
Proof.
  intros Hc. exists (N.min (N.min (N.pos avail) count) (remaining w)).
  split; [reflexivity|]. lia.
Qed.

Lemma sys_transfer_error (w : World) (count : N) (errno : positive) :
  sys_transfer w count (SrcError errno) = ((-1)%Z, Z.pos errno, w).
Proof. reflexivity. Qed.

Lemma log_error_errno_neg (x : Z) : x <> 0%Z -> (log_error_errno x < 0)%Z.
Proof. unfold log_error_errno. lia. Qed.

Lemma buffer_size_zero (e : RawExport) :
  (buffer_size e <=? 0)%N = true <-> buffer e = [].
Proof.
  unfold buffer_size. destruct (buffer e); simpl; split; intros H;
    try reflexivity; discriminate.
Qed.

Lemma emitted_app (tr1 tr2 : list Event) :
  emitted (tr1 ++ tr2) = emitted tr1 ++ emitted tr2.
Proof. unfold emitted. apply flat_map_app. Qed.

(** *** Percentages *)

Lemma spec_percent_mono (a b size : N) :
  (a <= b)%N -> (spec_percent a size <= spec_percent b size)%N.
Proof.
  intros Hab. unfold spec_percent.
  destruct (N.leb_spec size a), (N.leb_spec size b); try lia.
  - apply N.lt_le_incl, N.Div0.div_lt_upper_bound. lia.
  - apply N.Div0.div_le_mono. lia.
Qed.

Lemma sorted_le_last (ps : list N) (d : N) :
  StronglySorted N.lt ps -> Forall (fun p => (p <= last ps d)%N) ps.
Proof.
  induction 1 as [|a l Hs IH Ha]; [constructor|].
  destruct l as [|b l'].
  - constructor; [simpl; lia | constructor].
  - change (last (a :: b :: l') d) with (last (b :: l') d).
    constructor; [|exact IH].
    inversion IH; subst. inversion Ha; subst. lia.
Qed.

Lemma sorted_snoc (ps : list N) (p : N) :
  StronglySorted N.lt ps -> Forall (fun q => (q < p)%N) ps ->
  StronglySorted N.lt (ps ++ [p]).
Proof.
  induction 1 as [|a l Hs IH Ha]; intros Hp; simpl.
  - constructor; constructor.
  - inversion Hp; subst. constructor; [apply IH; assumption|].
    apply Forall_app. split; [exact Ha|]. constructor; [assumption|constructor].
Qed.

(** Moving on without reporting keeps the record of what was reported. *)
Lemma reported_mono (e : RawExport) (w : World) (e' : RawExport) (w' : World)
    (ps : list N) :
  reported e w ps -> counted e' w' -> st e' = st e -> src_size w' = src_size w ->
  (src_off w <= src_off w')%N -> last_percent e' = last_percent e ->
  reported e' w' ps.
Proof.
  intros [Hc Hs Hz Hso Hb Hl] Hc' Hst Hsz Hoff Hlast.
  constructor; try congruence.
  - rewrite Hsz. eapply Forall_impl; [|exact Hb].
    intros p Hp. simpl in Hp. etransitivity; [exact Hp|].
    apply spec_percent_mono.
    rewrite (counted_written _ _ Hc), (counted_written _ _ Hc'). exact Hoff.
Qed.

Lemma counted_advance (e : RawExport) (w : World) (l : N) (e' : RawExport) :
  counted e w -> (l <= remaining w)%N ->
  written_uncompressed e' = add_u64 (written_uncompressed e) (Z.of_N l) ->
  eof e' = eof e ->
  counted e' (advance l w).
Proof.
  intros [Hw Ho Hr He] Hl Hw' He'. unfold remaining in Hl.
  constructor; simpl.
  - rewrite Hw', add_u64_of_N by lia. rewrite Hw. apply wrap64_small. lia.
  - lia.
  - exact Hr.
  - rewrite He'. intros H. apply He in H. lia.
Qed.

(** *** The reporter, as a part of a step *)

Lemma report_progress_cases (e : RawExport) (ok : bool) :
  (exists evs, raw_export_report_progress e ok = Some (e, evs) /\ emitted evs = [] /\
     (evs = [] \/ evs = [EvRatelimitTest false])) \/
  (exists p, raw_export_report_progress e ok =
               Some (set_last_percent p e,
                     [EvRatelimitTest true; EvNotify p; EvLogInfo p]) /\
     progress_percent e = Some p /\ p <> last_percent e /\ ok = true).
Proof.
  unfold raw_export_report_progress.
  destruct (progress_percent_total e) as [p Hp]. rewrite Hp.
  destruct (N.eqb_spec p (last_percent e)) as [Heq|Hne].
  - left. exists []. auto.
  - destruct ok; cbn [negb].
    + right. exists p. auto.
    + left. eexists. split; [reflexivity|]. auto.
Qed.

Lemma reported_emit (e : RawExport) (w : World) (ps : list N) (p : N) :
  reported e w ps -> progress_percent e = Some p -> p <> last_percent e ->
  reported (set_last_percent p e) w (ps ++ [p]).
Proof.
  intros [Hc Hs Hz Hso Hb Hl] Hp Hne.
  assert (Hw : (written_uncompressed e * 100 < 2 ^ 64)%N).
  { rewrite (counted_written _ _ Hc). pose proof (counted_off _ _ Hc). lia. }
  rewrite (progress_percent_exact e Hw), Hz in Hp.
  injection Hp as Hp. 
  assert (Hlt : Forall (fun q => (q < p)%N) ps).
  { pose proof (sorted_le_last ps UINT_MAX Hso) as Hlast.
    rewrite <- Hl in Hlast.
    destruct ps as [|a l]; [constructor|].
    assert (Hin : In (last (a :: l) UINT_MAX) (a :: l)).
    { destruct (@exists_last N (a :: l)) as (l' & x & Hx); [discriminate|].
      rewrite Hx. rewrite last_last. apply in_or_app. right. left. reflexivity. }
    rewrite <- Hl in Hin.
    rewrite Forall_forall in Hb. specialize (Hb _ Hin). cbn beta in Hb.
    rewrite Hp in Hb.
    eapply Forall_impl; [|exact Hlast]. intros q Hq. cbn beta in Hq. lia. }
  constructor; cbn [set_last_percent written_uncompressed st last_percent]; auto.
  - destruct Hc; constructor; assumption.
  - apply sorted_snoc; assumption.
  - apply Forall_app. split.
    + rewrite Hp. eapply Forall_impl; [|exact Hlt]. intros q Hq. cbn beta in Hq. lia.
    + constructor; [rewrite Hp; lia | constructor].
  - rewrite last_last. reflexivity.
Qed.

(** *** Composing the parts of a step *)

Lemma phase_rel_refl (e : RawExport) (w : World) : phase_rel e w e w [].
Proof.
  constructor; auto; try lia.
  intros ps Hps. rewrite app_nil_r. exact Hps.
Qed.

Lemma phase_rel_trans e w e1 w1 tr1 e2 w2 tr2 :
  phase_rel e w e1 w1 tr1 -> phase_rel e1 w1 e2 w2 tr2 ->
  phase_rel e w e2 w2 (tr1 ++ tr2).
Proof.
  intros H1 H2. destruct H1, H2.
  constructor; try congruence; auto; try lia.
  all: try (intros; rewrite existsb_app; apply orb_false_intro; auto).
  intros ps Hps. rewrite emitted_app, app_assoc. auto.
Qed.

Lemma success_cause_trans e w e1 w1 tr1 w2 tr2 :
  phase_rel e w e1 w1 tr1 -> success_cause e1 w1 w2 tr2 ->
  success_cause e w w2 (tr1 ++ tr2).
Proof.
  intros H1 [H2|H2]; [left|right].
  - rewrite existsb_app, H2. apply orb_true_r.
  - intros Hc. apply H2. apply (pr_counted _ _ _ _ _ H1 Hc).
Qed.

Lemma flow_ok_and_then (e : RawExport) (w : World) (f : Flow)
    (k : RawExport -> World -> Flow) :
  flow_ok e w f -> (forall e1 w1, flow_ok e1 w1 (k e1 w1)) ->
  flow_ok e w (and_then f k).
Proof.
  intros Hf Hk. destruct f as [e1 w1 tr1|? ? ? ?|? ? ? ?|?]; cbn [and_then]; try exact Hf.
  cbn [flow_ok] in Hf. specialize (Hk e1 w1).
  destruct (k e1 w1) as [e2 w2 tr2|e2 w2 tr2 v|e2 w2 tr2 r|c]; cbn [emit flow_ok] in *.
  - eapply phase_rel_trans; eassumption.
  - destruct Hk as [Hk ->]. split; [eapply phase_rel_trans; eassumption | reflexivity].
  - destruct Hk as (Hk & Hr & Hs). split; [eapply phase_rel_trans; eassumption|].
    split; [exact Hr|]. intros H0. eapply success_cause_trans; eauto.
  - exact Hk.
Qed.

(** A part that changes the engine without reporting. *)
Lemma phase_rel_quiet (e : RawExport) (w : World) (e' : RawExport) (w' : World)
    (tr : list Event) :
  on_finished e' = on_finished e -> compress_type e' = compress_type e ->
  st e' = st e -> input_fd e' = input_fd e -> output_fd e' = output_fd e ->
  (tried_reflink e = true -> tried_reflink e' = true) ->
  (tried_sendfile e = true -> tried_sendfile e' = true) ->
  (eof e = true -> eof e' = true) ->
  last_percent e' = last_percent e ->
  src_size w' = src_size w -> (src_off w <= src_off w')%N ->
  (counted e w -> counted e' w') ->
  emitted tr = [] -> existsb is_finish tr = false ->
  (tried_reflink e = true -> existsb is_reflink tr = false) ->
  (tried_sendfile e = true -> existsb is_sendfile tr = false) ->
  (eof e = true -> existsb is_read tr = false) ->
  phase_rel e w e' w' tr.
Proof.
  intros. constructor; auto.
  intros ps Hps. rewrite H11, app_nil_r.
  eapply reported_mono; eauto. apply H10. apply (rp_counted _ _ _ Hps).
Qed.

(** The side conditions of [phase_rel_quiet] are mostly equalities between
    fields and bounds on offsets. *)
Ltac quiet_phase :=
  apply phase_rel_quiet; cbn; auto; try lia; try congruence.

(** A part that changes the engine and then reports. *)
Lemma phase_rel_report (e : RawExport) (w : World) (e2 : RawExport) (w1 : World)
    (ok : bool) (ev : Event) :
  phase_rel e w e2 w1 [ev] -> last_percent e2 = last_percent e ->
  match raw_export_report_progress e2 ok with
  | None => False
  | Some (e3, evs) => phase_rel e w e3 w1 (ev :: evs)
  end.
Proof.
  intros Hph Hlast.
  destruct (report_progress_cases e2 ok) as [(evs & -> & Hem & Hevs)|(p & -> & Hp & Hne & _)].
  - change (ev :: evs) with ([ev] ++ evs).
    eapply phase_rel_trans; [exact Hph|].
    apply phase_rel_quiet; auto; try lia;
      destruct Hevs as [-> | ->]; reflexivity.
  - change (ev :: ?l) with ([ev] ++ l).
    eapply phase_rel_trans; [exact Hph|].
    constructor; cbn; auto; try lia.
    + intros [Hw Ho Hr He]. constructor; assumption.
    + intros ps Hps. apply reported_emit; assumption.
Qed.

(** *** The parts *)

Lemma reflink_phase_ok (env : Env) (e : RawExport) (w : World) :
  flow_ok e w (reflink_phase env e w).
Proof.
  unfold reflink_phase.
  destruct (tried_reflink e) eqn:Ht; cbn [negb andb]; [apply phase_rel_refl|].
  destruct (is_uncompressed (compress_type e)); [|apply phase_rel_refl].
  destruct (Z.leb_spec 0 (env_reflink env)) as [Hr|Hr]; cbn [flow_ok].
  - split; [|split; [lia|]].
    + apply phase_rel_quiet; auto; try lia; congruence.
    + intros _. left. cbn. rewrite orb_false_r. apply Z.leb_le. exact Hr.
  - quiet_phase.
    intros [Hw Ho Hrg He]. constructor; assumption.
Qed.

Lemma sendfile_phase_ok (env : Env) (e : RawExport) (w : World) :
  flow_ok e w (sendfile_phase env e w).
Proof.
  unfold sendfile_phase.
  destruct (tried_sendfile e) eqn:Ht; cbn [negb andb]; [apply phase_rel_refl|].
  destruct (is_uncompressed (compress_type e)); [|apply phase_rel_refl].
  destruct (env_sendfile env) as [avail|errno].
  2:{ rewrite sys_transfer_error. cbn [Z.ltb Z.compare].
      destruct (Z.pos errno =? EAGAIN)%Z; cbn [flow_ok].
      - split; [|reflexivity]. apply phase_rel_quiet; auto; try lia; congruence.
      - quiet_phase.
        intros [Hw Ho Hrg He]. constructor; assumption. }
  destruct (sys_transfer_data w COPY_BUFFER_SIZE avail) as (l & -> & Hl1 & Hl2 & Hl0);
    [apply COPY_BUFFER_SIZE_pos|].
  pose proof COPY_BUFFER_SIZE_pos as HC.
  destruct (Z.ltb_spec (Z.of_N l) 0); [lia|].
  destruct (Z.eqb_spec (Z.of_N l) 0) as [Hz|Hnz].
  - assert (l = 0%N) by lia. subst l.
    assert (Hrem : remaining w = 0%N) by (apply Hl0; reflexivity).
    unfold remaining in Hrem.
    cbn [flow_ok]. split; [|split; [lia|]].
    + quiet_phase.
      intros [Hw Ho Hrg He]. constructor; cbn; auto; lia.
    + intros _. right. intros [Hw Ho Hrg He]. cbn. lia.
  - match goal with |- context [raw_export_report_progress ?e2 ?ok] =>
      pose proof (phase_rel_report e w e2 (advance l w) ok (EvSendfile (Z.of_N l))) as Hrep;
      destruct (raw_export_report_progress e2 ok) as [[e3 evs]|]
    end.
    + cbn [flow_ok]. split; [|reflexivity]. apply Hrep; [|reflexivity].
      quiet_phase.
      intros Hc. eapply counted_advance; eauto.
    + apply Hrep; [|reflexivity].
      quiet_phase.
      intros Hc. eapply counted_advance; eauto.
Qed.

Lemma read_loop_ok (fuel : nat) :
  forall (i : nat) (env : Env) (e : RawExport) (w : World),
  (N.to_nat (remaining w) + (if eof e then 0 else 1) < fuel)%nat ->
  flow_ok e w (read_loop fuel i env e w) /\
  match read_loop fuel i env e w with
  | Continue e' _ _ => buffer e' <> []
  | Goto_finish e' _ _ r => r = 0%Z -> eof e' = true /\ buffer e' = []
  | Return_ _ _ _ _ => False
  | Crash _ => False
  end.
Proof.
  induction fuel as [|fuel IH]; intros i env e w Hfuel; [lia|].
  cbn [read_loop].
  destruct (buffer_size e <=? 0)%N eqn:Hb; cbn [negb].
  2:{ split; [apply phase_rel_refl|]. intros Hn.
      apply buffer_size_zero in Hn. congruence. }
  apply buffer_size_zero in Hb.
  destruct (eof e) eqn:Heof.
  { split; [|auto]. split; [apply phase_rel_refl|]. split; [lia|].
    intros _. right. intros Hc. apply (counted_eof _ _ Hc Heof). }
  assert (Hstep : forall l a (e1 : RawExport) (more : list Event),
            (l <= remaining w)%N -> (l = 0%N <-> remaining w = 0%N) ->
            e1 = (if (Z.of_N l =? 0)%Z
                  then set_buffer (buffer e ++ enc_out a) (set_eof true e)
                  else set_buffer (buffer e ++ enc_out a)
                         (set_written_uncompressed
                            (add_u64 (written_uncompressed e) (Z.of_N l)) e)) ->
            forallb loop_event more = true ->
            phase_rel e w e1 (advance l w) (EvRead (Z.of_N l) :: more)).
  { intros l a e1 more Hl Hl0 -> Hmore.
    assert (Hev : emitted more = [] /\ existsb is_finish more = false /\
                  existsb is_reflink more = false /\ existsb is_sendfile more = false).
    { clear - Hmore. induction more as [|ev more IHm]; [auto|].
      cbn [forallb] in Hmore. apply andb_prop in Hmore. destruct Hmore as [H1 H2].
      specialize (IHm H2). destruct IHm as (I1 & I2 & I3 & I4).
      destruct ev; try discriminate H1; cbn; auto. }
    destruct Hev as (E1 & E2 & E3 & E4).
    destruct (Z.eqb_spec (Z.of_N l) 0) as [Hz|Hnz];
      quiet_phase.
    - assert (l = 0%N) by lia. subst l.
      intros [Hw Ho Hr He]. unfold remaining in *.
      constructor; cbn; auto; lia.
    - intros Hc. eapply counted_advance; eauto. }
  destruct (env_read env i) as [avail|errno].
  2:{ rewrite sys_transfer_error. cbn [Z.ltb Z.compare].
      pose proof (log_error_errno_neg (Z.pos errno)) as Hneg.
      split; [|lia]. split; [|split; [lia|lia]].
      apply phase_rel_quiet; cbn; auto; try lia; congruence. }
  destruct (sys_transfer_data w COPY_BUFFER_SIZE avail) as (l & -> & Hl1 & Hl2 & Hl0);
    [apply COPY_BUFFER_SIZE_pos|].
  destruct (Z.ltb_spec (Z.of_N l) 0); [lia|].
  set (a := env_compress env i).
  match goal with |- context [ let '(e1, ev) := ?pair in _ ] =>
    set (p := pair) end.
  assert (Hp : fst p = if (Z.of_N l =? 0)%Z
                  then set_buffer (buffer e ++ enc_out a) (set_eof true e)
                  else set_buffer (buffer e ++ enc_out a)
                         (set_written_uncompressed
                            (add_u64 (written_uncompressed e) (Z.of_N l)) e)).
  { subst p. destruct (Z.of_N l =? 0)%Z; reflexivity. }
  assert (Hq : loop_event (snd p) = true).
  { subst p. destruct (Z.of_N l =? 0)%Z; reflexivity. }
  assert (Hmeasure : (N.to_nat (remaining (advance l w)) +
                      (if eof (fst p) then 0 else 1) < fuel)%nat).
  { rewrite Hp. unfold remaining in *. cbn [advance src_size src_off].
    destruct (Z.eqb_spec (Z.of_N l) 0); cbn; [lia|]. rewrite Heof. lia. }
  destruct p as [e1 ev]. cbn [fst snd] in *.
  destruct (Z.ltb_spec (enc_r a) 0).
  - pose proof (log_error_errno_neg (enc_r a)) as Hneg.
    split; [|lia]. split; [|split; lia].
    apply (Hstep l a); auto. cbn. rewrite Hq. reflexivity.
  - specialize (IH (S i) env e1 (advance l w) Hmeasure).
    assert (H1 : phase_rel e w e1 (advance l w) [EvRead (Z.of_N l); ev]).
    { apply (Hstep l a); auto. cbn. rewrite Hq. reflexivity. }
    destruct (read_loop fuel (S i) env e1 (advance l w))
      as [e' w' tr|? ? ? ?|e' w' tr r|?]; cbn [emit flow_ok] in *;
      destruct IH as [IH1 IH2]; try contradiction.
    + split; [|exact IH2].
      change (?x :: ?y :: tr) with ([x; y] ++ tr).
      eapply phase_rel_trans; eassumption.
    + destruct IH1 as (I1 & I2 & I3). split; [|exact IH2].
      change (?x :: ?y :: tr) with ([x; y] ++ tr).
      split; [eapply phase_rel_trans; eassumption|]. split; [exact I2|].
      intros Hr0. eapply success_cause_trans; eauto.
Qed.

Lemma sys_write_accept (count n : N) :
  exists l, sys_write count (DstAccept n) = (Z.of_N l, 0%Z) /\ (l <= count)%N /\
            l = N.min n count.
Proof. exists (N.min n count). split; [reflexivity|]. lia. Qed.

Lemma write_phase_ok (env : Env) (e : RawExport) (w : World) :
  flow_ok e w (write_phase env e w) /\
  match write_phase env e w with Continue _ _ _ => False | _ => True end.
Proof.
  unfold write_phase.
  destruct (env_write env) as [n|errno].
  2:{ cbn [sys_write Z.ltb Z.compare].
      pose proof (log_error_errno_neg (Z.pos errno)) as Hneg.
      destruct (Z.pos errno =? EAGAIN)%Z; cbn [flow_ok]; (split; [|exact I]).
      - split; [|reflexivity]. apply phase_rel_quiet; auto; try lia.
      - split; [|split; lia]. apply phase_rel_quiet; auto; try lia. }
  destruct (sys_write_accept (buffer_size e) n) as (l & -> & Hl & _).
  destruct (Z.ltb_spec (Z.of_N l) 0); [lia|].
  pose proof (to_uint64_le l) as Hle.
  destruct (N.leb_spec (to_uint64 (Z.of_N l)) (buffer_size e)); [|lia].
  cbn [negb].
  match goal with |- context [raw_export_report_progress ?e2 ?ok] =>
    match goal with |- context [EvWrite ?d ?z :: _] =>
      pose proof (phase_rel_report e w e2 w ok (EvWrite d z)) as Hrep
    end;
    destruct (raw_export_report_progress e2 ok) as [[e3 evs]|]
  end.
  - cbn [flow_ok]. split; [|exact I]. split; [|reflexivity].
    apply Hrep; [|reflexivity].
    apply phase_rel_quiet; cbn; auto; try lia.
    intros [Hw Ho Hr He]. constructor; assumption.
  - exfalso. apply Hrep; [|reflexivity].
    apply phase_rel_quiet; cbn; auto; try lia.
    intros [Hw Ho Hr He]. constructor; assumption.
Qed.

Lemma loop_fuel_enough (e : RawExport) (w : World) :
  (N.to_nat (remaining w) + (if eof e then 0 else 1) < loop_fuel w)%nat.
Proof. unfold loop_fuel. destruct (eof e); lia. Qed.

Lemma process_body_ok (env : Env) (e : RawExport) (w : World) :
  flow_ok e w (process_body env e w).
Proof.
  unfold process_body.
  apply flow_ok_and_then; [apply reflink_phase_ok|]. intros e1 w1.
  apply flow_ok_and_then; [apply sendfile_phase_ok|]. intros e2 w2.
  apply flow_ok_and_then; [apply read_loop_ok, loop_fuel_enough|]. intros e3 w3.
  apply write_phase_ok.
Qed.

Lemma and_then_not_continue (f : Flow) (k : RawExport -> World -> Flow) :
  (forall e w, match k e w with Continue _ _ _ => False | _ => True end) ->
  match and_then f k with Continue _ _ _ => False | _ => True end.
Proof.
  intros Hk. destruct f as [e w tr| | |]; cbn [and_then]; try exact I.
  specialize (Hk e w). destruct (k e w); cbn [emit]; auto.
Qed.

Lemma process_body_not_continue (env : Env) (e : RawExport) (w : World) :
  match process_body env e w with Continue _ _ _ => False | _ => True end.
Proof.
  unfold process_body.
  apply and_then_not_continue. intros e1 w1.
  apply and_then_not_continue. intros e2 w2.
  apply and_then_not_continue. intros e3 w3.
  apply write_phase_ok.
Qed.

Lemma finish_count_app (tr1 tr2 : list Event) :
  finish_count (tr1 ++ tr2) = (finish_count tr1 + finish_count tr2)%nat.
Proof. unfold finish_count. rewrite filter_app, length_app. reflexivity. Qed.

Lemma finish_count_none (tr : list Event) :
  existsb is_finish tr = false -> finish_count tr = 0%nat.
Proof.
  unfold finish_count. induction tr as [|ev tr IH]; [reflexivity|].
  cbn [existsb filter]. intros H. apply orb_false_elim in H. destruct H as [H1 H2].
  rewrite H1. auto.
Qed.

Lemma finish_count_finish (e : RawExport) (r : Z) : finish_count (finish e r) = 1%nat.
Proof. unfold finish. destruct (0 <=? r)%Z, (on_finished e); reflexivity. Qed.

Lemma emitted_finish (e : RawExport) (r : Z) : emitted (finish e r) = [].
Proof. unfold finish. destruct (0 <=? r)%Z, (on_finished e); reflexivity. Qed.

Lemma process_spec (env : Env) (e : RawExport) (w : World) :
  exists e' w' tr fin,
    raw_export_process env e w = inl (mkResult e' w' (tr ++ fin) 0) /\
    phase_rel e w e' w' tr /\
    ((fin = [] /\ exists v, process_body env e w = Return_ e' w' tr v) \/
     (exists r, fin = finish e' r /\ (r <= 0)%Z /\
                process_body env e w = Goto_finish e' w' tr r /\
                (r = 0%Z -> success_cause e w w' tr))).
Proof.
  unfold raw_export_process.
  pose proof (process_body_ok env e w) as Hok.
  pose proof (process_body_not_continue env e w) as Hnc.
  destruct (process_body env e w) as [? ? ?|e' w' tr v|e' w' tr r|c];
    cbn [flow_ok] in Hok; try contradiction.
  - destruct Hok as [Hok ->]. exists e', w', tr, [].
    rewrite app_nil_r. split; [reflexivity|]. split; [exact Hok|].
    left. eauto.
  - destruct Hok as (Hok & Hr & Hs). exists e', w', tr, (finish e' r).
    split; [reflexivity|]. split; [exact Hok|].
    right. exists r. auto.
Qed.

Lemma in_finish (e : RawExport) (r : Z) : In (finish_event e r) (finish e r).
Proof. unfold finish, finish_event. apply in_or_app. right. left. reflexivity. Qed.

Lemma finished_with_finish (e : RawExport) (r c : Z) :
  finished_with c (finish e r) -> c = r.
Proof.
  unfold finished_with, finish.
  destruct (0 <=? r)%Z, (on_finished e); cbn; intros H;
    repeat match goal with
           | H : _ \/ _ |- _ => destruct H
           | H : False |- _ => contradiction
           | H : _ = _ |- _ => first [discriminate H | inversion H; reflexivity]
           end.
Qed.

Lemma not_finished_body (tr : list Event) (c : Z) :
  existsb is_finish tr = false -> ~ finished_with c tr.
Proof.
  intros Hn [H|H];
    (assert (Hx : existsb is_finish tr = true)
       by (apply existsb_exists; eexists; split; [exact H | reflexivity]));
    congruence.
Qed.

Lemma finished_with_app (tr1 tr2 : list Event) (c : Z) :
  finished_with c (tr1 ++ tr2) -> finished_with c tr1 \/ finished_with c tr2.
Proof.
  unfold finished_with. intros [H|H]; apply in_app_or in H; tauto.
Qed.


(** C10. Every call of the transfer step returns 0 to the event loop,
    whatever happened; a result code is only handed out by the finish
    action, and is never positive. *)
Theorem process_returns_zero (env : Env) (e : RawExport) (w : World) :
  exists r,
    raw_export_process env e w = inl r /\
    raw_export_on_output env e w = inl r /\
    raw_export_on_defer env e w = inl r /\
    res_value r = 0%Z /\
    match process_body env e w with
    | Goto_finish e' _ _ code =>
        (code <= 0)%Z /\ In (finish_event e' code) (res_trace r) /\
        finish_count (res_trace r) = 1%nat
    | _ => finish_count (res_trace r) = 0%nat
    end.
Proof.
  unfold raw_export_on_output, raw_export_on_defer.
  destruct (process_spec env e w) as (e' & w' & tr & fin & Hp & Hrel & Hfin).
  eexists. split; [exact Hp|]. split; [exact Hp|]. split; [exact Hp|].
  split; [reflexivity|]. cbn [res_trace].
  pose proof (finish_count_none tr (pr_no_finish _ _ _ _ _ Hrel)) as Hz.
  destruct Hfin as [(-> & v & ->)|(r & -> & Hr & -> & _)].
  - rewrite app_nil_r. exact Hz.
  - split; [exact Hr|]. split.
    + apply in_or_app. right. apply in_finish.
    + rewrite finish_count_app, Hz, finish_count_finish. reflexivity.
Qed.

(** C9. The progress reporter never divides by zero: when the division of
    line 136 is executed, [written_uncompressed] is below the divisor, so the
    divisor is at least 1 and the quotient is defined; the reporter always
    yields a percentage; and for a source of 0 bytes no division is executed
    and the percentage is 100. *)
Theorem report_progress_never_divides_by_zero (e : RawExport) :
  (forall a b, progress_division e = Some (a, b) ->
     (written_uncompressed e < b)%N /\ (1 <= b)%N /\ div_u64 a b = Some (a / b)%N) /\
  (exists p, progress_percent e = Some p) /\
  (forall ok, exists e' evs, raw_export_report_progress e ok = Some (e', evs)) /\
  (st_size (st e) = 0%Z ->
     progress_division e = None /\ progress_percent e = Some 100%N).
Proof.
  split; [|split; [|split]].
  - intros a b H. apply progress_division_divisor in H. destruct H as (_ & H1 & H2).
    split; [exact H1|]. split; [exact H2|].
    unfold div_u64. destruct (N.eqb_spec b 0); [lia|reflexivity].
  - apply progress_percent_total.
  - intros ok. apply report_progress_total.
  - intros H. unfold progress_percent, progress_division. rewrite H.
    change (to_uint64 0) with 0%N. cbn [N.leb]. 
    destruct (written_uncompressed e); split; reflexivity.
Qed.

Lemma started_counted (e : RawExport) (w : World) : started e w -> counted e w.
Proof.
  intros [Hw He Ho Hs Hr]. constructor.
  - congruence.
  - lia.
  - eapply N.lt_trans; [exact Hr | reflexivity].
  - congruence.
Qed.

(** One call, seen from the sequence: the result, and what relates it to
    the engine before the call. *)
Lemma run_cons (env : Env) (envs : list Env) (e : RawExport) (w : World) :
  exists r tr fin,
    raw_export_process env e w = inl r /\
    run (env :: envs) e w = r :: run envs (res_engine r) (res_world r) /\
    res_trace r = tr ++ fin /\ res_value r = 0%Z /\
    phase_rel e w (res_engine r) (res_world r) tr /\
    ((fin = [] /\ terminal env e w = false) \/
     (exists c, fin = finish (res_engine r) c /\ (c <= 0)%Z /\ terminal env e w = true /\
                (c = 0%Z -> success_cause e w (res_world r) tr))).
Proof.
  destruct (process_spec env e w) as (e' & w' & tr & fin & Hp & Hrel & Hfin).
  exists (mkResult e' w' (tr ++ fin) 0), tr, fin.
  split; [exact Hp|]. split; [cbn [run]; rewrite Hp; reflexivity|].
  split; [reflexivity|]. split; [reflexivity|]. split; [exact Hrel|].
  unfold terminal.
  destruct Hfin as [(-> & v & ->)|(c & -> & Hc & -> & Hs)]; [left; auto|].
  right. exists c. auto.
Qed.

(** C1 (as amended). For an export in the state a start leaves
    ([written_uncompressed] 0, [eof] clear, [input_fd] at offset 0) on a
    source whose length is the size [fstat] stored, is below 2^63 and does
    not change during the export: whenever a call ends with result 0, either
    the reflink went through in that call (nothing was counted then) or
    [written_uncompressed] equals the size [fstat] stored at start. *)
Theorem success_counts_whole_source (envs : list Env) (e : RawExport) (w : World) :
  started e w ->
  Forall (fun r =>
            finished_with 0 (res_trace r) ->
            existsb is_reflink_ok (res_trace r) = true \/
            written_uncompressed (res_engine r)
              = to_uint64 (st_size (st (res_engine r))))
         (run envs e w).
Proof.
  intros Hs. pose proof (started_counted e w Hs) as Hc.
  pose proof (started_size e w Hs) as Hsz. clear Hs.
  revert e w Hc Hsz.
  induction envs as [|env envs IH]; intros e w Hc Hsz; [constructor|].
  destruct (run_cons env envs e w)
    as (r & tr & fin & _ & -> & Htr & _ & Hrel & Hfin).
  pose proof (pr_counted _ _ _ _ _ Hrel Hc) as Hc'.
  assert (Hsz' : to_uint64 (st_size (st (res_engine r))) = src_size (res_world r)).
  { rewrite (pr_st _ _ _ _ _ Hrel), (pr_size _ _ _ _ _ Hrel). exact Hsz. }
  constructor; [|apply IH; assumption].
  rewrite Htr. intros Hf.
  apply finished_with_app in Hf. destruct Hf as [Hf|Hf].
  { exfalso. revert Hf. apply not_finished_body. apply (pr_no_finish _ _ _ _ _ Hrel). }
  destruct Hfin as [(-> & _)|(c & -> & _ & _ & Hcause)].
  { destruct Hf as [[]|[]]. }
  apply finished_with_finish in Hf. subst c.
  destruct (Hcause eq_refl) as [Hok|Hend].
  - left. rewrite existsb_app, Hok. reflexivity.
  - right. rewrite Hsz', (counted_written _ _ Hc'). apply Hend. exact Hc.
Qed.


(** *** The latches *)

Section Latch.

Variable latch : RawExport -> bool.
Hypothesis latch_kept :
  forall e w e' w' tr, phase_rel e w e' w' tr -> latch e = true -> latch e' = true.


End Latch.




(** *** The generic buffered path *)

Lemma fast_paths_skipped (env : Env) (e : RawExport) (w : World)
    (k : RawExport -> World -> Flow) :
  generic_path e ->
  and_then (reflink_phase env e w) (fun e1 w1 =>
    and_then (sendfile_phase env e1 w1) k) = emit [] (emit [] (k e w)).
Proof.
  intros [Hu|[Hr Hs]]; unfold reflink_phase, sendfile_phase.
  - rewrite Hu, andb_false_r. cbn [and_then]. rewrite Hu, andb_false_r. reflexivity.
  - rewrite Hr. cbn [negb andb and_then]. rewrite Hs. reflexivity.
Qed.

Lemma emit_nil (f : Flow) : emit [] f = f.
Proof. destruct f; reflexivity. Qed.

(** The loop touches the buffer, [eof] and the uncompressed counter only. *)
Lemma read_loop_frame (fuel : nat) :
  forall i env e w e1 w1 tr1,
    read_loop fuel i env e w = Continue e1 w1 tr1 ->
    written_compressed e1 = written_compressed e.
Proof.
  induction fuel as [|fuel IH]; intros i env e w e1 w1 tr1; [discriminate|].
  cbn [read_loop].
  destruct (negb (buffer_size e <=? 0)%N); [intros H; inversion H; reflexivity|].
  destruct (eof e); [discriminate|].
  destruct (sys_transfer w COPY_BUFFER_SIZE (env_read env i)) as [[l errno] w2].
  destruct (l <? 0)%Z; [discriminate|].
  destruct (l =? 0)%Z;
    (destruct (enc_r (env_compress env i) <? 0)%Z; [discriminate|];
     destruct (read_loop fuel (S i) env _ w2) as [e' w' tr'| | |] eqn:Hl;
       cbn [emit]; try discriminate;
     intros H; inversion H; subst;
     apply IH in Hl; rewrite Hl; reflexivity).
Qed.

(** With nothing pending and the input exhausted, the call finishes with
    success. *)
Lemma process_after_drain (env : Env) (e : RawExport) (w : World) :
  generic_path e -> buffer e = [] -> eof e = true ->
  raw_export_process env e w = inl (mkResult e w (finish e 0) 0).
Proof.
  intros Hg Hb He. unfold raw_export_process, process_body.
  rewrite fast_paths_skipped by exact Hg. rewrite !emit_nil.
  unfold loop_fuel. rewrite Nat.add_comm. cbn [Nat.add read_loop].
  unfold buffer_size. rewrite Hb, He. reflexivity.
Qed.

Lemma write_phase_accept (env : Env) (e : RawExport) (w : World) (n : N) :
  env_write env = DstAccept n -> (buffer_size e < 2 ^ 63)%N ->
  exists e' evs,
    write_phase env e w =
      Return_ e' w (EvWrite (firstn (N.to_nat (N.min n (buffer_size e))) (buffer e))
                      (Z.of_N (N.min n (buffer_size e))) :: evs) 0 /\
    written_compressed e' = wrap64 (written_compressed e + N.min n (buffer_size e)) /\
    buffer e' = skipn (N.to_nat (N.min n (buffer_size e))) (buffer e) /\
    eof e' = eof e /\ existsb is_finish evs = false.
Proof.
  intros Hw Hb. unfold write_phase. rewrite Hw. cbn [sys_write].
  set (M := N.min n (buffer_size e)).
  assert (HM : (M < 2 ^ 64)%N).
  { assert (M <= buffer_size e)%N by (subst M; lia).
    assert (2 ^ 63 < 2 ^ 64)%N by reflexivity. lia. }
  destruct (Z.ltb_spec (Z.of_N M) 0); [lia|].
  rewrite to_uint64_of_N by exact HM.
  destruct (N.leb_spec M (buffer_size e)); [|subst M; lia].
  cbn [negb].
  match goal with |- context [raw_export_report_progress ?e2 ?ok] =>
    destruct (report_progress_cases e2 ok) as [(evs & -> & _ & Hevs)|(p & -> & _)]
  end.
  - eexists. exists evs. split; [reflexivity|]. cbn.
    rewrite add_u64_of_N by exact HM.
    repeat split; try reflexivity.
    destruct Hevs as [-> | ->]; reflexivity.
  - eexists. eexists. split; [reflexivity|]. cbn.
    rewrite add_u64_of_N by exact HM.
    repeat split; reflexivity.
Qed.

(** C4 (as amended). On the generic buffered path, when the loop leaves
    bytes pending and [write] takes M of them, the call adds exactly M to
    [written_compressed], drops exactly the first M bytes of the buffer and
    keeps the rest in order, and returns 0 without the finish action, also
    when this leaves the buffer empty with the input exhausted; it is the
    next call that then finishes with success. *)
Theorem write_compacts_then_next_call_finishes
    (env : Env) (e : RawExport) (w : World)
    (e1 : RawExport) (w1 : World) (tr1 : list Event) (n : N) :
  generic_path e ->
  read_loop (loop_fuel w) 0 env e w = Continue e1 w1 tr1 ->
  env_write env = DstAccept n ->
  (buffer_size e1 < 2 ^ 63)%N ->
  exists r evs,
    raw_export_process env e w = inl r /\
    res_trace r =
      tr1 ++ EvWrite (firstn (N.to_nat (N.min n (buffer_size e1))) (buffer e1))
               (Z.of_N (N.min n (buffer_size e1))) :: evs /\
    written_compressed (res_engine r)
      = wrap64 (written_compressed e + N.min n (buffer_size e1)) /\
    buffer (res_engine r) = skipn (N.to_nat (N.min n (buffer_size e1))) (buffer e1) /\
    firstn (N.to_nat (N.min n (buffer_size e1))) (buffer e1) ++ buffer (res_engine r)
      = buffer e1 /\
    res_value r = 0%Z /\
    finish_count (res_trace r) = 0%nat /\
    (buffer (res_engine r) = [] -> eof (res_engine r) = true ->
     forall env2,
       raw_export_process env2 (res_engine r) (res_world r)
         = inl (mkResult (res_engine r) (res_world r) (finish (res_engine r) 0) 0)).
Proof.
  intros Hg Hloop Hw Hb.
  destruct (write_phase_accept env e1 w1 n Hw Hb) as (e' & evs & Hwp & Hwc & Hbuf & Heof & Hnf).
  pose proof (process_spec env e w) as Hspec.
  assert (Hbody : process_body env e w =
            Return_ e' w1
              (tr1 ++ EvWrite (firstn (N.to_nat (N.min n (buffer_size e1))) (buffer e1))
                        (Z.of_N (N.min n (buffer_size e1))) :: evs) 0).
  { unfold process_body. rewrite fast_paths_skipped by exact Hg.
    rewrite !emit_nil, Hloop. cbn [and_then]. rewrite Hwp. reflexivity. }
  destruct Hspec as (e'' & w'' & tr & fin & Hp & Hrel & Hfin).
  rewrite Hbody in Hfin.
  destruct Hfin as [(-> & v & Hv)|(c & _ & _ & Hv & _)]; [|discriminate].
  inversion Hv; subst e'' w'' tr v. rewrite app_nil_r in Hp.
  eexists. exists evs. split; [exact Hp|]. cbn [res_trace res_engine res_world res_value].
  split; [reflexivity|].
  split; [rewrite Hwc, (read_loop_frame _ _ _ _ _ _ _ _ Hloop); reflexivity|].
  split; [exact Hbuf|].
  split; [rewrite Hbuf; apply firstn_skipn|].
  split; [reflexivity|].
  split; [apply finish_count_none, (pr_no_finish _ _ _ _ _ Hrel)|].
  intros Hempty He env2. apply process_after_drain; auto.
  destruct Hg as [Hu|[Hr Hs]]; [left|right].
  - rewrite (pr_compress _ _ _ _ _ Hrel). exact Hu.
  - split; [apply (pr_tried_reflink _ _ _ _ _ Hrel Hr)
            | apply (pr_tried_sendfile _ _ _ _ _ Hrel Hs)].
Qed.

(** *** Percentages along a sequence of calls *)

Lemma reported_run (envs : list Env) :
  forall e w ps, reported e w ps ->
    StronglySorted N.lt (ps ++ emitted (trace_of (run envs e w))) /\
    Forall (fun p => (p <= 100)%N) (ps ++ emitted (trace_of (run envs e w))).
Proof.
  induction envs as [|env envs IH]; intros e w ps Hps.
  - cbn. rewrite app_nil_r. split; [apply (rp_sorted _ _ _ Hps)|].
    eapply Forall_impl; [|apply (rp_bound _ _ _ Hps)].
    intros p Hp. cbn beta in Hp. etransitivity; [exact Hp|].
    unfold spec_percent.
    destruct (N.leb_spec (src_size w) (written_uncompressed e)); [lia|].
    apply N.lt_le_incl, N.Div0.div_lt_upper_bound. lia.
  - destruct (run_cons env envs e w) as (r & tr & fin & _ & -> & Htr & _ & Hrel & Hfin).
    unfold trace_of. cbn [flat_map]. fold (trace_of (run envs (res_engine r) (res_world r))).
    rewrite emitted_app, app_assoc. apply IH.
    rewrite Htr, emitted_app.
    assert (Hf : emitted fin = []).
    { destruct Hfin as [(-> & _)|(c & -> & _)]; [reflexivity | apply emitted_finish]. }
    rewrite Hf, app_nil_r. apply (pr_reported _ _ _ _ _ Hrel). exact Hps.
Qed.

(** Below the overflow of [written_uncompressed * 100] the percentages sent
    during one export increase strictly and stay within 100. *)
Lemma emitted_increasing_small_source (envs : list Env) (e : RawExport) (w : World) :
  started e w -> last_percent e = UINT_MAX -> (src_size w * 100 < 2 ^ 64)%N ->
  StronglySorted N.lt (emitted (trace_of (run envs e w))) /\
  Forall (fun p => (p <= 100)%N) (emitted (trace_of (run envs e w))).
Proof.
  intros Hs Hl Hsmall.
  apply (reported_run envs e w []).
  constructor; auto.
  - apply started_counted; exact Hs.
  - apply (started_size _ _ Hs).
  - constructor.
Qed.


(** *** Starting *)

Lemma start_busy (env : StartEnv) (e : RawExport) (p : string) (fd : Z)
    (c : ImportCompressType) :
  (0 <= fd)%Z -> c <> IMPORT_COMPRESS_UNKNOWN -> (0 <= output_fd e)%Z ->
  raw_export_start env e p fd c = inl (mkStartResult (- EBUSY) e []).
Proof.
  intros Hfd Hc Ho. unfold raw_export_start.
  destruct (Z.leb_spec 0 fd); [|lia]. cbn [negb].
  destruct c; try congruence;
    (destruct (Z.leb_spec 0 (output_fd e)); [reflexivity | lia]).
Qed.

(** A start on an engine that is not active gets past the busy check: the
    first thing it does is [fd_nonblock]. *)
Lemma start_not_busy (env : StartEnv) (e : RawExport) (p : string) (fd : Z)
    (c : ImportCompressType) :
  (0 <= fd)%Z -> c <> IMPORT_COMPRESS_UNKNOWN -> (output_fd e < 0)%Z ->
  exists r rest, raw_export_start env e p fd c = inl r /\
                 sr_trace r = EvFdNonblock (se_fd_nonblock env) :: rest.
Proof.
  intros Hfd Hc Ho. unfold raw_export_start, reflink_snapshot.
  destruct (Z.leb_spec 0 fd); [|lia]. cbn [negb].
  assert (Hc' : match c with IMPORT_COMPRESS_UNKNOWN => true | _ => false end = false)
    by (destruct c; congruence).
  rewrite Hc'.
  destruct (Z.leb_spec 0 (output_fd e)); [lia|].
  destruct (se_open env) as [sfd errno], (se_fstat env) as [[rs errno'] stbuf],
    (se_open_named env) as [nfd errno''].
  repeat match goal with
         | |- context [if ?b then _ else _] => destruct b
         end;
    eexists; eexists; (split; [reflexivity|]); cbn [sr_trace app]; reflexivity.
Qed.

(** [raw_export_start] leaves the counters, the buffer, the flags and the
    last percentage as they are, and stores what [fstat] answered. *)
Lemma start_frame (env : StartEnv) (e : RawExport) (p : string) (fd : Z)
    (c : ImportCompressType) (r : StartResult) :
  raw_export_start env e p fd c = inl r ->
  written_uncompressed (sr_engine r) = written_uncompressed e /\
  written_compressed (sr_engine r) = written_compressed e /\
  buffer (sr_engine r) = buffer e /\
  last_percent (sr_engine r) = last_percent e /\
  eof (sr_engine r) = eof e /\
  tried_reflink (sr_engine r) = tried_reflink e /\
  tried_sendfile (sr_engine r) = tried_sendfile e /\
  ((output_fd e < 0)%Z -> (0 <= output_fd (sr_engine r))%Z ->
   st (sr_engine r) = snd (se_fstat env) /\ output_fd (sr_engine r) = fd).
Proof.
  unfold raw_export_start, reflink_snapshot.
  destruct (se_open env) as [sfd errno], (se_fstat env) as [[rs errno'] stbuf],
    (se_open_named env) as [nfd errno''].
  repeat match goal with
         | |- context [if ?b then _ else _] => destruct b eqn:?
         end;
    intros H; inversion H; subst; cbn;
    repeat split; try reflexivity; intros; lia.
Qed.

(** A new engine has counted and reported nothing, and its limiter lets one
    report through per 100 ms. *)
Lemma fresh_fields :
  written_uncompressed fresh = 0%N /\ written_compressed fresh = 0%N /\
  buffer fresh = [] /\ eof fresh = false /\
  tried_reflink fresh = false /\ tried_sendfile fresh = false /\
  last_percent fresh = UINT_MAX /\
  input_fd fresh = (-1)%Z /\ output_fd fresh = (-1)%Z /\
  interval (progress_rate_limit fresh) = 100000%N /\
  burst (progress_rate_limit fresh) = 1%N.
Proof. repeat split; reflexivity. Qed.

(** A start of a new engine that leaves it active, on a source of the size
    [fstat] answered, leaves the export [started]. *)
Lemma start_gives_started (env : StartEnv) (p : string) (fd : Z)
    (c : ImportCompressType) (r : StartResult) (w : World) :
  raw_export_start env fresh p fd c = inl r ->
  (0 <= output_fd (sr_engine r))%Z ->
  src_off w = 0%N -> src_size w = to_uint64 (st_size (snd (se_fstat env))) ->
  (src_size w < 2 ^ 63)%N ->
  started (sr_engine r) w /\ last_percent (sr_engine r) = UINT_MAX.
Proof.
  intros Hs Hv Ho Hz Hr.
  destruct (start_frame _ _ _ _ _ _ Hs) as (H1 & _ & _ & H4 & H5 & _ & _ & H8).
  destruct H8 as [Hst _]; [reflexivity | exact Hv|].
  split.
  - constructor.
    + rewrite H1. reflexivity.
    + rewrite H5. reflexivity.
    + exact Ho.
    + rewrite Hst. symmetry. exact Hz.
    + exact Hr.
  - rewrite H4. reflexivity.
Qed.

(** C8 (as amended). On an idle engine and with valid arguments, when
    [fd_nonblock], the copy of the path, the open of the source and [fstat]
    succeed and the file is not a regular one, [raw_export_start] returns
    -ENOTTY, closes the descriptor it opened and assigns neither [output_fd]
    nor [input_fd]; the engine is not active afterwards, so a later start is
    not rejected as busy but proceeds to [fd_nonblock]. *)
Theorem start_rejects_non_regular (env : StartEnv) (e : RawExport) (p : string)
    (fd : Z) (c : ImportCompressType) :
  (0 <= fd)%Z -> c <> IMPORT_COMPRESS_UNKNOWN -> (output_fd e < 0)%Z ->
  (0 <= se_fd_nonblock env)%Z -> (0 <= se_strdup env)%Z ->
  (0 <= fst (se_open env))%Z -> (0 <= fst (fst (se_fstat env)))%Z ->
  S_ISREG (st_mode (snd (se_fstat env))) = false ->
  exists r,
    raw_export_start env e p fd c = inl r /\
    sr_value r = (- ENOTTY)%Z /\
    output_fd (sr_engine r) = output_fd e /\
    input_fd (sr_engine r) = input_fd e /\
    store_count (sr_trace r) = 0%nat /\
    In (EvClose (fst (se_open env))) (sr_trace r) /\
    forall env2 p2 fd2 c2,
      (0 <= fd2)%Z -> c2 <> IMPORT_COMPRESS_UNKNOWN ->
      exists r2 rest,
        raw_export_start env2 (sr_engine r) p2 fd2 c2 = inl r2 /\
        sr_trace r2 = EvFdNonblock (se_fd_nonblock env2) :: rest.
Proof.
  intros Hfd Hc Ho Hnb Hsd Hop Hfs Hreg.
  unfold raw_export_start.
  destruct (Z.leb_spec 0 fd); [|lia]. cbn [negb].
  assert (Hc' : match c with IMPORT_COMPRESS_UNKNOWN => true | _ => false end = false)
    by (destruct c; congruence).
  rewrite Hc'.
  destruct (Z.leb_spec 0 (output_fd e)); [lia|].
  destruct (Z.ltb_spec (se_fd_nonblock env) 0); [lia|].
  destruct (Z.ltb_spec (se_strdup env) 0); [lia|].
  destruct (se_open env) as [sfd errno]. cbn [fst] in Hop.
  destruct (Z.ltb_spec sfd 0); [lia|].
  destruct (se_fstat env) as [[rs errno'] stbuf]. cbn [fst snd] in Hfs, Hreg.
  destruct (Z.ltb_spec rs 0); [lia|].
  cbn [st set_st]. rewrite Hreg. cbn [negb].
  eexists. split; [reflexivity|]. cbn [sr_value sr_engine sr_trace].
  split; [reflexivity|]. split; [reflexivity|]. split; [reflexivity|].
  unfold cleanup_close. destruct (Z.leb_spec 0 sfd); [|lia]. 
  split; [reflexivity|]. split.
  - cbn. auto 10.
  - intros env2 p2 fd2 c2 Hfd2 Hc2. apply start_not_busy; auto.
Qed.

(** *** Sequences of calls, piecewise *)

Lemma run_app (l1 l2 : list Env) :
  forall e w,
    run (l1 ++ l2) e w =
    run l1 e w ++ run l2 (fst (run_end l1 e w)) (snd (run_end l1 e w)).
Proof.
  induction l1 as [|env l1 IH]; intros e w; [reflexivity|].
  cbn [app run run_end].
  destruct (process_spec env e w) as (e' & w' & tr & fin & -> & _).
  cbn [res_engine res_world app]. rewrite IH. reflexivity.
Qed.

Lemma trace_of_app (rs1 rs2 : list Result) :
  trace_of (rs1 ++ rs2) = trace_of rs1 ++ trace_of rs2.
Proof. unfold trace_of. apply flat_map_app. Qed.

(** *** The way to the overflow *)

Lemma sent_fields (n : N) :
  sent n =
  mkRawExport true (Some image_path) 6 3 IMPORT_COMPRESS_UNCOMPRESSED true []
    n n UINT_MAX (mkRateLimit 100000 1 0 0) (mkStat mode_file (Z.of_N huge))
    false true false.
Proof. vm_compute. reflexivity. Qed.

(** One full chunk through [sendfile] with a silent rate limiter. *)
Lemma silent_chunk (n : N) :
  (n + 16384 < overflow_at)%N ->
  raw_export_process (env_sendfile_works 16384 false) (sent n) (at_offset n) =
  inl (mkResult (sent (n + 16384)) (at_offset (n + 16384))
         [EvSendfile 16384; EvRatelimitTest false] 0).
Proof.
  intros Hn. unfold overflow_at in Hn.
  rewrite !sent_fields.
  unfold raw_export_process, process_body, reflink_phase, sendfile_phase.
  cbn [tried_reflink tried_sendfile compress_type is_uncompressed negb andb and_then].
  unfold env_sendfile_works at 1. cbn [env_sendfile].
  assert (Ht : sys_transfer (at_offset n) COPY_BUFFER_SIZE (SrcData 16384)
               = (16384%Z, 0%Z, at_offset (n + 16384))).
  { unfold sys_transfer, remaining, advance, at_offset, COPY_BUFFER_SIZE, huge.
    cbn [src_size src_off src_data].
    replace (N.min (N.min 16384 (16 * 1024)) (2 ^ 62 - n))%N with 16384%N by lia.
    reflexivity. }
  rewrite Ht. cbv iota beta.
  change (16384 <? 0)%Z with false. change (16384 =? 0)%Z with false. cbv iota.
  unfold set_written_uncompressed, set_written_compressed.
  cbn [written_uncompressed written_compressed on_finished path input_fd
       output_fd compress_type output_event_source buffer last_percent
       progress_rate_limit st eof tried_reflink tried_sendfile].
  assert (Ha : add_u64 n 16384 = (n + 16384)%N).
  { change 16384%Z with (Z.of_N 16384). rewrite add_u64_of_N by reflexivity.
    apply wrap64_small. lia. }
  rewrite Ha.
  match goal with |- context [raw_export_report_progress ?e2 ?ok] =>
    destruct (report_progress_cases e2 ok)
      as [(evs & Hr & _ & Hevs)|(p & _ & _ & _ & Hok)]; [|cbn in Hok; discriminate Hok];
    rewrite Hr
  end.
  destruct Hevs as [-> | ->]; [|reflexivity].
  exfalso. revert Hr. unfold raw_export_report_progress.
  match goal with |- context [progress_percent ?e2] =>
    destruct (progress_percent e2) as [p|] eqn:Hp; [|discriminate] end.
  apply progress_percent_le_100 in Hp.
  cbn [last_percent].
  destruct (N.eqb_spec p UINT_MAX) as [Heq|Hne].
  - unfold UINT_MAX in Heq. cbn in Heq. lia.
  - cbn [negb]. unfold env_sendfile_works. cbn [env_ratelimit negb]. intros Hx; discriminate Hx.
Qed.

Lemma silent_chunks (k : nat) :
  forall n, (n + 16384 * N.of_nat k < overflow_at)%N ->
    run_end (repeat (env_sendfile_works 16384 false) k) (sent n) (at_offset n)
      = (sent (n + 16384 * N.of_nat k), at_offset (n + 16384 * N.of_nat k)) /\
    emitted (trace_of (run (repeat (env_sendfile_works 16384 false) k)
                         (sent n) (at_offset n))) = [].
Proof.
  induction k as [|k IH]; intros n Hn.
  - cbn [repeat run_end run trace_of flat_map emitted].
    replace (n + 16384 * N.of_nat 0)%N with n by lia. split; reflexivity.
  - cbn [repeat run_end run].
    rewrite silent_chunk by lia. cbn [res_engine res_world].
    destruct (IH (n + 16384)%N) as [IH1 IH2]; [lia|].
    rewrite IH1.
    replace (n + 16384 + 16384 * N.of_nat k)%N with (n + 16384 * N.of_nat (S k))%N by lia.
    split; [reflexivity|].
    unfold trace_of in *. cbn [flat_map res_trace]. rewrite emitted_app, IH2.
    reflexivity.
Qed.

(** The first call of the export: the reflink is refused, the first chunk
    goes through [sendfile]. *)
Lemma first_chunk :
  raw_export_process (env_sendfile_works 16384 false)
    (started_engine (Z.of_N huge) IMPORT_COMPRESS_UNCOMPRESSED) (zeros huge) =
  inl (mkResult (sent 16384) (at_offset 16384)
         [EvReflink (-95); EvSendfile 16384; EvRatelimitTest false] 0).
Proof. vm_compute. reflexivity. Qed.

Lemma way_to_overflow (k : nat) :
  (16384 * N.of_nat (S k) + 3932 + 1 = overflow_at)%N ->
  emitted (trace_of
    (run (repeat (env_sendfile_works 16384 false) (S k)
          ++ [env_sendfile_works 3932 true; env_sendfile_works 1 true])
       (started_engine (Z.of_N huge) IMPORT_COMPRESS_UNCOMPRESSED) (zeros huge)))
  = [3%N; 0%N].
Proof.
  intros Hk.
  rewrite run_app, trace_of_app, emitted_app.
  cbn [repeat run run_end]. rewrite first_chunk. cbn [res_engine res_world].
  destruct (silent_chunks k 16384) as [H1 H2]; [lia|].
  rewrite H1. cbn [fst snd].
  unfold trace_of at 1. cbn [flat_map res_trace]. rewrite emitted_app.
  fold (trace_of (run (repeat (env_sendfile_works 16384 false) k)
                    (sent 16384) (at_offset 16384))).
  rewrite H2.
  replace (16384 + 16384 * N.of_nat k)%N with 184467440737091584%N
    by (unfold overflow_at in Hk; lia).
  vm_compute. reflexivity.
Qed.

(** C6. An uncompressed export of a sparse source of 2^62 bytes, started
    afresh: once [written_uncompressed * 100] no longer fits 64 bits the
    percentage falls back, and 0 is sent after 3. *)
Theorem percentages_decrease_after_overflow :
  started (started_engine (Z.of_N huge) IMPORT_COMPRESS_UNCOMPRESSED) (zeros huge) /\
  last_percent (started_engine (Z.of_N huge) IMPORT_COMPRESS_UNCOMPRESSED) = UINT_MAX /\
  emitted (trace_of
    (run envs_to_overflow
       (started_engine (Z.of_N huge) IMPORT_COMPRESS_UNCOMPRESSED) (zeros huge)))
  = [3%N; 0%N].
Proof.
  split; [|split].
  - constructor; vm_compute; reflexivity.
  - vm_compute. reflexivity.
  - unfold envs_to_overflow.
    assert (Hk : N.to_nat full_chunks = S (N.to_nat (N.pred full_chunks))).
    { rewrite <- N2Nat.inj_succ. f_equal. }
    rewrite Hk. apply way_to_overflow.
    rewrite <- N2Nat.inj_succ, N2Nat.id. reflexivity.
Qed.

(** Below the overflow the reporter does what the specification says. *)
Lemma report_progress_below_overflow (e : RawExport) (ok : bool) :
  (written_uncompressed e * 100 < 2 ^ 64)%N ->
  raw_export_report_progress e ok =
    let p := spec_percent (written_uncompressed e) (to_uint64 (st_size (st e))) in
    if (p =? last_percent e)%N then Some (e, [])
    else if negb ok then Some (e, [EvRatelimitTest false])
    else Some (set_last_percent p e,
               [EvRatelimitTest true; EvNotify p; EvLogInfo p]).
Proof.
  intros H. unfold raw_export_report_progress.
  rewrite (progress_percent_exact e H). reflexivity.
Qed.

(** C5. At 184467440737095517 bytes of a source of 2^62 bytes the product
    [written_uncompressed * 100] wraps around: the reporter computes and
    sends 0 where floor(written * 100 / size) is 4. *)
Theorem report_progress_wraps_at_overflow :
  (written_uncompressed overflown < to_uint64 (st_size (st overflown)))%N /\
  spec_percent (written_uncompressed overflown)
               (to_uint64 (st_size (st overflown))) = 4%N /\
  progress_percent overflown = Some 0%N /\
  raw_export_report_progress overflown true =
    Some (set_last_percent 0 overflown,
          [EvRatelimitTest true; EvNotify 0; EvLogInfo 0]).
Proof. repeat split; vm_compute; reflexivity. Qed.

(** C7. A start that fails at [import_compress_init] has already stored a
    descriptor in [input_fd] and leaves the engine inactive; the retried
    start stores another one, and the first is never closed. *)
Theorem input_fd_stored_again_on_retry :
  exists r1 r2,
    raw_export_start (start_env_init_fails mode_file 10 5 6) fresh image_path 3
      IMPORT_COMPRESS_GZIP = inl r1 /\
    sr_value r1 = (- EIO)%Z /\
    output_fd (sr_engine r1) = (-1)%Z /\
    input_fd (sr_engine r1) = 6%Z /\
    raw_export_start (start_env mode_file 10 5 7) (sr_engine r1) image_path 3
      IMPORT_COMPRESS_GZIP = inl r2 /\
    sr_value r2 = 0%Z /\
    input_fd (sr_engine r2) = 7%Z /\
    store_count (sr_trace r1 ++ sr_trace r2) = 2%nat /\
    existsb (fun ev => match ev with EvClose 6 => true | _ => false end)
            (sr_trace r1 ++ sr_trace r2) = false.
Proof.
  eexists. eexists.
  split; [vm_compute; reflexivity|].
  split; [reflexivity|]. split; [reflexivity|]. split; [reflexivity|].
  split; [vm_compute; reflexivity|].
  repeat split; reflexivity.
Qed.

(** *** Where the specification and the code part *)

(** A source of 10 bytes whose reflink works: the first call finishes with
    result 0 and nothing was counted. *)
Lemma success_without_counting :
  started plain10 (zeros 10) /\
  exists r,
    raw_export_process env_reflink_works plain10 (zeros 10) = inl r /\
    finished_with 0 (res_trace r) /\
    written_uncompressed (res_engine r) = 0%N /\
    to_uint64 (st_size (st (res_engine r))) = 10%N /\
    written_uncompressed (res_engine r) <> to_uint64 (st_size (st (res_engine r))).
Proof.
  split; [constructor; vm_compute; reflexivity|].
  eexists. split; [vm_compute; reflexivity|].
  split; [left; cbn; auto 10|].
  split; [reflexivity|]. split; [reflexivity|]. vm_compute. discriminate.
Qed.

(** The size [fstat] stored has to be the length of what [input_fd] reads:
    with 20 bytes behind a recorded size of 10 the export ends with result
    0, without a reflink, and the counter at 20. *)
Lemma counter_overshoots_stale_size :
  st_size (st plain10) = 10%Z /\
  exists r1 r2,
    run [env_sendfile_works 16384 true; env_sendfile_works 16384 true]
        plain10 (zeros 20) = [r1; r2] /\
    finished_with 0 (res_trace r2) /\
    existsb is_reflink_ok (res_trace r2) = false /\
    written_uncompressed (res_engine r2) = 20%N.
Proof.
  split; [reflexivity|].
  eexists. eexists. split; [vm_compute; reflexivity|].
  split; [left; cbn; auto 10|]. split; reflexivity.
Qed.

(** A source that is not a regular file and cannot be opened for reading, a
    UNIX socket: the start fails in [open] with -ENXIO, not with -ENOTTY;
    the engine stays idle. *)
Lemma start_on_socket_fails_in_open :
  S_ISREG (st_mode (snd (se_fstat start_env_socket))) = false /\
  exists r,
    raw_export_start start_env_socket fresh image_path 3 IMPORT_COMPRESS_GZIP
      = inl r /\
    sr_value r = (- ENXIO)%Z /\
    sr_value r <> (- ENOTTY)%Z /\
    output_fd (sr_engine r) = output_fd fresh.
Proof.
  split; [reflexivity|].
  eexists. split; [vm_compute; reflexivity|].
  split; [reflexivity|]. split; [vm_compute; discriminate|reflexivity].
Qed.



(** The second call of that export reads the end of the input, writes the
    compressor's trailing bytes and so leaves the buffer empty with the input
    exhausted; it returns 0 and does not finish. *)
Lemma drained_call_does_not_finish :
  exists r,
    raw_export_process env_gzip gzip3_after_first zeros3_after_first = inl r /\
    existsb (fun ev => match ev with EvWrite _ _ => true | _ => false end)
            (res_trace r) = true /\
    buffer (res_engine r) = [] /\
    eof (res_engine r) = true /\
    res_value r = 0%Z /\
    finish_count (res_trace r) = 0%nat.
Proof.
  eexists. split; [vm_compute; reflexivity|].
  repeat split; reflexivity.
Qed.

(** *** The statements at concrete exports *)

(** 10 bytes through [sendfile], then the call that finds the end. *)
Lemma success_counts_whole_source_plain10 :
  started plain10 (zeros 10) /\
  Forall (fun r =>
            finished_with 0 (res_trace r) ->
            existsb is_reflink_ok (res_trace r) = true \/
            written_uncompressed (res_engine r)
              = to_uint64 (st_size (st (res_engine r))))
         (run [env_sendfile_works 16384 true; env_sendfile_works 16384 true]
              plain10 (zeros 10)).
Proof.
  assert (H : started plain10 (zeros 10)) by (constructor; vm_compute; reflexivity).
  split; [exact H|].
  apply (success_counts_whole_source
           [env_sendfile_works 16384 true; env_sendfile_works 16384 true]
           plain10 (zeros 10) H).
Defined.


(** The second call of the compressed export of 3 bytes. *)
Lemma write_compacts_gzip3 :
  generic_path gzip3_after_first /\
  read_loop (loop_fuel zeros3_after_first) 0 env_gzip gzip3_after_first
    zeros3_after_first
    = Continue gzip3_pending (advance 0 zeros3_after_first)
        [EvRead 0; EvCompressFinish 0] /\
  (buffer_size gzip3_pending < 2 ^ 63)%N /\
  exists r evs,
    raw_export_process env_gzip gzip3_after_first zeros3_after_first = inl r /\
    res_trace r =
      [EvRead 0; EvCompressFinish 0]
      ++ EvWrite (firstn (N.to_nat (N.min 16384 (buffer_size gzip3_pending)))
                    (buffer gzip3_pending))
           (Z.of_N (N.min 16384 (buffer_size gzip3_pending))) :: evs /\
    written_compressed (res_engine r)
      = wrap64 (written_compressed gzip3_after_first
                + N.min 16384 (buffer_size gzip3_pending)) /\
    buffer (res_engine r)
      = skipn (N.to_nat (N.min 16384 (buffer_size gzip3_pending)))
          (buffer gzip3_pending) /\
    firstn (N.to_nat (N.min 16384 (buffer_size gzip3_pending)))
      (buffer gzip3_pending) ++ buffer (res_engine r)
      = buffer gzip3_pending /\
    res_value r = 0%Z /\
    finish_count (res_trace r) = 0%nat /\
    (buffer (res_engine r) = [] -> eof (res_engine r) = true ->
     forall env2,
       raw_export_process env2 (res_engine r) (res_world r)
         = inl (mkResult (res_engine r) (res_world r)
                  (finish (res_engine r) 0) 0)).
Proof.
  assert (Hg : generic_path gzip3_after_first) by (left; reflexivity).
  assert (Hl : read_loop (loop_fuel zeros3_after_first) 0 env_gzip gzip3_after_first
                 zeros3_after_first
               = Continue gzip3_pending (advance 0 zeros3_after_first)
                   [EvRead 0; EvCompressFinish 0]) by reflexivity.
  assert (Hb : (buffer_size gzip3_pending < 2 ^ 63)%N) by reflexivity.
  split; [exact Hg|]. split; [exact Hl|]. split; [exact Hb|].
  exact (write_compacts_then_next_call_finishes env_gzip gzip3_after_first
           zeros3_after_first gzip3_pending (advance 0 zeros3_after_first)
           [EvRead 0; EvCompressFinish 0] 16384 Hg Hl eq_refl Hb).
Defined.

(** A start on a directory. *)
Lemma start_rejects_directory :
  exists r,
    raw_export_start (start_env mode_dir 4096 5 6) fresh image_path 3
      IMPORT_COMPRESS_GZIP = inl r /\
    sr_value r = (- ENOTTY)%Z /\
    output_fd (sr_engine r) = output_fd fresh /\
    input_fd (sr_engine r) = input_fd fresh /\
    store_count (sr_trace r) = 0%nat /\
    In (EvClose (fst (se_open (start_env mode_dir 4096 5 6)))) (sr_trace r) /\
    forall env2 p2 fd2 c2,
      (0 <= fd2)%Z -> c2 <> IMPORT_COMPRESS_UNKNOWN ->
      exists r2 rest,
        raw_export_start env2 (sr_engine r) p2 fd2 c2 = inl r2 /\
        sr_trace r2 = EvFdNonblock (se_fd_nonblock env2) :: rest.
Proof.
  apply (start_rejects_non_regular (start_env mode_dir 4096 5 6) fresh image_path 3
           IMPORT_COMPRESS_GZIP).
  - vm_compute. discriminate.
  - discriminate.
  - vm_compute. reflexivity.
  - vm_compute. discriminate.
  - vm_compute. discriminate.
  - vm_compute. discriminate.
  - vm_compute. discriminate.
  - vm_compute. reflexivity.
Defined.

(** The reporter on the export of an empty file. *)
Lemma report_progress_empty_source :
  st_size (st (started_engine 0 IMPORT_COMPRESS_GZIP)) = 0%Z /\
  progress_division (started_engine 0 IMPORT_COMPRESS_GZIP) = None /\
  progress_percent (started_engine 0 IMPORT_COMPRESS_GZIP) = Some 100%N.
Proof.
  assert (H : st_size (st (started_engine 0 IMPORT_COMPRESS_GZIP)) = 0%Z)
    by reflexivity.
  split; [exact H|].
  apply (proj2 (proj2 (proj2
           (report_progress_never_divides_by_zero
              (started_engine 0 IMPORT_COMPRESS_GZIP)))) H).
Defined.

(** * Further properties of the exporter *)

(** ** Descriptors *)

Lemma descriptors_app (tr1 tr2 : list Event) :
  descriptors (tr1 ++ tr2) = fold_left track tr2 (descriptors tr1).
Proof. unfold descriptors. apply fold_left_app. Qed.

(** Boolean tests on descriptors and return values, decided from the
    context. *)
Ltac decide_tests :=
  repeat match goal with
         | H : (_ <? _)%Z = true |- _ => apply Z.ltb_lt in H
         | H : (_ <? _)%Z = false |- _ => apply Z.ltb_ge in H
         | H : (_ <=? _)%Z = true |- _ => apply Z.leb_le in H
         | H : (_ <=? _)%Z = false |- _ => apply Z.leb_gt in H
         | H : (_ =? _)%Z = true |- _ => apply Z.eqb_eq in H
         | H : (_ =? _)%Z = false |- _ => apply Z.eqb_neq in H
         end;
  repeat match goal with
         | |- context [(?a <=? ?b)%Z] => destruct (Z.leb_spec a b); try lia
         | |- context [(?a <? ?b)%Z] => destruct (Z.ltb_spec a b); try lia
         | |- context [(?a =? ?b)%Z] => destruct (Z.eqb_spec a b); try lia
         end.

Lemma reflink_snapshot_cases (env : StartEnv) (fd : Z) :
  errno_set (se_open_named env) ->
  (0 <= fst (reflink_snapshot env fd) ->
     descriptors (snd (reflink_snapshot env fd)) = [fst (reflink_snapshot env fd)] /\
     0 <= se_snapshot_reflink env)%Z /\
  (fst (reflink_snapshot env fd) < 0 ->
     descriptors (snd (reflink_snapshot env fd)) = [])%Z.
Proof.
  unfold errno_set, reflink_snapshot.
  destruct (se_open_named env) as [nfd errno]. cbn [fst snd]. intros He.
  repeat match goal with
         | |- context [if ?b then _ else _] => destruct b eqn:?
         end;
    cbn [fst snd app]; unfold descriptors; cbn [fold_left track];
    decide_tests; cbn [remove_one]; rewrite ?Z.eqb_refl;
    split; intros; try lia; auto.
Qed.

(** Every way through [raw_export_start], the tests on the way decided. *)
Ltac start_paths env :=
  unfold raw_export_start, reflink_snapshot, cleanup_close;
  destruct (se_open env) as [sfd errno], (se_fstat env) as [[rs errno'] stbuf],
    (se_open_named env) as [nfd errno''];
  repeat match goal with
         | |- context [if ?b then _ else _] => destruct b eqn:?
         end.

Lemma start_descriptor_cases (env : StartEnv) (e : RawExport) (p : string)
    (fd : Z) (c : ImportCompressType) (r : StartResult) :
  start_env_ok env ->
  raw_export_start env e p fd c = inl r ->
  (store_count (sr_trace r) = 0%nat /\ descriptors (sr_trace r) = [] /\
   input_fd (sr_engine r) = input_fd e) \/
  (store_count (sr_trace r) = 1%nat /\
   descriptors (sr_trace r) = [input_fd (sr_engine r)] /\
   (0 <= input_fd (sr_engine r))%Z).
Proof.
  intros [Ho Hf Hn]. revert Ho Hf Hn. unfold errno_set.
  start_paths env; cbn [fst snd]; intros Ho Hf Hn H; inversion H; subst; clear H;
    cbn [sr_trace sr_engine app store_count filter is_store_input_fd List.length
         input_fd set_input_fd set_output_fd set_compress_type set_st set_path
         set_output_event_source];
    unfold descriptors; cbn [fold_left track];
    decide_tests; cbn [remove_one fold_left track]; rewrite ?Z.eqb_refl;
    decide_tests; cbn [remove_one]; rewrite ?Z.eqb_refl;
    first [ left; repeat split; (reflexivity || lia)
          | right; repeat split; (reflexivity || lia || congruence) ].
Qed.

(** The descriptors a start closes, and the one it stores, are descriptors
    it opened itself. *)
Lemma start_closes_own (env : StartEnv) (e : RawExport) (p : string)
    (fd : Z) (c : ImportCompressType) (r : StartResult) :
  start_env_ok env ->
  raw_export_start env e p fd c = inl r ->
  (forall x, In (EvClose x) (sr_trace r) -> In (EvOpen x) (sr_trace r)) /\
  (store_count (sr_trace r) = 1%nat ->
   In (EvOpen (input_fd (sr_engine r))) (sr_trace r)).
Proof.
  intros [Ho Hf Hn]. revert Ho Hf Hn. unfold errno_set.
  start_paths env; cbn [fst snd]; intros Ho Hf Hn H; inversion H; subst; clear H;
    cbn [sr_trace sr_engine app store_count filter is_store_input_fd List.length
         input_fd set_input_fd set_output_fd set_compress_type set_st set_path
         set_output_event_source In];
    decide_tests;
    (split; [intros x Hx | intros Hs]);
    repeat match goal with
           | H : _ \/ _ |- _ => destruct H
           | H : False |- _ => contradiction
           | H : EvClose _ = EvClose _ |- _ => inversion H; subst; clear H
           | H : _ = EvClose _ |- _ => discriminate H
           end;
    try discriminate; try lia; auto 12.
Qed.

(** X1. [reflink_snapshot] leaves open exactly the descriptor it returns: on
    failure everything it opened is closed again.  A descriptor is only
    returned when the clone went through, and the temporary name is unlinked
    exactly when the unnamed file could not be created and the named one
    could. *)
Theorem snapshot_leaves_only_its_result_open (env : StartEnv) (fd : Z) :
  errno_set (se_open_named env) ->
  descriptors (snd (reflink_snapshot env fd)) =
    (if (0 <=? fst (reflink_snapshot env fd))%Z
     then [fst (reflink_snapshot env fd)] else []) /\
  ((0 <= fst (reflink_snapshot env fd))%Z ->
   (0 <= se_snapshot_reflink env)%Z /\
   In (EvOpen (fst (reflink_snapshot env fd))) (snd (reflink_snapshot env fd))) /\
  (In EvUnlink (snd (reflink_snapshot env fd)) <->
   (se_open_tmpfile env < 0 /\ 0 <= se_tempfn env /\ 0 <= fst (se_open_named env))%Z).
Proof.
  intros He. destruct (reflink_snapshot_cases env fd He) as [Hok Hbad].
  split; [|split].
  - destruct (Z.leb_spec 0 (fst (reflink_snapshot env fd))) as [H|H].
    + apply Hok. exact H.
    + apply Hbad. exact H.
  - intros H. split; [apply Hok; exact H|].
    revert He H. unfold errno_set, reflink_snapshot.
    destruct (se_open_named env) as [nfd errno]. cbn [fst snd].
    repeat match goal with
           | |- context [if ?b then _ else _] => destruct b eqn:?
           end; cbn [fst snd app In]; decide_tests; intros; try lia; auto 10.
  - unfold reflink_snapshot.
    destruct (se_open_named env) as [nfd errno]. cbn [fst snd].
    repeat match goal with
           | |- context [if ?b then _ else _] => destruct b eqn:?
           end; cbn [fst snd app In]; decide_tests;
      (split; [intros H | intros H; try lia; auto 10]);
      repeat match goal with
             | H : _ \/ _ |- _ => destruct H
             | H : False |- _ => contradiction
             | H : _ = EvUnlink |- _ => discriminate H
             end; try lia.
Qed.

Lemma start_env_sample_ok :
  start_env_ok (start_env mode_file 10 5 6).
Proof. constructor; unfold errno_set; cbn; lia. Qed.

Lemma snapshot_sample :
  errno_set (se_open_named (start_env mode_file 10 5 6)) /\
  descriptors (snd (reflink_snapshot (start_env mode_file 10 5 6) 5)) =
    (if (0 <=? fst (reflink_snapshot (start_env mode_file 10 5 6) 5))%Z
     then [fst (reflink_snapshot (start_env mode_file 10 5 6) 5)] else []).
Proof.
  assert (H : errno_set (se_open_named (start_env mode_file 10 5 6)))
    by (unfold errno_set; cbn; lia).
  split; [exact H|].
  apply (proj1 (snapshot_leaves_only_its_result_open
                  (start_env mode_file 10 5 6) 5 H)).
Defined.

(** X2. A start on an idle engine returns a non-negative value exactly when it
    leaves the engine active.  A failed start leaves [output_fd] alone; a
    successful one has stored [fd], a valid [input_fd], the compression type,
    the answer of [fstat] (a regular file), the event source and the path,
    and has assigned [input_fd] once. *)
Theorem start_succeeds_exactly_when_active (env : StartEnv) (e : RawExport)
    (p : string) (fd : Z) (c : ImportCompressType) (r : StartResult) :
  start_env_ok env -> (output_fd e < 0)%Z ->
  raw_export_start env e p fd c = inl r ->
  ((0 <= sr_value r)%Z <-> (0 <= output_fd (sr_engine r))%Z) /\
  ((sr_value r < 0)%Z -> output_fd (sr_engine r) = output_fd e) /\
  ((0 <= sr_value r)%Z ->
   output_fd (sr_engine r) = fd /\
   (0 <= input_fd (sr_engine r))%Z /\
   compress_type (sr_engine r) = c /\
   st (sr_engine r) = snd (se_fstat env) /\
   S_ISREG (st_mode (st (sr_engine r))) = true /\
   output_event_source (sr_engine r) = true /\
   path (sr_engine r) = Some p /\
   store_count (sr_trace r) = 1%nat).
Proof.
  intros [Ho Hf Hn] Hout. revert Ho Hf Hn. unfold errno_set.
  start_paths env; cbn [fst snd]; intros Ho Hf Hn H; inversion H; subst; clear H;
    cbn [sr_value sr_trace sr_engine app store_count filter is_store_input_fd
         List.length input_fd output_fd compress_type st path output_event_source
         set_input_fd set_output_fd set_compress_type set_st set_path
         set_output_event_source] in *;
    decide_tests; unfold EBUSY, ENOTTY, EPERM in *;
    try match goal with
        | H : negb (S_ISREG _) = false |- _ => apply negb_false_iff in H
        end;
    repeat split; intros; try lia; try reflexivity; try assumption.
Qed.

Lemma start_succeeds_sample :
  exists r,
    raw_export_start (start_env mode_file 10 5 6) fresh image_path 3
      IMPORT_COMPRESS_GZIP = inl r /\
    ((0 <= sr_value r)%Z <-> (0 <= output_fd (sr_engine r))%Z).
Proof.
  eexists. split; [vm_compute; reflexivity|].
  refine (proj1 (start_succeeds_exactly_when_active
                   (start_env mode_file 10 5 6) fresh image_path 3
                   IMPORT_COMPRESS_GZIP _ start_env_sample_ok _ _)).
  - vm_compute. reflexivity.
  - vm_compute. reflexivity.
Defined.

(** X3. Whatever [raw_export_start] returns, it assigns [input_fd] at most
    once, the descriptors it opened and did not close are exactly the one it
    stored there (none if it stored none, and then [input_fd] is unchanged),
    and it closes only descriptors it opened itself. *)
Theorem start_keeps_only_input_fd_open (env : StartEnv) (e : RawExport)
    (p : string) (fd : Z) (c : ImportCompressType) (r : StartResult) :
  start_env_ok env ->
  raw_export_start env e p fd c = inl r ->
  (store_count (sr_trace r) <= 1)%nat /\
  descriptors (sr_trace r) =
    (if (store_count (sr_trace r) =? 0)%nat then []
     else [input_fd (sr_engine r)]) /\
  (store_count (sr_trace r) = 0%nat -> input_fd (sr_engine r) = input_fd e) /\
  (forall x, In (EvClose x) (sr_trace r) -> In (EvOpen x) (sr_trace r)).
Proof.
  intros Hok Hs.
  destruct (start_descriptor_cases env e p fd c r Hok Hs)
    as [(H0 & Hd & Hi)|(H1 & Hd & Hi)].
  - rewrite H0, Hd. repeat split; auto.
    apply (proj1 (start_closes_own env e p fd c r Hok Hs)).
  - rewrite H1, Hd. repeat split; auto; try discriminate.
    apply (proj1 (start_closes_own env e p fd c r Hok Hs)).
Qed.

Lemma start_keeps_only_input_fd_open_sample :
  exists r,
    raw_export_start (start_env_init_fails mode_file 10 5 6) fresh image_path 3
      IMPORT_COMPRESS_GZIP = inl r /\
    descriptors (sr_trace r) =
      (if (store_count (sr_trace r) =? 0)%nat then []
       else [input_fd (sr_engine r)]).
Proof.
  eexists. split; [vm_compute; reflexivity|].
  refine (proj1 (proj2 (start_keeps_only_input_fd_open
            (start_env_init_fails mode_file 10 5 6) fresh image_path 3
            IMPORT_COMPRESS_GZIP _ _ _))).
  - constructor; unfold errno_set; cbn; lia.
  - vm_compute. reflexivity.
Defined.

(** X4. A start followed by [raw_export_unref] leaves none of the descriptors
    of the start open, also when the start failed half-way (given that
    [input_fd] was unset before); [raw_export_unref] returns NULL and the
    two together close only what the start opened. *)
Theorem start_then_unref_leaves_nothing_open (env : StartEnv) (e : RawExport)
    (p : string) (fd : Z) (c : ImportCompressType) (r : StartResult) :
  start_env_ok env -> (input_fd e < 0)%Z ->
  raw_export_start env e p fd c = inl r ->
  fst (raw_export_unref (Some (sr_engine r))) = None /\
  descriptors
    (sr_trace r ++ release_events (snd (raw_export_unref (Some (sr_engine r)))))
    = [] /\
  (forall x,
     In (EvClose x)
        (sr_trace r ++ release_events (snd (raw_export_unref (Some (sr_engine r)))))
     -> In (EvOpen x) (sr_trace r)).
Proof.
  intros Hok Hin Hs.
  assert (Hrel : release_events (snd (raw_export_unref (Some (sr_engine r))))
                 = safe_close (input_fd (sr_engine r))).
  { unfold raw_export_unref, release_events, safe_close. cbn [snd app flat_map].
    destruct (0 <=? input_fd (sr_engine r))%Z; reflexivity. }
  rewrite Hrel. split; [reflexivity|].
  destruct (start_closes_own env e p fd c r Hok Hs) as [Hown Hstored].
  destruct (start_descriptor_cases env e p fd c r Hok Hs)
    as [(H0 & Hd & Hi)|(H1 & Hd & Hi)].
  - assert (Hc : safe_close (input_fd (sr_engine r)) = []).
    { unfold safe_close. rewrite Hi. destruct (Z.leb_spec 0 (input_fd e)); [lia|reflexivity]. }
    rewrite Hc, app_nil_r. split; [exact Hd | exact Hown].
  - assert (Hc : safe_close (input_fd (sr_engine r)) = [EvClose (input_fd (sr_engine r))]).
    { unfold safe_close. destruct (Z.leb_spec 0 (input_fd (sr_engine r))); [reflexivity|lia]. }
    rewrite Hc. split.
    + rewrite descriptors_app, Hd. cbn. rewrite Z.eqb_refl. reflexivity.
    + intros x Hx. apply in_app_or in Hx. destruct Hx as [Hx|[Hx|[]]].
      * apply Hown. exact Hx.
      * inversion Hx; subst. apply Hstored. exact H1.
Qed.

Lemma start_then_unref_sample :
  exists r,
    raw_export_start (start_env mode_file 10 5 6) fresh image_path 3
      IMPORT_COMPRESS_GZIP = inl r /\
    descriptors
      (sr_trace r ++ release_events (snd (raw_export_unref (Some (sr_engine r)))))
      = [].
Proof.
  eexists. split; [vm_compute; reflexivity|].
  refine (proj1 (proj2 (start_then_unref_leaves_nothing_open
            (start_env mode_file 10 5 6) fresh image_path 3
            IMPORT_COMPRESS_GZIP _ start_env_sample_ok _ _))).
  - vm_compute. reflexivity.
  - vm_compute. reflexivity.
Defined.

(** ** What a sequence of calls keeps *)

Lemma run_in (envs : list Env) :
  forall e w r,
    In r (run envs e w) ->
    output_fd (res_engine r) = output_fd e /\
    input_fd (res_engine r) = input_fd e /\
    on_finished (res_engine r) = on_finished e /\
    compress_type (res_engine r) = compress_type e /\
    st (res_engine r) = st e /\
    src_size (res_world r) = src_size w /\
    (eof e = true -> eof (res_engine r) = true /\
                     existsb is_read (res_trace r) = false) /\
    (counted e w -> counted (res_engine r) (res_world r)).
Proof.
  induction envs as [|env envs IH]; intros e w r Hr; [destruct Hr|].
  destruct (run_cons env envs e w) as (r1 & tr & fin & _ & Hrun & Htr & _ & Hrel & Hfin).
  rewrite Hrun in Hr.
  assert (Hf : existsb is_read fin = false).
  { destruct Hfin as [(-> & _)|(c & -> & _)]; [reflexivity|].
    unfold finish. destruct (0 <=? c)%Z, (on_finished (res_engine r1)); reflexivity. }
  destruct Hr as [<- | Hr].
  - split; [apply (pr_output_fd _ _ _ _ _ Hrel)|].
    split; [apply (pr_input_fd _ _ _ _ _ Hrel)|].
    split; [apply (pr_on_finished _ _ _ _ _ Hrel)|].
    split; [apply (pr_compress _ _ _ _ _ Hrel)|].
    split; [apply (pr_st _ _ _ _ _ Hrel)|].
    split; [apply (pr_size _ _ _ _ _ Hrel)|].
    split; [|apply (pr_counted _ _ _ _ _ Hrel)].
    intros He. split; [apply (pr_eof _ _ _ _ _ Hrel He)|].
    rewrite Htr, existsb_app, Hf, (pr_no_read _ _ _ _ _ Hrel He). reflexivity.
  - specialize (IH _ _ _ Hr).
    destruct IH as (I1 & I2 & I3 & I4 & I5 & I6 & I7 & I8).
    split; [rewrite I1; apply (pr_output_fd _ _ _ _ _ Hrel)|].
    split; [rewrite I2; apply (pr_input_fd _ _ _ _ _ Hrel)|].
    split; [rewrite I3; apply (pr_on_finished _ _ _ _ _ Hrel)|].
    split; [rewrite I4; apply (pr_compress _ _ _ _ _ Hrel)|].
    split; [rewrite I5; apply (pr_st _ _ _ _ _ Hrel)|].
    split; [rewrite I6; apply (pr_size _ _ _ _ _ Hrel)|].
    split.
    + intros He. apply I7. apply (pr_eof _ _ _ _ _ Hrel He).
    + intros Hc. apply I8. apply (pr_counted _ _ _ _ _ Hrel Hc).
Qed.

(** X5. An active engine stays active: no call of [raw_export_process] changes
    [output_fd] or [input_fd], so before and after every call a further
    [raw_export_start] is refused with -EBUSY without touching anything. *)
Theorem engine_stays_active (envs : list Env) (e : RawExport) (w : World)
    (env : StartEnv) (p : string) (fd : Z) (c : ImportCompressType) :
  (0 <= output_fd e)%Z -> (0 <= fd)%Z -> c <> IMPORT_COMPRESS_UNKNOWN ->
  Forall (fun e' =>
            output_fd e' = output_fd e /\
            input_fd e' = input_fd e /\
            raw_export_start env e' p fd c
              = inl (mkStartResult (- EBUSY) e' []))
         (engines e (run envs e w)).
Proof.
  intros Ho Hfd Hc. unfold engines. constructor.
  - split; [reflexivity|]. split; [reflexivity|]. apply start_busy; auto.
  - apply Forall_forall. intros e' Hin. apply in_map_iff in Hin.
    destruct Hin as (r & <- & Hr).
    destruct (run_in envs e w r Hr) as (H1 & H2 & _).
    split; [exact H1|]. split; [exact H2|].
    apply start_busy; auto. rewrite H1. exact Ho.
Qed.

Lemma engine_stays_active_gzip3 :
  (0 <= output_fd gzip3)%Z /\
  Forall (fun e' =>
            output_fd e' = output_fd gzip3 /\
            input_fd e' = input_fd gzip3 /\
            raw_export_start (start_env mode_file 10 5 6) e'
              image_path 4 IMPORT_COMPRESS_XZ
              = inl (mkStartResult (- EBUSY) e' []))
         (engines gzip3 (run [env_gzip; env_gzip; env_gzip] gzip3 (zeros 3))).
Proof.
  assert (H : (0 <= output_fd gzip3)%Z) by (vm_compute; discriminate).
  split; [exact H|].
  apply (engine_stays_active [env_gzip; env_gzip; env_gzip] gzip3 (zeros 3)
           (start_env mode_file 10 5 6) image_path 4 IMPORT_COMPRESS_XZ H).
  - lia.
  - discriminate.
Defined.

(** X6. Once [eof] is set it stays set, and no later call reads from
    [input_fd]. *)
Theorem no_read_after_eof (envs : list Env) (e : RawExport) (w : World) :
  eof e = true ->
  Forall (fun r => eof (res_engine r) = true /\
                   existsb is_read (res_trace r) = false) (run envs e w).
Proof.
  intros He. apply Forall_forall. intros r Hr.
  apply (run_in envs e w r Hr). exact He.
Qed.

Lemma no_read_after_eof_gzip3 :
  eof gzip3_pending = true /\
  Forall (fun r => eof (res_engine r) = true /\
                   existsb is_read (res_trace r) = false)
         (run [env_gzip; env_gzip] gzip3_pending zeros3_after_first).
Proof.
  assert (H : eof gzip3_pending = true) by reflexivity.
  split; [exact H|].
  apply (no_read_after_eof [env_gzip; env_gzip] gzip3_pending zeros3_after_first H).
Defined.

(** X7. From a started export on, [written_uncompressed] is the file offset of
    [input_fd] after every call; it never exceeds the size [fstat] recorded
    and equals it once [eof] is set. *)
Theorem counter_follows_offset (envs : list Env) (e : RawExport) (w : World) :
  started e w ->
  Forall (fun r =>
            written_uncompressed (res_engine r) = src_off (res_world r) /\
            (written_uncompressed (res_engine r)
               <= to_uint64 (st_size (st (res_engine r))))%N /\
            (eof (res_engine r) = true ->
             written_uncompressed (res_engine r)
               = to_uint64 (st_size (st (res_engine r)))))
         (run envs e w).
Proof.
  intros Hs. apply Forall_forall. intros r Hr.
  destruct (run_in envs e w r Hr) as (_ & _ & _ & _ & Hst & Hsz & _ & Hc).
  specialize (Hc (started_counted e w Hs)).
  destruct Hc as [Hw Ho Hrg He].
  rewrite Hst, (started_size e w Hs), <- Hsz, Hw.
  repeat split; auto.
Qed.

Lemma counter_follows_offset_gzip3 :
  started gzip3 (zeros 3) /\
  Forall (fun r =>
            written_uncompressed (res_engine r) = src_off (res_world r) /\
            (written_uncompressed (res_engine r)
               <= to_uint64 (st_size (st (res_engine r))))%N /\
            (eof (res_engine r) = true ->
             written_uncompressed (res_engine r)
               = to_uint64 (st_size (st (res_engine r)))))
         (run [env_gzip; env_gzip; env_gzip] gzip3 (zeros 3)).
Proof.
  assert (H : started gzip3 (zeros 3)) by (constructor; vm_compute; reflexivity).
  split; [exact H|].
  apply (counter_follows_offset [env_gzip; env_gzip; env_gzip] gzip3 (zeros 3) H).
Defined.

(** ** Putting the parts of a call together *)

(** The four parts, each with its relations. *)
Lemma process_body_sat (R1c R1s R2c R2s R3c R3s R4s Rs : PartRel)
    (env : Env) (e : RawExport) (w : World) :
  (forall e w, flow_sat R1c R1s e w (reflink_phase env e w)) ->
  (forall e w, flow_sat R2c R2s e w (sendfile_phase env e w)) ->
  (forall e w, flow_sat R3c R3s e w (read_loop (loop_fuel w) 0 env e w)) ->
  (forall e w, flow_sat never R4s e w (write_phase env e w)) ->
  (forall e w e1 w1 t1, R1s e w e1 w1 t1 -> Rs e w e1 w1 t1) ->
  (forall e w e1 w1 t1 e2 w2 t2,
     R1c e w e1 w1 t1 -> R2s e1 w1 e2 w2 t2 -> Rs e w e2 w2 (t1 ++ t2)) ->
  (forall e w e1 w1 t1 e2 w2 t2 e3 w3 t3,
     R1c e w e1 w1 t1 -> R2c e1 w1 e2 w2 t2 -> R3s e2 w2 e3 w3 t3 ->
     Rs e w e3 w3 (t1 ++ t2 ++ t3)) ->
  (forall e w e1 w1 t1 e2 w2 t2 e3 w3 t3 e4 w4 t4,
     R1c e w e1 w1 t1 -> R2c e1 w1 e2 w2 t2 -> R3c e2 w2 e3 w3 t3 ->
     R4s e3 w3 e4 w4 t4 -> Rs e w e4 w4 (t1 ++ t2 ++ t3 ++ t4)) ->
  flow_sat never Rs e w (process_body env e w).
Proof.
  intros H1 H2 H3 H4 L1 L2 L3 L4. unfold process_body.
  specialize (H1 e w).
  destruct (reflink_phase env e w) as [e1 w1 t1|e1 w1 t1 v|e1 w1 t1 r|c];
    cbn [and_then flow_sat] in *; auto.
  specialize (H2 e1 w1).
  destruct (sendfile_phase env e1 w1) as [e2 w2 t2|e2 w2 t2 v|e2 w2 t2 r|c];
    cbn [and_then emit flow_sat] in *; eauto.
  specialize (H3 e2 w2).
  destruct (read_loop (loop_fuel w2) 0 env e2 w2) as [e3 w3 t3|e3 w3 t3 v|e3 w3 t3 r|c];
    cbn [and_then emit flow_sat] in *; eauto.
  specialize (H4 e3 w3).
  destruct (write_phase env e3 w3) as [e4 w4 t4|e4 w4 t4 v|e4 w4 t4 r|c];
    cbn [and_then emit flow_sat] in *; eauto.
Qed.

(** *** What each part can do *)

Lemma reflink_phase_shape (env : Env) (e : RawExport) (w : World) :
  reflink_phase env e w = Continue e w [] \/
  (exists r, reflink_phase env e w = Goto_finish e w [EvReflink r] 0) \/
  (exists r, reflink_phase env e w
             = Continue (set_tried_reflink true e) w [EvReflink r]).
Proof.
  unfold reflink_phase.
  destruct (negb (tried_reflink e) && is_uncompressed (compress_type e)); [|auto].
  destruct (0 <=? env_reflink env)%Z; eauto.
Qed.

Lemma sendfile_phase_shape (env : Env) (e : RawExport) (w : World) :
  sendfile_phase env e w = Continue e w [] \/
  (exists l, sendfile_phase env e w = Return_ e w [EvSendfile l] 0) \/
  (exists l, sendfile_phase env e w
             = Continue (set_tried_sendfile true e) w [EvSendfile l]) \/
  (exists l w1, sendfile_phase env e w = Goto_finish e w1 [EvSendfile l] 0) \/
  (exists l w1 e3 evs,
     raw_export_report_progress
       (set_written_compressed (add_u64 (written_compressed e) l)
          (set_written_uncompressed (add_u64 (written_uncompressed e) l) e))
       (env_ratelimit env) = Some (e3, evs) /\
     sendfile_phase env e w = Return_ e3 w1 (EvSendfile l :: evs) 0).
Proof.
  unfold sendfile_phase.
  destruct (negb (tried_sendfile e) && is_uncompressed (compress_type e)); [|auto].
  destruct (env_sendfile env) as [avail|errno].
  - cbn [sys_transfer].
    match goal with |- context [Z.of_N ?x] => set (l := x) end.
    destruct (Z.ltb_spec (Z.of_N l) 0); [lia|].
    destruct (Z.of_N l =? 0)%Z; [eauto 10|].
    cbn [written_compressed set_written_uncompressed].
    match goal with |- context [raw_export_report_progress ?e2 ?ok] =>
      destruct (report_progress_total e2 ok) as (e3 & evs & Hr) end.
    cbn [written_compressed set_written_uncompressed] in Hr.
    rewrite Hr. right. right. right. right. eauto 10.
  - cbn [sys_transfer Z.ltb Z.compare].
    destruct (Z.pos errno =? EAGAIN)%Z; eauto 10.
Qed.

Lemma write_phase_shape (env : Env) (e : RawExport) (w : World) :
  (exists l, write_phase env e w = Return_ e w [EvWrite [] l] 0) \/
  (exists l r, (r < 0)%Z /\
     write_phase env e w = Goto_finish e w [EvWrite [] l; EvLogError r] r) \/
  (exists n l e3 evs,
     raw_export_report_progress
       (set_written_compressed (add_u64 (written_compressed e) l)
          (set_buffer (skipn n (buffer e)) e))
       (env_ratelimit env) = Some (e3, evs) /\
     write_phase env e w
       = Return_ e3 w (EvWrite (firstn n (buffer e)) l :: evs) 0).
Proof.
  unfold write_phase.
  destruct (env_write env) as [n|errno].
  - destruct (sys_write_accept (buffer_size e) n) as (l & -> & Hl & _).
    destruct (Z.ltb_spec (Z.of_N l) 0); [lia|].
    pose proof (to_uint64_le l) as Hle.
    destruct (N.leb_spec (to_uint64 (Z.of_N l)) (buffer_size e)); [|lia].
    cbn [negb written_compressed set_buffer].
    match goal with |- context [raw_export_report_progress ?e2 ?ok] =>
      destruct (report_progress_total e2 ok) as (e3 & evs & Hr) end.
    cbn [written_compressed set_buffer] in Hr. rewrite Hr.
    right. right. eauto 10.
  - cbn [sys_write Z.ltb Z.compare].
    pose proof (log_error_errno_neg (Z.pos errno)) as Hneg.
    destruct (Z.pos errno =? EAGAIN)%Z; [eauto|].
    right. left. eexists. eexists. split; [|reflexivity]. lia.
Qed.

Lemma produced_zero (env : Env) (i : nat) : produced env i 0 = [].
Proof. reflexivity. Qed.

Lemma produced_succ (env : Env) (i n : nat) :
  produced env i (S n) = enc_out (env_compress env i) ++ produced env (S i) n.
Proof. reflexivity. Qed.

(** The loop: what it leaves alone, what its trace is made of, and what it
    appends to the buffer. *)
Lemma read_loop_shape (fuel : nat) :
  forall (i : nat) (env : Env) (e : RawExport) (w : World),
    match read_loop fuel i env e w with
    | Continue e' _ tr | Goto_finish e' _ tr _ =>
        last_percent e' = last_percent e /\
        path e' = path e /\
        output_event_source e' = output_event_source e /\
        progress_rate_limit e' = progress_rate_limit e /\
        written_compressed e' = written_compressed e /\
        forallb loop_event tr = true /\
        buffer e' = buffer e ++ produced env i (count is_compress tr)
    | Return_ _ _ _ _ => False
    | Crash _ => True
    end.
Proof.
  induction fuel as [|fuel IH]; intros i env e w; [exact I|].
  cbn [read_loop].
  destruct (negb (buffer_size e <=? 0)%N).
  { repeat split; auto. cbn. rewrite app_nil_r. reflexivity. }
  destruct (eof e).
  { repeat split; auto. cbn. rewrite app_nil_r. reflexivity. }
  destruct (sys_transfer w COPY_BUFFER_SIZE (env_read env i)) as [[l errno] w1].
  destruct (l <? 0)%Z.
  { repeat split; auto. cbn. rewrite app_nil_r. reflexivity. }
  set (a := env_compress env i).
  destruct (l =? 0)%Z.
  - destruct (enc_r a <? 0)%Z.
    + cbn. rewrite app_nil_r. repeat split; auto.
    + specialize (IH (S i) env (set_buffer (buffer e ++ enc_out a) (set_eof true e)) w1).
      destruct (read_loop fuel (S i) env _ w1) as [e' w' tr|? ? ? ?|e' w' tr r|?];
        cbn [emit]; auto;
        destruct IH as (I1 & I2 & I3 & I4 & I5 & I6 & I7);
        cbn in I1, I2, I3, I4, I5, I7;
        (split; [exact I1|]; split; [exact I2|]; split; [exact I3|];
         split; [exact I4|]; split; [exact I5|]; split; [cbn; exact I6|];
         rewrite I7; unfold count; cbn [app filter is_compress List.length];
         fold (count is_compress tr); rewrite produced_succ, app_assoc; reflexivity).
  - destruct (enc_r a <? 0)%Z.
    + cbn. rewrite app_nil_r. repeat split; auto.
    + specialize (IH (S i) env
        (set_buffer (buffer e ++ enc_out a)
           (set_written_uncompressed (add_u64 (written_uncompressed e) l) e)) w1).
      destruct (read_loop fuel (S i) env _ w1) as [e' w' tr|? ? ? ?|e' w' tr r|?];
        cbn [emit]; auto;
        destruct IH as (I1 & I2 & I3 & I4 & I5 & I6 & I7);
        cbn in I1, I2, I3, I4, I5, I7;
        (split; [exact I1|]; split; [exact I2|]; split; [exact I3|];
         split; [exact I4|]; split; [exact I5|]; split; [cbn; exact I6|];
         rewrite I7; unfold count; cbn [app filter is_compress List.length];
         fold (count is_compress tr); rewrite produced_succ, app_assoc; reflexivity).
Qed.

(** A whole call, for a relation its body satisfies. *)
Lemma process_sat (Rs : PartRel) (env : Env) (e : RawExport) (w : World) :
  flow_sat never Rs e w (process_body env e w) ->
  exists e' w' tr fin,
    raw_export_process env e w = inl (mkResult e' w' (tr ++ fin) 0) /\
    Rs e w e' w' tr /\ phase_rel e w e' w' tr /\
    (fin = [] \/ exists c, (c <= 0)%Z /\ fin = finish e' c).
Proof.
  intros Hs.
  destruct (process_spec env e w) as (e' & w' & tr & fin & Hp & Hrel & Hfin).
  exists e', w', tr, fin. split; [exact Hp|].
  destruct Hfin as [(-> & v & Hb)|(c & -> & Hc & Hb & _)];
    rewrite Hb in Hs; cbn [flow_sat] in Hs; eauto 10.
Qed.

(** *** Progress reports *)

Lemma last_any_default (A : Type) (a : A) (l : list A) (x y : A) :
  last (a :: l) x = last (a :: l) y.
Proof.
  revert a. induction l as [|b l IH]; intros a; [reflexivity|].
  change (last (a :: b :: l) x) with (last (b :: l) x).
  change (last (a :: b :: l) y) with (last (b :: l) y). apply IH.
Qed.

Lemma last_app_default (A : Type) (l1 l2 : list A) (d : A) :
  last (l1 ++ l2) d = last l2 (last l1 d).
Proof.
  induction l1 as [|a l1 IH]; [reflexivity|].
  destruct l1 as [|b l1].
  - destruct l2 as [|c l2]; [reflexivity|].
    change (last ([a] ++ c :: l2) d) with (last (c :: l2) d).
    apply last_any_default.
  - change (last ((a :: b :: l1) ++ l2) d) with (last ((b :: l1) ++ l2) d).
    rewrite IH. reflexivity.
Qed.

Lemma chain_app (x : N) (ps qs : list N) :
  chain x ps -> chain (last ps x) qs -> chain x (ps ++ qs).
Proof.
  revert x. induction ps as [|p ps IH]; intros x Hp Hq; [exact Hq|].
  destruct Hp as [Hne Hp]. split; [exact Hne|].
  apply IH; [exact Hp|].
  destruct ps as [|p' ps]; [exact Hq|].
  change (last (p :: p' :: ps) x) with (last (p' :: ps) x) in Hq.
  rewrite (last_any_default N p' ps p x). exact Hq.
Qed.

Lemma body_rel_trans e w e1 w1 t1 e2 w2 t2 :
  body_rel e w e1 w1 t1 -> body_rel e1 w1 e2 w2 t2 ->
  body_rel e w e2 w2 (t1 ++ t2).
Proof.
  intros [A1 A2 A3 A4 A5 A6] [B1 B2 B3 B4 B5 B6].
  constructor; try congruence.
  - rewrite forallb_app, A1, B1. reflexivity.
  - rewrite emitted_app, last_app_default, <- A2. exact B2.
  - rewrite emitted_app. apply chain_app; [exact A3|]. rewrite <- A2. exact B3.
  - rewrite emitted_app. apply Forall_app. split; assumption.
Qed.

(** A part that reports nothing. *)
Lemma body_rel_quiet (e : RawExport) (w : World) (e' : RawExport) (w' : World)
    (tr : list Event) :
  last_percent e' = last_percent e -> path e' = path e ->
  output_event_source e' = output_event_source e ->
  forallb body_event tr = true -> emitted tr = [] ->
  body_rel e w e' w' tr.
Proof.
  intros H1 H2 H3 H5 H6. constructor; auto; rewrite H6; cbn; auto.
Qed.

Lemma body_rel_report (e : RawExport) (w w' : World) (ok : bool)
    (e3 : RawExport) (evs : list Event) :
  raw_export_report_progress e ok = Some (e3, evs) ->
  body_rel e w e3 w' evs.
Proof.
  intros Hr.
  destruct (report_progress_cases e ok) as [(evs' & Hr' & Hem & Hevs)|(p & Hr' & Hp & Hne & _)];
    rewrite Hr' in Hr; inversion Hr; subst; clear Hr.
  - apply body_rel_quiet; auto. destruct Hevs as [-> | ->]; reflexivity.
  - constructor; cbn; auto.
    constructor; [|constructor]. apply (progress_percent_le_100 e p Hp).
Qed.

Lemma loop_event_body (tr : list Event) :
  forallb loop_event tr = true ->
  forallb body_event tr = true /\ emitted tr = [] /\ written_bytes tr = [] /\
  count is_reflink tr = 0%nat /\ count is_sendfile tr = 0%nat /\
  count is_write tr = 0%nat.
Proof.
  induction tr as [|ev tr IH]; [cbn; auto 10|].
  cbn [forallb]. intros H. apply andb_prop in H. destruct H as [H1 H2].
  destruct (IH H2) as (I1 & I2 & I3 & I4 & I5 & I6).
  unfold count in *.
  destruct ev; try discriminate H1; cbn; auto 10.
Qed.

Lemma reflink_phase_body (env : Env) (e : RawExport) (w : World) :
  flow_sat body_rel body_rel e w (reflink_phase env e w).
Proof.
  destruct (reflink_phase_shape env e w) as [-> |[(r & ->)|(r & ->)]];
    cbn [flow_sat]; apply body_rel_quiet; reflexivity.
Qed.

Lemma sendfile_phase_body (env : Env) (e : RawExport) (w : World) :
  flow_sat body_rel body_rel e w (sendfile_phase env e w).
Proof.
  destruct (sendfile_phase_shape env e w)
    as [-> |[(l & ->)|[(l & ->)|[(l & w1 & ->)|(l & w1 & e3 & evs & Hr & ->)]]]];
    cbn [flow_sat]; try (apply body_rel_quiet; reflexivity).
  change (EvSendfile l :: evs) with ([EvSendfile l] ++ evs).
  eapply body_rel_trans with (w1 := w); [|eapply body_rel_report; exact Hr].
  apply body_rel_quiet; reflexivity.
Qed.

Lemma write_phase_body (env : Env) (e : RawExport) (w : World) :
  flow_sat never body_rel e w (write_phase env e w).
Proof.
  destruct (write_phase_shape env e w)
    as [(l & ->)|[(l & r & _ & ->)|(n & l & e3 & evs & Hr & ->)]];
    cbn [flow_sat]; try (apply body_rel_quiet; reflexivity).
  change (EvWrite ?d l :: evs) with ([EvWrite d l] ++ evs).
  eapply body_rel_trans with (w1 := w); [|eapply body_rel_report; exact Hr].
  apply body_rel_quiet; reflexivity.
Qed.

Lemma read_loop_body (env : Env) (e : RawExport) (w : World) :
  flow_sat body_rel body_rel e w (read_loop (loop_fuel w) 0 env e w).
Proof.
  pose proof (read_loop_shape (loop_fuel w) 0 env e w) as H.
  pose proof (read_loop_ok (loop_fuel w) 0 env e w (loop_fuel_enough e w)) as [_ Hok].
  destruct (read_loop (loop_fuel w) 0 env e w) as [e' w' tr|? ? ? ?|e' w' tr r|?];
    cbn [flow_sat]; try contradiction;
    destruct H as (H1 & H2 & H3 & H4 & _ & H6 & _);
    destruct (loop_event_body tr H6) as (E1 & E2 & _);
    apply body_rel_quiet; auto.
Qed.

Lemma process_body_body (env : Env) (e : RawExport) (w : World) :
  flow_sat never body_rel e w (process_body env e w).
Proof.
  apply (process_body_sat body_rel body_rel body_rel body_rel body_rel body_rel
           body_rel body_rel).
  - apply reflink_phase_body.
  - apply sendfile_phase_body.
  - apply read_loop_body.
  - apply write_phase_body.
  - auto.
  - intros. eapply body_rel_trans; eassumption.
  - intros. eapply body_rel_trans; [eassumption|].
    eapply body_rel_trans; eassumption.
  - intros. eapply body_rel_trans; [eassumption|].
    eapply body_rel_trans; [eassumption|].
    eapply body_rel_trans; eassumption.
Qed.

(** *** The buffer as a queue, and the work of one call *)

Lemma count_app (f : Event -> bool) (tr1 tr2 : list Event) :
  count f (tr1 ++ tr2) = (count f tr1 + count f tr2)%nat.
Proof. unfold count. rewrite filter_app, length_app. reflexivity. Qed.

Lemma written_bytes_app (tr1 tr2 : list Event) :
  written_bytes (tr1 ++ tr2) = written_bytes tr1 ++ written_bytes tr2.
Proof. unfold written_bytes. apply flat_map_app. Qed.

(** What a report leaves alone and what it adds to a trace. *)
Lemma report_progress_quiet (e : RawExport) (ok : bool) (e3 : RawExport)
    (evs : list Event) :
  raw_export_report_progress e ok = Some (e3, evs) ->
  buffer e3 = buffer e /\ written_bytes evs = [] /\
  count is_compress evs = 0%nat /\ count is_reflink evs = 0%nat /\
  count is_sendfile evs = 0%nat /\ count is_write evs = 0%nat /\
  (List.length (emitted evs) <= 1)%nat.
Proof.
  intros Hr.
  destruct (report_progress_cases e ok) as [(evs' & Hr' & _ & Hevs)|(p & Hr' & _)];
    rewrite Hr' in Hr; inversion Hr; subst; clear Hr.
  - destruct Hevs as [-> | ->]; cbn; auto 10.
  - cbn. auto 10.
Qed.

Lemma reflink_phase_parts (env : Env) (e : RawExport) (w : World) :
  flow_sat fifo_idle fifo_idle e w (reflink_phase env e w) /\
  flow_sat (within 1 0 0 0) (within 1 0 0 0) e w (reflink_phase env e w).
Proof.
  destruct (reflink_phase_shape env e w) as [-> |[(r & ->)|(r & ->)]];
    cbn [flow_sat]; unfold fifo_idle, within; cbn; auto 10.
Qed.

Lemma sendfile_phase_parts (env : Env) (e : RawExport) (w : World) :
  flow_sat fifo_idle fifo_idle e w (sendfile_phase env e w) /\
  flow_sat (within 0 1 0 0) (within 0 1 0 1) e w (sendfile_phase env e w).
Proof.
  destruct (sendfile_phase_shape env e w)
    as [-> |[(l & ->)|[(l & ->)|[(l & w1 & ->)|(l & w1 & e3 & evs & Hr & ->)]]]];
    cbn [flow_sat]; unfold fifo_idle, within; try (cbn; auto 10; fail).
  apply report_progress_quiet in Hr.
  destruct Hr as (H1 & H2 & H3 & H4 & H5 & H6 & H7). cbn [buffer set_written_compressed set_written_uncompressed] in H1.
  change (EvSendfile l :: evs) with ([EvSendfile l] ++ evs).
  rewrite written_bytes_app, emitted_app, !count_app, H2, H3, H4, H5, H6, length_app.
  cbn. repeat split; auto; lia.
Qed.

Lemma read_loop_parts (env : Env) (e : RawExport) (w : World) :
  flow_sat (appended env 0) (appended env 0) e w
    (read_loop (loop_fuel w) 0 env e w) /\
  flow_sat (within 0 0 0 0) (within 0 0 0 0) e w
    (read_loop (loop_fuel w) 0 env e w).
Proof.
  pose proof (read_loop_shape (loop_fuel w) 0 env e w) as H.
  pose proof (read_loop_ok (loop_fuel w) 0 env e w (loop_fuel_enough e w)) as [_ Hok].
  destruct (read_loop (loop_fuel w) 0 env e w) as [e' w' tr|? ? ? ?|e' w' tr r|?];
    cbn [flow_sat]; try contradiction;
    destruct H as (_ & _ & _ & _ & _ & H6 & H7);
    destruct (loop_event_body tr H6) as (_ & E2 & E3 & E4 & E5 & E6);
    unfold appended, within; rewrite E2, E3, E4, E5, E6; cbn; auto 10.
Qed.

Lemma write_phase_parts (env : Env) (e : RawExport) (w : World) :
  flow_sat never wrote e w (write_phase env e w) /\
  flow_sat never (within 0 0 1 1) e w (write_phase env e w).
Proof.
  destruct (write_phase_shape env e w)
    as [(l & ->)|[(l & r & _ & ->)|(n & l & e3 & evs & Hr & ->)]];
    cbn [flow_sat]; unfold wrote, within; try (cbn; auto 10; fail).
  apply report_progress_quiet in Hr.
  destruct Hr as (H1 & H2 & H3 & H4 & H5 & H6 & H7).
  cbn [buffer set_written_compressed set_buffer] in H1.
  change (EvWrite ?d l :: evs) with ([EvWrite d l] ++ evs).
  rewrite written_bytes_app, emitted_app, !count_app, H1, H2, H3, H4, H5, H6, length_app.
  cbn. rewrite !app_nil_r, firstn_skipn. repeat split; auto; lia.
Qed.

Lemma process_body_fifo (env : Env) (e : RawExport) (w : World) :
  flow_sat never (fifo_rel env 0) e w (process_body env e w).
Proof.
  apply (process_body_sat fifo_idle fifo_idle fifo_idle fifo_idle
           (appended env 0) (appended env 0) wrote (fifo_rel env 0)).
  - intros. apply reflink_phase_parts.
  - intros. apply sendfile_phase_parts.
  - intros. apply read_loop_parts.
  - intros. apply write_phase_parts.
  - unfold fifo_idle, fifo_rel. intros ? ? ? ? ? (H1 & H2 & H3).
    rewrite H1, H2, H3. cbn. rewrite app_nil_r. reflexivity.
  - unfold fifo_idle, fifo_rel. intros ? ? ? ? ? ? ? ? (H1 & H2 & H3) (G1 & G2 & G3).
    rewrite written_bytes_app, count_app, H1, H2, G1, G2, G3, H3.
    cbn. rewrite app_nil_r. reflexivity.
  - unfold fifo_idle, fifo_rel, appended.
    intros ? ? ? ? ? ? ? ? ? ? ? (H1 & H2 & H3) (G1 & G2 & G3) (F1 & F2).
    rewrite !written_bytes_app, !count_app, H1, H2, G1, G2, F1. cbn.
    rewrite F2, G3, H3. reflexivity.
  - unfold fifo_idle, fifo_rel, appended, wrote.
    intros ? ? ? ? ? ? ? ? ? ? ? ? ? ? (H1 & H2 & H3) (G1 & G2 & G3) (F1 & F2) (W1 & W2).
    rewrite !written_bytes_app, !count_app, H1, H2, G1, G2, F1, W2. cbn.
    rewrite Nat.add_0_r, W1, F2, G3, H3. reflexivity.
Qed.

Lemma within_app (a b c d a' b' c' d' : nat) (t1 t2 : list Event)
    (e1 e2 e3 e4 e5 e6 : RawExport) (w1 w2 w3 w4 w5 w6 : World) :
  within a b c d e1 w1 e2 w2 t1 -> within a' b' c' d' e3 w3 e4 w4 t2 ->
  within (a + a') (b + b') (c + c') (d + d') e5 w5 e6 w6 (t1 ++ t2).
Proof.
  unfold within. intros (A1 & A2 & A3 & A4) (B1 & B2 & B3 & B4).
  rewrite !count_app, emitted_app, length_app. lia.
Qed.

Lemma within_le (a b c d a' b' c' d' : nat) (t : list Event)
    (e1 e2 e3 e4 : RawExport) (w1 w2 w3 w4 : World) :
  within a b c d e1 w1 e2 w2 t ->
  (a <= a' -> b <= b' -> c <= c' -> d <= d' ->
   within a' b' c' d' e3 w3 e4 w4 t)%nat.
Proof. unfold within. intros (A1 & A2 & A3 & A4) ? ? ? ?. lia. Qed.

Lemma process_body_within (env : Env) (e : RawExport) (w : World) :
  flow_sat never (within 1 1 1 1) e w (process_body env e w).
Proof.
  apply (process_body_sat (within 1 0 0 0) (within 1 0 0 0)
           (within 0 1 0 0) (within 0 1 0 1)
           (within 0 0 0 0) (within 0 0 0 0) (within 0 0 1 1) (within 1 1 1 1)).
  - intros. apply reflink_phase_parts.
  - intros. apply sendfile_phase_parts.
  - intros. apply read_loop_parts.
  - intros. apply write_phase_parts.
  - intros ? ? ? ? ? H. eapply within_le; [exact H|lia..].
  - intros ? ? ? ? ? ? ? ? H1 H2.
    eapply within_le; [eapply (within_app _ _ _ _ _ _ _ _ _ _ _ _ _ _ e e _ _ _ _ w w H1 H2)|cbn; lia..].
  - intros ? ? ? ? ? ? ? ? ? ? ? H1 H2 H3.
    pose proof (within_app _ _ _ _ _ _ _ _ _ _ _ _ _ _ e e _ _ _ _ w w H2 H3) as H23.
    eapply within_le; [eapply (within_app _ _ _ _ _ _ _ _ _ _ _ _ _ _ e e _ _ _ _ w w H1 H23)|cbn; lia..].
  - intros ? ? ? ? ? ? ? ? ? ? ? ? ? ? H1 H2 H3 H4.
    pose proof (within_app _ _ _ _ _ _ _ _ _ _ _ _ _ _ e e _ _ _ _ w w H3 H4) as H34.
    pose proof (within_app _ _ _ _ _ _ _ _ _ _ _ _ _ _ e e _ _ _ _ w w H2 H34) as H234.
    eapply within_le; [eapply (within_app _ _ _ _ _ _ _ _ _ _ _ _ _ _ e e _ _ _ _ w w H1 H234)|cbn; lia..].
Qed.

Lemma finish_parts (e : RawExport) (c : Z) :
  written_bytes (finish e c) = [] /\ count is_compress (finish e c) = 0%nat /\
  count is_reflink (finish e c) = 0%nat /\ count is_sendfile (finish e c) = 0%nat /\
  count is_write (finish e c) = 0%nat /\ emitted (finish e c) = [].
Proof. unfold finish. destruct (0 <=? c)%Z, (on_finished e); cbn; auto 10. Qed.

(** X8. The pending buffer is a queue: in every call the bytes [write] took,
    followed by what is pending afterwards, are what was pending before
    followed by the output of the compressor calls of this call, in order. *)
Theorem buffer_is_a_queue (env : Env) (e : RawExport) (w : World) :
  exists r,
    raw_export_process env e w = inl r /\
    written_bytes (res_trace r) ++ buffer (res_engine r)
      = buffer e ++ produced env 0 (count is_compress (res_trace r)).
Proof.
  destruct (process_sat _ env e w (process_body_fifo env e w))
    as (e' & w' & tr & fin & Hp & Hf & _ & Hfin).
  eexists. split; [exact Hp|]. cbn [res_trace res_engine].
  assert (Hq : written_bytes fin = [] /\ count is_compress fin = 0%nat).
  { destruct Hfin as [-> |(c & _ & ->)]; [split; reflexivity|].
    split; apply finish_parts. }
  destruct Hq as [Hq1 Hq2].
  rewrite written_bytes_app, count_app, Hq1, Hq2, app_nil_r, Nat.add_0_r.
  exact Hf.
Qed.

(** X9. One call does a bounded amount of work: at most one reflink, one
    [sendfile], one [write], one progress notification and one finish
    action. *)
Theorem one_call_does_bounded_work (env : Env) (e : RawExport) (w : World) :
  exists r,
    raw_export_process env e w = inl r /\
    (count is_reflink (res_trace r) <= 1)%nat /\
    (count is_sendfile (res_trace r) <= 1)%nat /\
    (count is_write (res_trace r) <= 1)%nat /\
    (List.length (emitted (res_trace r)) <= 1)%nat /\
    (finish_count (res_trace r) <= 1)%nat.
Proof.
  destruct (process_sat _ env e w (process_body_within env e w))
    as (e' & w' & tr & fin & Hp & (H1 & H2 & H3 & H4) & Hrel & Hfin).
  eexists. split; [exact Hp|]. cbn [res_trace].
  rewrite !count_app, emitted_app, length_app, finish_count_app.
  rewrite (finish_count_none tr (pr_no_finish _ _ _ _ _ Hrel)).
  destruct Hfin as [-> |(c & _ & ->)].
  - cbn. lia.
  - destruct (finish_parts e' c) as (_ & _ & F1 & F2 & F3 & F4).
    rewrite F1, F2, F3, F4, finish_count_finish. cbn. lia.
Qed.

(** X10. Times and extended attributes are copied exactly in the calls that
    finish with result 0.  The trace of a finishing call is the body's, then
    the two copies if the result is 0, then the finish event; nothing of the
    finish label occurs in the body. *)
Theorem metadata_copied_exactly_on_success (env : Env) (e : RawExport) (w : World) :
  exists r body,
    raw_export_process env e w = inl r /\
    forallb body_event body = true /\
    (res_trace r = body \/
     exists c, (c <= 0)%Z /\
       res_trace r =
         body ++ (if (c =? 0)%Z then [EvCopyTimes; EvCopyXattr] else [])
              ++ [finish_event e c]) /\
    (In EvCopyTimes (res_trace r) <-> finished_with 0 (res_trace r)) /\
    (In EvCopyXattr (res_trace r) <-> finished_with 0 (res_trace r)).
Proof.
  destruct (process_sat _ env e w (process_body_body env e w))
    as (e' & w' & tr & fin & Hp & Hb & Hrel & Hfin).
  exists (mkResult e' w' (tr ++ fin) 0), tr. cbn [res_trace].
  split; [exact Hp|]. split; [apply (br_events _ _ _ _ _ Hb)|].
  assert (Hnot : forall ev, body_event ev = false -> ~ In ev tr).
  { intros ev Hev Hin. pose proof (br_events _ _ _ _ _ Hb) as Hall.
    rewrite forallb_forall in Hall. specialize (Hall ev Hin). congruence. }
  assert (Hon : on_finished e' = on_finished e) by apply (pr_on_finished _ _ _ _ _ Hrel).
  destruct Hfin as [-> |(c & Hc & ->)].
  - rewrite app_nil_r. split; [left; reflexivity|].
    split; (split; [intros H; exfalso; revert H; apply Hnot; reflexivity|]);
      intros [H|H]; exfalso; revert H; apply Hnot; reflexivity.
  - assert (Hfin : finish e' c =
              (if (c =? 0)%Z then [EvCopyTimes; EvCopyXattr] else [])
              ++ [finish_event e c]).
    { unfold finish, finish_event. rewrite Hon.
      destruct (Z.eqb_spec c 0) as [-> |Hne]; [reflexivity|].
      destruct (Z.leb_spec 0 c); [lia|reflexivity]. }
    rewrite Hfin. split; [right; exists c; auto|].
    unfold finished_with, finish_event.
    destruct (Z.eqb_spec c 0) as [-> |Hne]; destruct (on_finished e);
      (split; (split;
        [ intros H; apply in_app_or in H; destruct H as [H|H];
          [ exfalso; revert H; apply Hnot; reflexivity
          | cbn in H; first [ left; apply in_or_app; right; cbn; tauto
                            | right; apply in_or_app; right; cbn; tauto
                            | exfalso; intuition discriminate ] ]
        | intros [H|H]; apply in_app_or in H; destruct H as [H|H];
          try (exfalso; revert H; apply Hnot; reflexivity);
          cbn in H;
          first [ apply in_or_app; right; cbn; tauto
                | exfalso; intuition (try discriminate; congruence) ] ])).
Qed.

(** ** Progress over a sequence of calls *)

(** X11. Over any sequence of calls no percentage is sent twice in a row (and
    the first differs from [last_percent] at the start), none exceeds 100,
    [last_percent] ends as the last one sent, and the path is left alone. *)
Theorem progress_never_repeats (envs : list Env) (e : RawExport) (w : World) :
  chain (last_percent e) (emitted (trace_of (run envs e w))) /\
  Forall (fun p => (p <= 100)%N) (emitted (trace_of (run envs e w))) /\
  last_percent (fst (run_end envs e w))
    = last (emitted (trace_of (run envs e w))) (last_percent e) /\
  path (fst (run_end envs e w)) = path e.
Proof.
  revert e w. induction envs as [|env envs IH]; intros e w.
  - cbn. auto.
  - destruct (process_sat _ env e w (process_body_body env e w))
      as (e' & w' & tr & fin & Hp & Hb & _ & Hfin).
    assert (Hem : emitted (tr ++ fin) = emitted tr).
    { rewrite emitted_app.
      destruct Hfin as [-> |(c & _ & ->)]; [|rewrite emitted_finish];
        apply app_nil_r. }
    cbn [run run_end]. rewrite Hp. cbn [res_engine res_world].
    unfold trace_of. cbn [flat_map res_trace]. fold (trace_of (run envs e' w')).
    rewrite emitted_app, Hem.
    destruct (IH e' w') as (I1 & I2 & I3 & I4).
    destruct Hb as [B1 B2 B3 B4 B5 B6].
    split; [|split; [|split]].
    + apply chain_app; [exact B3|]. rewrite <- B2. exact I1.
    + apply Forall_app. split; assumption.
    + rewrite last_app_default, <- B2. exact I3.
    + congruence.
Qed.



(** ** Errors *)

Lemma logged_app (t1 t2 : list Event) : logged (t1 ++ t2) = logged t1 ++ logged t2.
Proof. unfold logged. apply flat_map_app. Qed.

Lemma flow_logged_emit (tr : list Event) (f : Flow) :
  logged tr = [] -> flow_logged f -> flow_logged (emit tr f).
Proof.
  intros Ht. destruct f; cbn [emit flow_logged]; rewrite ?logged_app, ?Ht; auto.
Qed.

Lemma flow_logged_and_then (f : Flow) (k : RawExport -> World -> Flow) :
  flow_logged f -> (forall e w, flow_logged (k e w)) -> flow_logged (and_then f k).
Proof.
  intros Hf Hk. destruct f; cbn [and_then]; auto.
  apply flow_logged_emit; auto.
Qed.

Lemma report_progress_logged (e : RawExport) (ok : bool) (e3 : RawExport)
    (evs : list Event) :
  raw_export_report_progress e ok = Some (e3, evs) -> logged evs = [].
Proof.
  intros Hr.
  destruct (report_progress_cases e ok) as [(evs' & Hr' & _ & Hevs)|(p & Hr' & _)];
    rewrite Hr' in Hr; inversion Hr; subst; clear Hr.
  - destruct Hevs as [-> | ->]; reflexivity.
  - reflexivity.
Qed.

Lemma reflink_phase_logged (env : Env) (e : RawExport) (w : World) :
  flow_logged (reflink_phase env e w).
Proof.
  destruct (reflink_phase_shape env e w) as [-> |[(r & ->)|(r & ->)]];
    cbn; auto. split; [lia|reflexivity].
Qed.

Lemma sendfile_phase_logged (env : Env) (e : RawExport) (w : World) :
  flow_logged (sendfile_phase env e w).
Proof.
  destruct (sendfile_phase_shape env e w)
    as [-> |[(l & ->)|[(l & ->)|[(l & w1 & ->)|(l & w1 & e3 & evs & Hr & ->)]]]];
    cbn [flow_logged]; try reflexivity.
  - split; [lia|reflexivity].
  - change (EvSendfile l :: evs) with ([EvSendfile l] ++ evs).
    rewrite logged_app, (report_progress_logged _ _ _ _ Hr). reflexivity.
Qed.

Lemma write_phase_logged (env : Env) (e : RawExport) (w : World) :
  flow_logged (write_phase env e w).
Proof.
  destruct (write_phase_shape env e w)
    as [(l & ->)|[(l & r & Hr & ->)|(n & l & e3 & evs & Hr & ->)]];
    cbn [flow_logged]; try reflexivity.
  - split; [lia|]. destruct (Z.ltb_spec r 0); [reflexivity|lia].
  - change (EvWrite (firstn n (buffer e)) l :: evs)
      with ([EvWrite (firstn n (buffer e)) l] ++ evs).
    rewrite logged_app, (report_progress_logged _ _ _ _ Hr). reflexivity.
Qed.

Lemma read_loop_logged (fuel : nat) :
  forall (i : nat) (env : Env) (e : RawExport) (w : World),
    flow_logged (read_loop fuel i env e w).
Proof.
  induction fuel as [|fuel IH]; intros i env e w; [exact I|].
  cbn [read_loop].
  destruct (negb (buffer_size e <=? 0)%N); [reflexivity|].
  destruct (eof e); [split; [lia|reflexivity]|].
  destruct (env_read env i) as [avail|errno].
  - cbn [sys_transfer].
    match goal with |- context [Z.of_N ?x] => set (l := x) end.
    destruct (Z.ltb_spec (Z.of_N l) 0); [lia|].
    pose proof (log_error_errno_neg (enc_r (env_compress env i))) as Hneg.
    destruct (Z.of_N l =? 0)%Z;
      (destruct (Z.ltb_spec (enc_r (env_compress env i)) 0) as [Hlt|Hge];
       [ cbn [flow_logged]; split; [lia|];
         destruct (Z.ltb_spec (log_error_errno (enc_r (env_compress env i))) 0);
         [reflexivity|lia]
       | apply flow_logged_emit; [reflexivity|apply IH] ]).
  - cbn [sys_transfer Z.ltb Z.compare flow_logged].
    pose proof (log_error_errno_neg (Z.pos errno)) as Hneg.
    split; [lia|].
    destruct (Z.ltb_spec (log_error_errno (Z.pos errno)) 0); [reflexivity|lia].
Qed.

Lemma process_body_logged (env : Env) (e : RawExport) (w : World) :
  flow_logged (process_body env e w).
Proof.
  unfold process_body.
  apply flow_logged_and_then; [apply reflink_phase_logged|]. intros e1 w1.
  apply flow_logged_and_then; [apply sendfile_phase_logged|]. intros e2 w2.
  apply flow_logged_and_then; [apply read_loop_logged|]. intros e3 w3.
  apply write_phase_logged.
Qed.

Lemma body_event_not_in (tr : list Event) (ev : Event) :
  forallb body_event tr = true -> body_event ev = false -> ~ In ev tr.
Proof.
  intros Hall Hev Hin. rewrite forallb_forall in Hall.
  specialize (Hall ev Hin). congruence.
Qed.

Lemma logged_finish (e : RawExport) (c : Z) : logged (finish e c) = [].
Proof. unfold finish. destruct (0 <=? c)%Z, (on_finished e); reflexivity. Qed.

(** X13. A call logs an error at most once, exactly when it finishes with a
    negative result, and the finish action gets the value that was logged;
    such a call copies neither times nor extended attributes.  A call that
    logs nothing finishes, if at all, with 0. *)
Theorem failure_is_logged_once_and_reported (env : Env) (e : RawExport)
    (w : World) :
  exists r,
    raw_export_process env e w = inl r /\
    ((logged (res_trace r) = [] /\
      forall c, finished_with c (res_trace r) -> c = 0%Z) \/
     (exists c, (c < 0)%Z /\
        logged (res_trace r) = [c] /\
        (forall c', finished_with c' (res_trace r) <-> c' = c) /\
        ~ In EvCopyTimes (res_trace r) /\ ~ In EvCopyXattr (res_trace r))).
Proof.
  destruct (process_spec env e w) as (e' & w' & tr & fin & Hp & Hrel & Hfin).
  pose proof (process_body_logged env e w) as Hl.
  pose proof (process_body_body env e w) as Hb.
  exists (mkResult e' w' (tr ++ fin) 0). split; [exact Hp|]. cbn [res_trace].
  pose proof (pr_no_finish _ _ _ _ _ Hrel) as Hnf.
  destruct Hfin as [(-> & v & Hbody)|(c & -> & Hc & Hbody & _)];
    rewrite Hbody in Hl, Hb; cbn [flow_logged flow_sat] in Hl, Hb.
  - left. rewrite app_nil_r. split; [exact Hl|].
    intros c Hf. exfalso. revert Hf. apply not_finished_body. exact Hnf.
  - destruct Hl as [_ Hl]. rewrite logged_app, logged_finish, app_nil_r, Hl.
    assert (Hfw : forall c', finished_with c' (tr ++ finish e' c) -> c' = c).
    { intros c' Hf. apply finished_with_app in Hf. destruct Hf as [Hf|Hf].
      - exfalso. revert Hf. apply not_finished_body. exact Hnf.
      - apply (finished_with_finish _ _ _ Hf). }
    destruct (Z.ltb_spec c 0) as [Hneg|Hpos].
    + right. exists c. split; [exact Hneg|]. split; [reflexivity|].
      assert (Hfin : finish e' c = [finish_event e' c]).
      { unfold finish, finish_event.
        destruct (Z.leb_spec 0 c); [lia|reflexivity]. }
      split; [|split].
      * intros c'. split; [apply Hfw|]. intros ->.
        pose proof (in_finish e' c) as Hin. unfold finished_with.
        unfold finish_event in Hin.
        destruct (on_finished e'); [left|right]; apply in_or_app; right; exact Hin.
      * rewrite Hfin. intros Hin. apply in_app_or in Hin. destruct Hin as [Hin|Hin].
        -- revert Hin. apply body_event_not_in; [apply (br_events _ _ _ _ _ Hb)|reflexivity].
        -- unfold finish_event in Hin. destruct (on_finished e'), Hin as [Hin|[]]; discriminate.
      * rewrite Hfin. intros Hin. apply in_app_or in Hin. destruct Hin as [Hin|Hin].
        -- revert Hin. apply body_event_not_in; [apply (br_events _ _ _ _ _ Hb)|reflexivity].
        -- unfold finish_event in Hin. destruct (on_finished e'), Hin as [Hin|[]]; discriminate.
    + left. split; [reflexivity|]. intros c' Hf. rewrite (Hfw c' Hf). lia.
Qed.

(** ** The bulk path *)

Lemma bulk_frame_refl (e : RawExport) (w w' : World) (tr : list Event) :
  bulk_frame e w e w' tr.
Proof. split; auto. Qed.

Lemma bulk_frame_trans e w e1 w1 t1 e2 w2 t2 (t : list Event) :
  bulk_frame e w e1 w1 t1 -> bulk_frame e1 w1 e2 w2 t2 -> bulk_frame e w e2 w2 t.
Proof. intros [A1 A2] [B1 B2]. split; [congruence|auto]. Qed.

Lemma bulk_over_frame e w e1 w1 (t : list Event) :
  bulk_over e -> bulk_frame e w e1 w1 t -> bulk_over e1.
Proof.
  intros [H|H] [A1 A2]; [left; congruence|right; auto].
Qed.

Lemma bulk_over_bulk (e : RawExport) : bulk_over e -> bulk e.
Proof. intros [H|H] H1 H2; congruence. Qed.

Lemma flow_ok_bulk_frame (e : RawExport) (w : World) (f : Flow) :
  flow_ok e w f -> flow_sat bulk_frame bulk_frame e w f.
Proof.
  destruct f as [e' w' tr|e' w' tr v|e' w' tr r|c]; cbn [flow_ok flow_sat];
    [intros H|intros [H _]|intros [H _]|auto];
    (split; [apply (pr_compress _ _ _ _ _ H)|apply (pr_tried_sendfile _ _ _ _ _ H)]).
Qed.

Lemma reflink_phase_bulk (env : Env) (e : RawExport) (w : World) :
  flow_sat bulk_kept bulk_kept e w (reflink_phase env e w).
Proof.
  destruct (reflink_phase_shape env e w) as [-> |[(r & ->)|(r & ->)]];
    cbn [flow_sat]; (split; [split; auto|auto]).
Qed.

Lemma report_progress_bulk (e : RawExport) (ok : bool) (e3 : RawExport)
    (evs : list Event) :
  raw_export_report_progress e ok = Some (e3, evs) ->
  compress_type e3 = compress_type e /\ tried_sendfile e3 = tried_sendfile e /\
  written_compressed e3 = written_compressed e /\
  written_uncompressed e3 = written_uncompressed e /\ buffer e3 = buffer e.
Proof.
  intros Hr.
  destruct (report_progress_cases e ok) as [(evs' & Hr' & _)|(p & Hr' & _)];
    rewrite Hr' in Hr; inversion Hr; subst; clear Hr; repeat split; reflexivity.
Qed.

Lemma sendfile_phase_bulk (env : Env) (e : RawExport) (w : World) :
  flow_sat bulk_left bulk_kept e w (sendfile_phase env e w).
Proof.
  unfold sendfile_phase.
  destruct (tried_sendfile e) eqn:Ht; cbn [negb andb].
  { split; [apply bulk_frame_refl|right; exact Ht]. }
  destruct (is_uncompressed (compress_type e)) eqn:Hu.
  2:{ split; [apply bulk_frame_refl|left; exact Hu]. }
  destruct (sys_transfer w COPY_BUFFER_SIZE (env_sendfile env)) as [[l errno] w1].
  destruct (l <? 0)%Z.
  - destruct (errno =? EAGAIN)%Z; cbn [flow_sat].
    + split; [apply bulk_frame_refl|auto].
    + split; [split; auto|right; reflexivity].
  - destruct (l =? 0)%Z; cbn [flow_sat].
    + split; [apply bulk_frame_refl|auto].
    + match goal with |- context [raw_export_report_progress ?e2 ?ok] =>
        destruct (raw_export_report_progress e2 ok) as [[e3 evs]|] eqn:Hr end;
        cbn [flow_sat]; [|exact I].
      apply report_progress_bulk in Hr.
      destruct Hr as (R1 & R2 & R3 & R4 & R5). cbn in R1, R2, R3, R4, R5.
      split; [split; [exact R1|intros; congruence]|].
      intros Hb _ _. destruct (Hb Hu Ht) as [Hc Hbuf].
      rewrite R3, R4, R5, Hc. split; [reflexivity|exact Hbuf].
Qed.

Lemma process_body_bulk (env : Env) (e : RawExport) (w : World) :
  flow_sat never bulk_kept e w (process_body env e w).
Proof.
  apply (process_body_sat bulk_kept bulk_kept bulk_left bulk_kept
           bulk_frame bulk_frame bulk_frame bulk_kept).
  - apply reflink_phase_bulk.
  - apply sendfile_phase_bulk.
  - intros e0 w0. apply flow_ok_bulk_frame.
    apply (read_loop_ok (loop_fuel w0) 0 env e0 w0 (loop_fuel_enough e0 w0)).
  - intros e0 w0. pose proof (write_phase_ok env e0 w0) as [Hok Hnc].
    apply flow_ok_bulk_frame in Hok.
    destruct (write_phase env e0 w0); cbn [flow_sat] in *; auto.
  - auto.
  - intros ? ? ? ? ? ? ? ? [F1 K1] [F2 K2].
    split; [exact (bulk_frame_trans _ _ _ _ _ _ _ _ _ F1 F2)|auto].
  - intros ? ? ? ? ? ? ? ? ? ? ? [F1 K1] [F2 O2] F3.
    pose proof (bulk_frame_trans _ _ _ _ _ _ _ _ [] F2 F3) as F23.
    split; [exact (bulk_frame_trans _ _ _ _ _ _ _ _ _ F1 F23)|].
    intros _. apply bulk_over_bulk. exact (bulk_over_frame _ _ _ _ _ O2 F3).
  - intros ? ? ? ? ? ? ? ? ? ? ? ? ? ? [F1 K1] [F2 O2] F3 F4.
    pose proof (bulk_frame_trans _ _ _ _ _ _ _ _ [] F3 F4) as F34.
    pose proof (bulk_frame_trans _ _ _ _ _ _ _ _ [] F2 F34) as F234.
    split; [exact (bulk_frame_trans _ _ _ _ _ _ _ _ _ F1 F234)|].
    intros _. apply bulk_over_bulk. exact (bulk_over_frame _ _ _ _ _ O2 F34).
Qed.

(** X14. While the export is on the bulk path (no compression, [tried_sendfile]
    clear) both byte counters agree and the buffer is empty, after every
    call. *)
Theorem bulk_path_counts_both_sides (envs : list Env) (e : RawExport) (w : World) :
  bulk e ->
  Forall (fun r => bulk (res_engine r)) (run envs e w).
Proof.
  revert e w. induction envs as [|env envs IH]; intros e w Hb; [constructor|].
  destruct (process_sat _ env e w (process_body_bulk env e w))
    as (e' & w' & tr & fin & Hp & [_ Hk] & _).
  cbn [run]. rewrite Hp. cbn [res_engine res_world].
  constructor; [exact (Hk Hb)|]. apply IH. exact (Hk Hb).
Qed.

Lemma bulk_path_counts_both_sides_plain10 :
  Forall (fun r => bulk (res_engine r))
    (run [env_sendfile_works 4 true; env_sendfile_works 16384 true;
          env_sendfile_works 16384 true] plain10 (zeros 10)).
Proof.
  apply (bulk_path_counts_both_sides
           [env_sendfile_works 4 true; env_sendfile_works 16384 true;
            env_sendfile_works 16384 true] plain10 (zeros 10)).
  intros _ _. split; reflexivity.
Defined.

(** ** The compressed counter *)

Lemma output_bytes_app (t1 t2 : list Event) :
  output_bytes (t1 ++ t2) = (output_bytes t1 + output_bytes t2)%N.
Proof.
  induction t1 as [|ev t1 IH]; cbn [app output_bytes fold_right]; [reflexivity|].
  fold (output_bytes (t1 ++ t2)). fold (output_bytes t1). rewrite IH. lia.
Qed.

Lemma wrap64_add_l (a b : N) : wrap64 (wrap64 a + b) = wrap64 (a + b).
Proof. unfold wrap64. apply N.Div0.add_mod_idemp_l. Qed.

Lemma out_counted_trans e w e1 w1 t1 e2 w2 t2 :
  out_counted e w e1 w1 t1 -> out_counted e1 w1 e2 w2 t2 ->
  out_counted e w e2 w2 (t1 ++ t2).
Proof.
  unfold out_counted. intros H1 H2.
  rewrite H2, <- wrap64_add_l, H1, wrap64_add_l, output_bytes_app.
  f_equal. lia.
Qed.

Lemma out_counted_quiet (e : RawExport) (w : World) (e' : RawExport)
    (w' : World) (tr : list Event) :
  written_compressed e' = written_compressed e -> output_bytes tr = 0%N ->
  out_counted e w e' w' tr.
Proof. unfold out_counted. intros -> ->. rewrite N.add_0_r. reflexivity. Qed.

Lemma report_progress_out (e : RawExport) (ok : bool) (e3 : RawExport)
    (evs : list Event) :
  raw_export_report_progress e ok = Some (e3, evs) ->
  written_compressed e3 = written_compressed e /\ output_bytes evs = 0%N.
Proof.
  intros Hr.
  destruct (report_progress_cases e ok) as [(evs' & Hr' & _ & Hevs)|(p & Hr' & _)];
    rewrite Hr' in Hr; inversion Hr; subst; clear Hr.
  - destruct Hevs as [-> | ->]; split; reflexivity.
  - split; reflexivity.
Qed.

Lemma reflink_phase_out (env : Env) (e : RawExport) (w : World) :
  flow_sat out_counted out_counted e w (reflink_phase env e w).
Proof.
  destruct (reflink_phase_shape env e w) as [-> |[(r & ->)|(r & ->)]];
    cbn [flow_sat]; apply out_counted_quiet; reflexivity.
Qed.

Lemma sendfile_phase_out (env : Env) (e : RawExport) (w : World) :
  flow_sat out_counted out_counted e w (sendfile_phase env e w).
Proof.
  unfold sendfile_phase.
  destruct (negb (tried_sendfile e) && is_uncompressed (compress_type e)).
  2:{ apply out_counted_quiet; reflexivity. }
  destruct (env_sendfile env) as [avail|errno].
  - cbn [sys_transfer].
    match goal with |- context [Z.of_N ?x] => set (l := x) end.
    assert (Hl : (l <= COPY_BUFFER_SIZE)%N) by (unfold l; lia).
    destruct (Z.ltb_spec (Z.of_N l) 0); [lia|].
    destruct (Z.eqb_spec (Z.of_N l) 0) as [Hz|Hz]; cbn [flow_sat].
    + apply out_counted_quiet; [reflexivity|]. cbn. rewrite Hz. reflexivity.
    + match goal with |- context [raw_export_report_progress ?e2 ?ok] =>
        destruct (raw_export_report_progress e2 ok) as [[e3 evs]|] eqn:Hr end;
        cbn [flow_sat]; [|exact I].
      apply report_progress_out in Hr. destruct Hr as [Hw He].
      cbn in Hw. unfold out_counted. rewrite Hw.
      cbn [output_bytes fold_right]. fold (output_bytes evs). rewrite He.
      rewrite add_u64_of_N by (unfold COPY_BUFFER_SIZE in Hl; lia).
      rewrite N2Z.id, N.add_0_r. unfold wrap64.
      apply N.Div0.mod_mod.
  - cbn [sys_transfer Z.ltb Z.compare].
    destruct (Z.pos errno =? EAGAIN)%Z; cbn [flow_sat];
      apply out_counted_quiet; reflexivity.
Qed.

Lemma read_loop_out (env : Env) (e : RawExport) (w : World) :
  flow_sat out_counted out_counted e w (read_loop (loop_fuel w) 0 env e w).
Proof.
  pose proof (read_loop_shape (loop_fuel w) 0 env e w) as H.
  destruct (read_loop (loop_fuel w) 0 env e w) as [e' w' tr|e' w' tr v|e' w' tr r|c];
    cbn [flow_sat]; try contradiction; try exact I;
    destruct H as (_ & _ & _ & _ & Hw & Hev & _);
    (apply out_counted_quiet; [exact Hw|]);
    clear - Hev; induction tr as [|ev tr IH]; try reflexivity;
    cbn [forallb] in Hev; apply andb_true_iff in Hev; destruct Hev as [H1 H2];
    cbn [output_bytes fold_right]; fold (output_bytes tr); rewrite (IH H2);
    destruct ev; try discriminate; reflexivity.
Qed.

Lemma write_phase_out (env : Env) (e : RawExport) (w : World) :
  flow_sat never out_counted e w (write_phase env e w).
Proof.
  unfold write_phase.
  destruct (env_write env) as [n|errno].
  - destruct (sys_write_accept (buffer_size e) n) as (l & -> & Hl & _).
    destruct (Z.ltb_spec (Z.of_N l) 0); [lia|].
    pose proof (to_uint64_le l) as Hle.
    destruct (N.leb_spec (to_uint64 (Z.of_N l)) (buffer_size e)) as [Hb|Hb]; [|lia].
    cbn [negb].
    match goal with |- context [raw_export_report_progress ?e2 ?ok] =>
      destruct (raw_export_report_progress e2 ok) as [[e3 evs]|] eqn:Hr end;
      cbn [flow_sat]; [|exact I].
    apply report_progress_out in Hr. destruct Hr as [Hw He].
    cbn in Hw. unfold out_counted. rewrite Hw.
    cbn [output_bytes fold_right]. fold (output_bytes evs). rewrite He.
    rewrite length_firstn. unfold buffer_size in Hb.
    rewrite Nat.min_l by lia. rewrite N2Nat.id, N.add_0_r.
    unfold add_u64, wrap64. apply N.Div0.mod_mod.
  - cbn [sys_write Z.ltb Z.compare].
    destruct (Z.pos errno =? EAGAIN)%Z; cbn [flow_sat];
      apply out_counted_quiet; reflexivity.
Qed.

Lemma process_body_out (env : Env) (e : RawExport) (w : World) :
  flow_sat never out_counted e w (process_body env e w).
Proof.
  apply (process_body_sat out_counted out_counted out_counted out_counted
           out_counted out_counted out_counted out_counted).
  - apply reflink_phase_out.
  - apply sendfile_phase_out.
  - apply read_loop_out.
  - apply write_phase_out.
  - auto.
  - intros. eapply out_counted_trans; eassumption.
  - intros. eapply out_counted_trans; [eassumption|].
    eapply out_counted_trans; eassumption.
  - intros. eapply out_counted_trans; [eassumption|].
    eapply out_counted_trans; [eassumption|].
    eapply out_counted_trans; eassumption.
Qed.

Lemma output_bytes_finish (e : RawExport) (c : Z) : output_bytes (finish e c) = 0%N.
Proof. unfold finish. destruct (0 <=? c)%Z, (on_finished e); reflexivity. Qed.

(** X15. Over any sequence of calls [written_compressed] goes up, modulo 2^64,
    by exactly the bytes that went to [output_fd]: those [sendfile] moved and
    those [write] took. *)
Theorem compressed_counter_counts_output (envs : list Env) (e : RawExport)
    (w : World) :
  wrap64 (written_compressed (fst (run_end envs e w)))
    = wrap64 (written_compressed e + output_bytes (trace_of (run envs e w))).
Proof.
  revert e w. induction envs as [|env envs IH]; intros e w.
  - cbn. rewrite N.add_0_r. reflexivity.
  - destruct (process_sat _ env e w (process_body_out env e w))
      as (e' & w' & tr & fin & Hp & Ho & _ & Hfin).
    cbn [run run_end]. rewrite Hp. cbn [res_engine res_world].
    unfold trace_of. cbn [flat_map res_trace]. fold (trace_of (run envs e' w')).
    rewrite IH, !output_bytes_app.
    assert (Hf : output_bytes fin = 0%N).
    { destruct Hfin as [-> |(c & _ & ->)]; [reflexivity|apply output_bytes_finish]. }
    rewrite Hf, N.add_0_r.
    unfold out_counted in Ho.
    rewrite <- wrap64_add_l, Ho, wrap64_add_l. f_equal. lia.
Qed.

(** ** Progress of a call *)

Lemma report_progress_keeps (e : RawExport) (ok : bool) (e3 : RawExport)
    (evs : list Event) :
  raw_export_report_progress e ok = Some (e3, evs) ->
  eof e3 = eof e /\ buffer e3 = buffer e.
Proof.
  intros Hr.
  destruct (report_progress_cases e ok) as [(evs' & Hr' & _)|(p & Hr' & _)];
    rewrite Hr' in Hr; inversion Hr; subst; clear Hr; split; reflexivity.
Qed.

Lemma sendfile_phase_progress (env : Env) (e : RawExport) (w : World) :
  serves (env_sendfile env) = true ->
  match sendfile_phase env e w with
  | Continue e' w' _ => e' = e /\ w' = w
  | Return_ e' w' _ _ => (input_left e' w' < input_left e w)%N
  | Goto_finish _ _ _ r => r = 0%Z
  | Crash _ => True
  end.
Proof.
  intros Hs. unfold sendfile_phase.
  destruct (negb (tried_sendfile e) && is_uncompressed (compress_type e)); [|auto].
  destruct (env_sendfile env) as [avail|errno]; [|discriminate].
  destruct (sys_transfer_data w COPY_BUFFER_SIZE avail (proj1 COPY_BUFFER_SIZE_pos))
    as (l & -> & _ & Hl & Hz).
  destruct (Z.ltb_spec (Z.of_N l) 0); [lia|].
  destruct (Z.eqb_spec (Z.of_N l) 0) as [Hl0|Hl0]; [reflexivity|].
  match goal with |- context [raw_export_report_progress ?e2 ?ok] =>
    destruct (raw_export_report_progress e2 ok) as [[e3 evs]|] eqn:Hr end;
    [|exact I].
  apply report_progress_keeps in Hr. destruct Hr as [He _]. cbn in He.
  unfold input_left, remaining in *. rewrite He. cbn [advance src_size src_off].
  destruct (eof e); lia.
Qed.

Lemma read_loop_progress (env : Env) (fuel : nat) :
  (forall i, serves (env_read env i) = true) ->
  (forall i, (0 <= enc_r (env_compress env i))%Z) ->
  forall (i : nat) (e : RawExport) (w : World),
    match read_loop fuel i env e w with
    | Continue e' w' _ =>
        buffer e' <> [] /\
        ((e' = e /\ w' = w) \/ (input_left e' w' < input_left e w)%N)
    | Goto_finish _ _ _ r => r = 0%Z
    | Return_ _ _ _ _ => False
    | Crash _ => True
    end.
Proof.
  intros Hread Hcomp. induction fuel as [|fuel IH]; intros i e w; [exact I|].
  cbn [read_loop].
  destruct (N.leb_spec (buffer_size e) 0) as [Hb|Hb]; cbn [negb].
  2:{ split; [|auto]. unfold buffer_size in Hb. destruct (buffer e); [cbn in Hb; lia|discriminate]. }
  destruct (eof e) eqn:He; [reflexivity|].
  specialize (Hread i). specialize (Hcomp i).
  destruct (env_read env i) as [avail|errno]; [|discriminate].
  destruct (sys_transfer_data w COPY_BUFFER_SIZE avail (proj1 COPY_BUFFER_SIZE_pos))
    as (l & -> & _ & Hl & Hz).
  destruct (Z.ltb_spec (Z.of_N l) 0); [lia|].
  destruct (Z.ltb_spec (enc_r (env_compress env i)) 0); [lia|].
  destruct (Z.eqb_spec (Z.of_N l) 0) as [Hl0|Hl0].
  - match goal with |- context [read_loop fuel (S i) env ?e1 ?w1] =>
      specialize (IH (S i) e1 w1);
      assert (Hlt : (input_left e1 w1 < input_left e w)%N)
        by (unfold input_left, remaining; cbn; rewrite He; lia);
      destruct (read_loop fuel (S i) env e1 w1) as [e' w' tr|e' w' tr v|e' w' tr r|c]
    end; cbn [emit]; auto.
    destruct IH as [Hne [[-> ->]|Hlt']]; split; auto. right. lia.
  - match goal with |- context [read_loop fuel (S i) env ?e1 ?w1] =>
      specialize (IH (S i) e1 w1);
      assert (Hlt : (input_left e1 w1 < input_left e w)%N)
        by (unfold input_left, remaining in *; cbn; rewrite He; lia);
      destruct (read_loop fuel (S i) env e1 w1) as [e' w' tr|e' w' tr v|e' w' tr r|c]
    end; cbn [emit]; auto.
    destruct IH as [Hne [[-> ->]|Hlt']]; split; auto. right. lia.
Qed.

Lemma write_phase_progress (env : Env) (e : RawExport) (w : World) :
  accepts (env_write env) = true -> buffer e <> [] ->
  match write_phase env e w with
  | Return_ e' w' _ _ =>
      w' = w /\ eof e' = eof e /\
      (List.length (buffer e') < List.length (buffer e))%nat
  | Crash _ => True
  | _ => False
  end.
Proof.
  intros Ha Hne. unfold write_phase.
  destruct (env_write env) as [n|errno]; [|discriminate].
  cbn [accepts] in Ha. apply andb_true_iff in Ha. destruct Ha as [Ha1 Ha2].
  apply N.ltb_lt in Ha1. apply N.ltb_lt in Ha2.
  destruct (sys_write_accept (buffer_size e) n) as (l & -> & Hl & Hmin).
  destruct (Z.ltb_spec (Z.of_N l) 0); [lia|].
  assert (Hsz : (0 < buffer_size e)%N).
  { unfold buffer_size. destruct (buffer e); [congruence|cbn; lia]. }
  assert (Hl63 : (l < 2 ^ 64)%N) by lia.
  rewrite (to_uint64_of_N l Hl63).
  destruct (N.leb_spec l (buffer_size e)) as [Hb|Hb]; cbn [negb]; [|exact I].
  match goal with |- context [raw_export_report_progress ?e2 ?ok] =>
    destruct (raw_export_report_progress e2 ok) as [[e3 evs]|] eqn:Hr end;
    [|exact I].
  apply report_progress_keeps in Hr. destruct Hr as [He Hbuf]. cbn in He, Hbuf.
  split; [reflexivity|]. split; [exact He|].
  rewrite Hbuf, length_skipn. unfold buffer_size in *. lia.
Qed.

Lemma process_body_progress (env : Env) (e : RawExport) (w : World) :
  cooperative env ->
  match process_body env e w with
  | Return_ e' w' _ _ => stepped e w e' w'
  | Goto_finish _ _ _ r => r = 0%Z
  | Continue _ _ _ => False
  | Crash _ => True
  end.
Proof.
  intros [Hs Hr Hc Hw]. unfold process_body.
  assert (Hrest : forall e1 tr1,
            input_left e1 w = input_left e w -> buffer e1 = buffer e ->
            match emit tr1
                    (and_then (sendfile_phase env e1 w) (fun e2 w2 =>
                     and_then (read_loop (loop_fuel w2) 0 env e2 w2) (fun e3 w3 =>
                     write_phase env e3 w3))) with
            | Return_ e' w' _ _ => stepped e w e' w'
            | Goto_finish _ _ _ r => r = 0%Z
            | Continue _ _ _ => False
            | Crash _ => True
            end).
  { intros e1 tr1 Hin Hbuf.
    pose proof (sendfile_phase_progress env e1 w Hs) as H2.
    destruct (sendfile_phase env e1 w) as [e2 w2 t2|e2 w2 t2 v|e2 w2 t2 r|c];
      cbn [and_then emit]; auto.
    2:{ left. rewrite <- Hin. exact H2. }
    destruct H2 as [-> ->].
    pose proof (read_loop_progress env (loop_fuel w) Hr Hc 0 e1 w) as H3.
    destruct (read_loop (loop_fuel w) 0 env e1 w) as [e3 w3 t3|e3 w3 t3 v|e3 w3 t3 r|c];
      cbn [and_then emit]; auto; try contradiction.
    destruct H3 as [Hne H3].
    pose proof (write_phase_progress env e3 w3 Hw Hne) as H4.
    destruct (write_phase env e3 w3) as [e4 w4 t4|e4 w4 t4 v|e4 w4 t4 r|c];
      cbn [emit]; auto; try contradiction.
    destruct H4 as (-> & He & Hlen).
    assert (Hsame : input_left e4 w3 = input_left e3 w3)
      by (unfold input_left; rewrite He; reflexivity).
    destruct H3 as [[-> ->]|Hlt].
    - right. rewrite Hsame, Hin, <- Hbuf. auto.
    - left. rewrite Hsame, <- Hin. exact Hlt. }
  destruct (reflink_phase_shape env e w) as [-> |[(r & ->)|(r & ->)]];
    cbn [and_then].
  - apply (Hrest e []); reflexivity.
  - reflexivity.
  - apply (Hrest (set_tried_reflink true e) [EvReflink r]); reflexivity.
Qed.

(** X16. When nothing fails or blocks and the output takes at least one byte
    (and no more than [ssize_t] can tell), a call either finishes with result 0 or performs no finish action and
    leaves strictly less to do: less input to read, or the same input and a
    shorter pending buffer. *)
Theorem cooperative_call_finishes_or_progresses (env : Env) (e : RawExport)
    (w : World) :
  cooperative env ->
  exists r,
    raw_export_process env e w = inl r /\
    (finished_with 0 (res_trace r) \/
     stepped e w (res_engine r) (res_world r) /\ finish_count (res_trace r) = 0%nat).
Proof.
  intros Hco.
  pose proof (process_body_progress env e w Hco) as Hpr.
  destruct (process_spec env e w) as (e' & w' & tr & fin & Hp & Hrel & Hfin).
  exists (mkResult e' w' (tr ++ fin) 0). split; [exact Hp|].
  cbn [res_trace res_engine res_world].
  destruct Hfin as [(-> & v & Hb)|(c & -> & _ & Hb & _)]; rewrite Hb in Hpr.
  - right. split; [exact Hpr|]. rewrite app_nil_r.
    apply finish_count_none. apply (pr_no_finish _ _ _ _ _ Hrel).
  - left. subst c. pose proof (in_finish e' 0) as Hin.
    unfold finished_with. unfold finish_event in Hin.
    destruct (on_finished e'); [left|right]; apply in_or_app; right; exact Hin.
Qed.

Lemma env_gzip_cooperative : cooperative env_gzip.
Proof. constructor; try reflexivity; intros; cbn; lia. Qed.

Lemma cooperative_call_gzip3 :
  cooperative env_gzip /\
  exists r,
    raw_export_process env_gzip gzip3 (zeros 3) = inl r /\
    (finished_with 0 (res_trace r) \/
     stepped gzip3 (zeros 3) (res_engine r) (res_world r) /\
     finish_count (res_trace r) = 0%nat).
Proof.
  split; [exact env_gzip_cooperative|].
  apply (cooperative_call_finishes_or_progresses env_gzip gzip3 (zeros 3)
           env_gzip_cooperative).
Defined.

End ExportRaw.

(** * Properties of the pager helper *)

Module PagerFacts.
Import Pager.

(** ** Strings *)

Lemma string_append_assoc (a b c : string) :
  ((a ++ b) ++ c)%string = (a ++ (b ++ c))%string.
Proof. induction a as [|x a IH]; cbn; [reflexivity|rewrite IH; reflexivity]. Qed.

Lemma string_length_append (a b : string) :
  String.length (a ++ b) = (String.length a + String.length b)%nat.
Proof. induction a as [|x a IH]; cbn; [reflexivity|rewrite IH; reflexivity]. Qed.

Lemma get_append_skip (a t : string) (n : nat) :
  String.get (String.length a + n) (a ++ t) = String.get n t.
Proof. induction a as [|x a IH]; cbn; [reflexivity|exact IH]. Qed.

Lemma substring_append_prefix (a t : string) :
  substring 0 (String.length a) (a ++ t) = a.
Proof.
  induction a as [|x a IH]; cbn.
  - destruct t; reflexivity.
  - rewrite IH. reflexivity.
Qed.

Lemma substring_append_skip (a t : string) (n m : nat) :
  substring (String.length a + n) m (a ++ t) = substring n m t.
Proof. induction a as [|x a IH]; cbn; [reflexivity|exact IH]. Qed.

Lemma strrchr_append (a t : string) (c : ascii) :
  strrchr (a ++ t) c =
    match strrchr t c with
    | Some i => Some (String.length a + i)%nat
    | None => strrchr a c
    end.
Proof.
  induction a as [|x a IH]; cbn.
  - destruct (strrchr t c); reflexivity.
  - rewrite IH. destruct (strrchr t c); reflexivity.
Qed.

(** [strrchr] finds the last occurrence. *)
Lemma strrchr_some (s : string) (c : ascii) (e : nat) :
  strrchr s c = Some e ->
  exists a b, s = (a ++ String c b)%string /\ String.length a = e /\
              strrchr b c = None.
Proof.
  revert e. induction s as [|x s IH]; intros e H; cbn in H; [discriminate|].
  destruct (strrchr s c) as [i|] eqn:Hs.
  - injection H as <-. destruct (IH i eq_refl) as (a & b & -> & Hl & Hb).
    exists (String x a), b. cbn. rewrite Hl. auto.
  - destruct (Ascii.eqb_spec x c) as [-> |Hne]; [|discriminate].
    injection H as <-. exists EmptyString, s. auto.
Qed.

Lemma strrchr_none_append (a t : string) (c : ascii) :
  strrchr (a ++ t) c = None -> strrchr a c = None /\ strrchr t c = None.
Proof.
  rewrite strrchr_append. destruct (strrchr t c); [discriminate|auto].
Qed.

(** A string whose last character is [c]. *)
Lemma get_last (u : string) (c : ascii) :
  u <> EmptyString -> String.get (String.length u - 1) u = Some c ->
  exists u', u = (u' ++ String c EmptyString)%string.
Proof.
  induction u as [|x u IH]; intros Hne H; [congruence|].
  destruct u as [|y u].
  - cbn in H. injection H as ->. exists EmptyString. reflexivity.
  - cbn [String.length Nat.sub] in H, IH.
    rewrite Nat.sub_0_r in *. cbn [String.get] in H.
    destruct IH as (u' & Hu); [discriminate|exact H|].
    exists (String x u'). cbn. rewrite <- Hu. reflexivity.
Qed.

Lemma get_append_last (a : string) (c : ascii) :
  String.get (String.length a) (a ++ String c EmptyString) = Some c.
Proof.
  rewrite <- (Nat.add_0_r (String.length a)), get_append_skip. reflexivity.
Qed.

(** ** [show_man_page] *)

Lemma man_args_split (p s : string) :
  strrchr s "(" = None ->
  man_args (p ++ String "(" (s ++ ")"))%string = inl ["man"; s; p]%string.
Proof.
  intros Hs. unfold man_args.
  set (desc := (p ++ String "(" (s ++ ")"))%string).
  assert (Hk : String.length desc
               = (String.length p + S (String.length s + 1))%nat).
  { unfold desc. rewrite string_length_append. cbn [String.length].
    rewrite string_length_append. reflexivity. }
  assert (Hg : String.get (String.length desc - 1) desc = Some ")"%char).
  { rewrite Hk.
    replace (String.length p + S (String.length s + 1) - 1)%nat
      with (String.length p + S (String.length s))%nat by lia.
    unfold desc. rewrite get_append_skip. cbn [String.get].
    apply get_append_last. }
  assert (He : strrchr desc "(" = Some (String.length p)).
  { unfold desc. rewrite strrchr_append. cbn [strrchr].
    rewrite strrchr_append, Hs. cbn. rewrite Nat.add_0_r. reflexivity. }
  rewrite Hg, He.
  destruct (Nat.eqb_spec (String.length desc) 0) as [H0|_]; [lia|].
  cbn [Ascii.eqb Bool.eqb].
  replace (String.length desc - String.length p - 2)%nat with (String.length s)
    by lia.
  unfold desc. rewrite substring_append_prefix.
  rewrite substring_append_skip. cbn [substring].
  rewrite substring_append_prefix. reflexivity.
Qed.

Lemma man_args_three (desc m s p : string) :
  man_args desc = inl [m; s; p] <->
  m = "man"%string /\ desc = (p ++ String "(" (s ++ ")"))%string /\
  strrchr s "(" = None.
Proof.
  split.
  - unfold man_args.
    destruct (Nat.eqb_spec (String.length desc) 0) as [H0|Hk]; [discriminate|].
    destruct (String.get (String.length desc - 1) desc) as [c|] eqn:Hg;
      [|discriminate].
    destruct (Ascii.eqb_spec c ")") as [-> |Hc]; [|discriminate].
    destruct (strrchr desc "(") as [e|] eqn:He; [|discriminate].
    intros H. injection H as <- <- <-.
    destruct (strrchr_some _ _ _ He) as (a & b & Hd & Hl & Hb).
    assert (Hne : desc <> EmptyString) by (destruct desc; [cbn in Hk; lia|discriminate]).
    assert (Hb' : exists b', b = (b' ++ String ")" EmptyString)%string).
    { assert (Hlen : (String.length desc - 1 = String.length a + String.length b)%nat).
      { rewrite Hd, string_length_append. cbn. lia. }
      rewrite Hlen in Hg. rewrite Hd in Hg. rewrite get_append_skip in Hg.
      destruct b as [|y b]; [cbn in Hg; discriminate|].
      cbn [String.length String.get] in Hg.
      apply get_last; [discriminate|].
      cbn [String.length Nat.sub]. rewrite Nat.sub_0_r. exact Hg. }
    destruct Hb' as (b' & ->).
    apply strrchr_none_append in Hb. destruct Hb as [Hb _].
    assert (Hk' : String.length desc
                  = (String.length a + S (String.length b' + 1))%nat).
    { rewrite Hd, string_length_append. cbn [String.length].
      rewrite string_length_append. reflexivity. }
    rewrite Hk', <- Hl.
    replace (String.length a + S (String.length b' + 1) - String.length a - 2)%nat
      with (String.length b') by lia.
    rewrite Hd, substring_append_prefix, substring_append_skip.
    cbn [substring]. rewrite substring_append_prefix. auto.
  - intros (-> & -> & Hs). apply man_args_split. exact Hs.
Qed.

Lemma man_args_two (desc : string) :
  man_args desc = inl ["man"%string; desc] <->
  desc <> EmptyString /\
  forall p s, desc <> (p ++ String "(" (s ++ ")"))%string.
Proof.
  split.
  - intros H. split; [intros ->; discriminate|].
    intros p s ->.
    destruct (strrchr s "(") as [i|] eqn:Hs.
    + destruct (strrchr_some _ _ _ Hs) as (a & b & -> & _ & Hb).
      rewrite string_append_assoc in H. cbn [append] in H.
      change (p ++ String "(" (a ++ String "(" (b ++ ")")))%string
        with (p ++ (String "(" a ++ String "(" (b ++ ")")))%string in H.
      rewrite <- string_append_assoc in H.
      rewrite (man_args_split (p ++ String "(" a) b Hb) in H. discriminate.
    + rewrite (man_args_split p s Hs) in H. discriminate.
  - intros [Hne Hno]. unfold man_args.
    destruct (Nat.eqb_spec (String.length desc) 0) as [H0|Hk];
      [destruct desc; [congruence|discriminate]|].
    destruct (String.get (String.length desc - 1) desc) as [c|] eqn:Hg;
      [|reflexivity].
    destruct (Ascii.eqb_spec c ")") as [-> |Hc]; [|reflexivity].
    destruct (strrchr desc "(") as [e|] eqn:He; [|reflexivity].
    exfalso.
    assert (H : man_args desc
                = inl ["man"%string;
                       substring (e + 1) (String.length desc - e - 2) desc;
                       substring 0 e desc]).
    { unfold man_args.
      destruct (Nat.eqb_spec (String.length desc) 0); [lia|].
      rewrite Hg, He. reflexivity. }
    apply man_args_three in H.
    destruct H as (_ & Hd & _). exact (Hno _ _ Hd).
Qed.

Lemma man_args_fault (desc : string) :
  man_args desc = inr OutOfBounds <-> desc = EmptyString.
Proof.
  unfold man_args. destruct desc as [|x desc]; [cbn; tauto|].
  cbn [String.length Nat.eqb]. split; [|discriminate].
  destruct (String.get _ _) as [c|]; [|discriminate].
  destruct (Ascii.eqb c ")"); [|discriminate].
  destruct (strrchr _ _); discriminate.
Qed.

(** X17. [show_man_page] splits a reference at its last opening parenthesis:
    the arguments are man, section, page exactly when [desc] is
    page(section) with no opening parenthesis in the section; otherwise, for
    a non-empty [desc], man gets [desc] as it is; for an empty [desc] the
    test of its last character reads outside the string. *)
Theorem man_page_reference_parsing (desc : string) :
  (man_args desc = inr OutOfBounds <-> desc = EmptyString) /\
  (forall m s p,
     man_args desc = inl [m; s; p] <->
     m = "man"%string /\ desc = (p ++ String "(" (s ++ ")"))%string /\
     strrchr s "(" = None) /\
  (man_args desc = inl ["man"%string; desc] <->
   desc <> EmptyString /\
   forall p s, desc <> (p ++ String "(" (s ++ ")"))%string).
Proof.
  split; [apply man_args_fault|].
  split; [intros m s p; apply man_args_three|apply man_args_two].
Qed.

Lemma man_args_head (desc : string) (args : list string) :
  man_args desc = inl args ->
  hd_error args = Some "man"%string /\ (2 <= List.length args <= 3)%nat.
Proof.
  unfold man_args. destruct (String.length desc =? 0)%nat; [discriminate|].
  destruct (String.get _ _) as [c|];
    [destruct (Ascii.eqb c ")"); [destruct (strrchr _ _)|]|];
    intros H; injection H as <-; cbn; split; (reflexivity || lia).
Qed.

(** X18. For a non-empty reference [show_man_page] executes nothing but man with
    the arguments parsed from it, and only in the child, which never returns:
    it ends in man or in _exit(EXIT_FAILURE), and not in man if
    [make_null_stdio] was asked for and failed.  The parent waits exactly
    when the fork succeeded, and then returns the exit status, or the
    negative value of a failed wait. *)
Theorem show_man_page_runs_only_man (env : ManEnv) (desc : string)
    (null_stdio : bool) :
  desc <> EmptyString ->
  exists args out,
    man_args desc = inl args /\
    hd_error args = Some "man"%string /\
    show_man_page env desc null_stdio = inl out /\
    match out with
    | ManParent ret tr =>
        fst (me_fork env) <> 0%Z /\
        Forall (fun a => is_exec a = false) tr /\
        (In (Wait (fst (me_fork env))) tr <-> (0 < fst (me_fork env))%Z) /\
        ((0 < fst (me_fork env))%Z ->
         ret = if (fst (me_wait env) <? 0)%Z then fst (me_wait env)
               else snd (me_wait env))
    | ManChild tr en =>
        fst (me_fork env) = 0%Z /\
        Forall (fun a => is_exec a = true -> a = Execvp args) tr /\
        (en = Exited EXIT_FAILURE \/
         en = Replaced (Execvp args) /\ fst (me_execvp env) = true /\
         (null_stdio = true -> (0 <= me_make_null_stdio env)%Z))
    end.
Proof.
  intros Hne.
  destruct (man_args desc) as [args|f] eqn:Ha.
  2:{ destruct f. apply man_args_fault in Ha. congruence. }
  destruct (man_args_head _ _ Ha) as [Hh _].
  exists args. unfold show_man_page. rewrite Ha.
  destruct (me_fork env) as [pid errno]. cbn [fst].
  destruct (Z.ltb_spec pid 0) as [Hneg|Hpos].
  - eexists. split; [reflexivity|]. split; [exact Hh|]. split; [reflexivity|].
    split; [lia|]. split; [repeat constructor|].
    split; [|lia]. cbn. split; [|lia].
    intros [H|[H|[]]]; discriminate.
  - destruct (Z.eqb_spec pid 0) as [-> |Hnz].
    + destruct null_stdio; cbn [andb].
      * destruct (Z.ltb_spec (me_make_null_stdio env) 0) as [Hm|Hm].
        -- eexists. split; [reflexivity|]. split; [exact Hh|].
           split; [reflexivity|]. split; [reflexivity|].
           split; [|left; reflexivity].
           repeat constructor; intros H; discriminate.
        -- destruct (me_execvp env) as [[|] errno'];
             (eexists; split; [reflexivity|]; split; [exact Hh|];
              split; [reflexivity|]; split; [reflexivity|];
              split; [repeat constructor; intros H; (discriminate || reflexivity)|]).
           ++ right. auto.
           ++ left. reflexivity.
      * destruct (me_execvp env) as [[|] errno'];
          (eexists; split; [reflexivity|]; split; [exact Hh|];
           split; [reflexivity|]; split; [reflexivity|];
           split; [repeat constructor; intros H; (discriminate || reflexivity)|]).
        -- right. split; [reflexivity|]. split; [reflexivity|]. discriminate.
        -- left. reflexivity.
    + destruct (me_wait env) as [r si]. cbn [fst snd].
      destruct (Z.ltb_spec r 0);
        (eexists; split; [reflexivity|]; split; [exact Hh|];
         split; [reflexivity|]; split; [exact Hnz|];
         split; [repeat constructor|]; split; [|reflexivity]);
        (split; [lia|]; intros _; cbn; auto).
Qed.

Lemma show_man_page_systemctl :
  exists args out,
    man_args "systemctl(1)" = inl args /\
    hd_error args = Some "man"%string /\
    show_man_page (mkManEnv (0%Z, 0%Z) 0 (true, 0%Z) (0%Z, 0%Z))
      "systemctl(1)" true = inl out.
Proof.
  destruct (show_man_page_runs_only_man
              (mkManEnv (0%Z, 0%Z) 0 (true, 0%Z) (0%Z, 0%Z))
              "systemctl(1)" true) as (args & out & H1 & H2 & H3 & _).
  - discriminate.
  - exists args, out. auto.
Defined.

(** ** [pager_fallback] *)

(** X19. [pager_fallback] copies until the first answer of splice(2) that is
    not positive and makes no further call: it exits with EXIT_SUCCESS at the
    end of the input and, after logging, with EXIT_FAILURE on an error. *)
Theorem pager_fallback_stops_at_first_nonpositive (pre rest : list (Z * Z))
    (n errno : Z) :
  Forall (fun x => (0 < fst x)%Z) pre -> (n <= 0)%Z ->
  pager_fallback (pre ++ (n, errno) :: rest) =
    (map (fun x => Splice (fst x)) pre
       ++ Splice n :: (if (n <? 0)%Z then [LogError errno] else []),
     Exited (if (n <? 0)%Z then EXIT_FAILURE else EXIT_SUCCESS)).
Proof.
  intros Hpre Hn. induction Hpre as [|[m er] pre Hm _ IH]; cbn [app map pager_fallback].
  - destruct (Z.ltb_spec 0 n); [lia|]. destruct (n <? 0)%Z; reflexivity.
  - cbn [fst] in *. destruct (Z.ltb_spec 0 m); [|lia]. rewrite IH. reflexivity.
Qed.

Lemma pager_fallback_end_of_input :
  pager_fallback [(65536, 0); (12, 0); (0, 0); (7, 0)]%Z =
    ([Splice 65536; Splice 12; Splice 0], Exited EXIT_SUCCESS).
Proof.
  apply (pager_fallback_stops_at_first_nonpositive
           [(65536, 0); (12, 0)]%Z [(7, 0)]%Z 0 0).
  - repeat constructor.
  - lia.
Defined.

Lemma pager_fallback_quiet (splice : list (Z * Z)) :
  Forall (fun a => is_exec a = false) (fst (pager_fallback splice)) /\
  forall a, snd (pager_fallback splice) <> Replaced a.
Proof.
  induction splice as [|[n errno] rest [IH1 IH2]]; cbn [pager_fallback].
  - split; [constructor|discriminate].
  - destruct (0 <? n)%Z.
    + destruct (pager_fallback rest) as [tr x]. cbn [fst snd] in *.
      split; [constructor; [reflexivity|exact IH1]|exact IH2].
    + destruct (n <? 0)%Z; cbn [fst snd];
        (split; [repeat constructor|discriminate]).
Qed.

(** ** The child of [pager_open] *)

Lemma foreach_exe_spec (env : ChildEnv) (sec : Z) (exes : list string) :
  Forall (fun a => exists exe, a = Execlp exe /\ In exe exes /\
                               (sec <> 0%Z -> exe = "less"%string))
         (fst (foreach_exe env sec exes)) /\
  forall a, snd (foreach_exe env sec exes) = Some a ->
            ce_exec env a = true /\ In a (fst (foreach_exe env sec exes)).
Proof.
  induction exes as [|exe rest [IH1 IH2]]; cbn [foreach_exe].
  - split; [constructor|discriminate].
  - assert (Hweak : Forall (fun a => exists exe0, a = Execlp exe0 /\
                              In exe0 (exe :: rest) /\
                              (sec <> 0%Z -> exe0 = "less"%string))
                      (fst (foreach_exe env sec rest))).
    { eapply Forall_impl; [|exact IH1].
      intros a (x & -> & Hin & Hs). exists x. cbn. auto. }
    destruct (Z.eqb_spec sec 0) as [Hz|Hnz]; cbn [negb andb].
    + destruct (ce_exec env (Execlp exe)) eqn:Hex; cbn [fst snd].
      * split.
        -- constructor; [|constructor]. exists exe. cbn. split; [auto|].
           split; [auto|]. intros H. congruence.
        -- intros a H. injection H as <-. cbn. auto.
      * destruct (foreach_exe env sec rest) as [tr x]. cbn [fst snd] in *.
        split.
        -- constructor; [|exact Hweak]. exists exe. cbn. split; [auto|].
           split; [auto|]. intros H. congruence.
        -- intros a H. destruct (IH2 a H). cbn. auto.
    + destruct (String.eqb_spec exe "less") as [-> |Hne]; cbn [negb].
      * destruct (ce_exec env (Execlp "less")) eqn:Hex; cbn [fst snd].
        -- split.
           ++ constructor; [|constructor]. exists "less"%string. cbn. auto.
           ++ intros a H. injection H as <-. cbn. auto.
        -- destruct (foreach_exe env sec rest) as [tr x]. cbn [fst snd] in *.
           split.
           ++ constructor; [|exact Hweak]. exists "less"%string. cbn. auto.
           ++ intros a H. destruct (IH2 a H). cbn. auto.
      * split; [exact Hweak|exact IH2].
Qed.

(** What [secure_mode] decides. *)
Lemma secure_mode_cases (env : ChildEnv) :
  fst (fst (secure_mode env)) = (0 <=? ce_pagersecure env)%Z /\
  (snd (fst (secure_mode env)) = 0%Z <->
   ce_pagersecure env = 0%Z \/
   (ce_pagersecure env = (- ENXIO)%Z /\ (0 <= fst (ce_owner_uid env))%Z /\
    snd (ce_owner_uid env) = ce_geteuid env)) /\
  Forall (fun a => match a with LogDebug _ | LogWarning _ => True | _ => False end)
         (snd (secure_mode env)).
Proof.
  unfold secure_mode, pg_pid_get_owner_uid, ENXIO.
  destruct (ce_owner_uid env) as [r uid]. cbn [fst snd Z.leb Z.compare negb].
  destruct (Z.eqb_spec (ce_pagersecure env) (Z.opp 6)) as [He|Hne].
  - cbn [fst snd]. split; [reflexivity|].
    destruct (Z.ltb_spec r 0) as [Hr|Hr]; cbn [orb Z.b2z].
    + split; [|repeat constructor]. split; [discriminate|]. lia.
    + destruct (N.eqb_spec uid (ce_geteuid env)) as [Hu|Hu]; cbn [negb Z.b2z].
      * split; [|constructor]. split; auto.
      * split; [|constructor]. split; [discriminate|].
        intros [H|(_ & _ & H)]; [lia|contradiction].
  - destruct (Z.ltb_spec (ce_pagersecure env) 0) as [Hl|Hl]; cbn [fst snd].
    + split; [reflexivity|]. split; [|repeat constructor].
      split; [discriminate|]. lia.
    + split; [reflexivity|]. split; [|constructor].
      split; [auto|]. intros [H|(H & _)]; [exact H|lia].
Qed.

(** The traces of the two ways through the configured pager. *)
Lemma quiet_actions (tr : list Action) :
  Forall (fun a => match a with LogDebug _ | LogWarning _ => True | _ => False end) tr ->
  Forall (fun a => is_exec a = false) tr /\
  ~ In (Unsetenv "LESSSECURE") tr.
Proof.
  intros H. split.
  - eapply Forall_impl; [|exact H]. intros [] Ha; try contradiction; reflexivity.
  - intros Hin. rewrite Forall_forall in H. apply (H _ Hin).
Qed.

(** X20. The child of [pager_open] executes the pager named in the environment
    only when $SYSTEMD_PAGERSECURE was given and parsed; everything else it
    executes is pager, less or more, and only less when [use_secure_mode] is
    set.  If the child ends in a program, that exec call went through and is
    in its trace. *)
Theorem pager_runs_only_what_it_may (env : ChildEnv) (pager : option string)
    (jump_to_end : bool) (parent_pid : Z) :
  Forall (fun a =>
            is_exec a = true ->
            (exists p, pager = Some p /\ (0 <= ce_pagersecure env)%Z /\
                       (a = Execlp p \/ a = ExecSh p)) \/
            (exists exe, a = Execlp exe /\ In exe builtin_pagers /\
                         (snd (fst (secure_mode env)) <> 0%Z ->
                          exe = "less"%string)))
         (fst (pager_child env pager jump_to_end parent_pid)) /\
  (forall a,
     snd (pager_child env pager jump_to_end parent_pid) = Replaced a ->
     is_exec a = true /\ ce_exec env a = true /\
     In a (fst (pager_child env pager jump_to_end parent_pid))).
Proof.
  set (P := fun a =>
            is_exec a = true ->
            (exists p, pager = Some p /\ (0 <= ce_pagersecure env)%Z /\
                       (a = Execlp p \/ a = ExecSh p)) \/
            (exists exe, a = Execlp exe /\ In exe builtin_pagers /\
                         (snd (fst (secure_mode env)) <> 0%Z ->
                          exe = "less"%string))).
  assert (Hq : forall tr, Forall (fun a => is_exec a = false) tr -> Forall P tr).
  { intros tr H. eapply Forall_impl; [|exact H].
    intros a Ha Hx. congruence. }
  destruct (secure_mode_cases env) as (Htrust & _ & Hlogs).
  apply quiet_actions in Hlogs. destruct Hlogs as [Hlogs _].
  pose proof (foreach_exe_spec env (snd (fst (secure_mode env)))
                ["pager"; "less"; "more"]%string) as [Hfe1 Hfe2].
  pose proof (pager_fallback_quiet (ce_splice env)) as [Hpf1 Hpf2].
  unfold pager_child.
  destruct (secure_mode env) as [[trust sec] logs]. cbn [fst snd] in *.
  destruct (ce_prctl env <? 0)%Z.
  { cbn [fst snd]. split; [apply Hq; repeat constructor|discriminate]. }
  destruct (negb (ce_getppid env =? parent_pid)%Z).
  { cbn [fst snd]. split; [apply Hq; repeat constructor|discriminate]. }
  destruct (ce_lesssecure env) as [r errno].
  assert (Hhead : forall x,
            Forall P ([Dup2Stdin; ClosePair; Setenv "LESS" x; Prctl (ce_prctl env)]
                      ++ logs ++
                      [if negb (sec =? 0)%Z then Setenv "LESSSECURE" "1"
                       else Unsetenv "LESSSECURE"])).
  { intros x. apply Hq. apply Forall_app. split; [repeat constructor|].
    apply Forall_app. split; [exact Hlogs|].
    destruct (negb (sec =? 0)%Z); repeat constructor. }
  destruct (r <? 0)%Z.
  { cbn [fst snd]. split; [|discriminate].
    apply Forall_app. split; [apply Hhead|apply Hq; repeat constructor]. }
  assert (Hbuiltin : Forall P (fst (foreach_exe env sec ["pager"; "less"; "more"]%string))).
  { eapply Forall_impl; [|exact Hfe1].
    intros a (exe & -> & Hin & Hs) _. right. exists exe. auto. }
  assert (Hfb : Forall P (fst (pager_fallback (ce_splice env)))) by (apply Hq; exact Hpf1).
  assert (Hrest : forall pre tr1,
            Forall P pre -> Forall P tr1 ->
            Forall P (fst (let '(tr2, x) := foreach_exe env sec ["pager"; "less"; "more"]%string in
                           match x with
                           | Some a => (pre ++ tr1 ++ tr2, Replaced a)
                           | None =>
                               let '(tr3, en) := pager_fallback (ce_splice env) in
                               (pre ++ tr1 ++ tr2 ++ tr3, en)
                           end)) /\
            forall a,
              snd (let '(tr2, x) := foreach_exe env sec ["pager"; "less"; "more"]%string in
                   match x with
                   | Some a => (pre ++ tr1 ++ tr2, Replaced a)
                   | None =>
                       let '(tr3, en) := pager_fallback (ce_splice env) in
                       (pre ++ tr1 ++ tr2 ++ tr3, en)
                   end) = Replaced a ->
              is_exec a = true /\ ce_exec env a = true /\
              In a (fst (let '(tr2, x) := foreach_exe env sec ["pager"; "less"; "more"]%string in
                         match x with
                         | Some a => (pre ++ tr1 ++ tr2, Replaced a)
                         | None =>
                             let '(tr3, en) := pager_fallback (ce_splice env) in
                             (pre ++ tr1 ++ tr2 ++ tr3, en)
                         end))).
  { intros pre tr1 Hpre Htr1.
    destruct (foreach_exe env sec ["pager"; "less"; "more"]%string) as [tr2 x].
    cbn [fst snd] in *. destruct x as [b|].
    - cbn [fst snd]. split.
      + repeat (apply Forall_app; split); assumption.
      + intros a H. injection H as <-. destruct (Hfe2 b eq_refl) as [Hex Hin].
        rewrite Forall_forall in Hfe1.
        destruct (Hfe1 b Hin) as (exe & -> & _).
        split; [reflexivity|]. split; [exact Hex|].
        apply in_or_app. right. apply in_or_app. right. exact Hin.
    - destruct (pager_fallback (ce_splice env)) as [tr3 en]. cbn [fst snd] in *.
      split.
      + repeat (apply Forall_app; split); assumption.
      + intros a H. exfalso. exact (Hpf2 a H). }
  destruct pager as [p|]; [destruct trust|].
  - symmetry in Htrust. apply Z.leb_le in Htrust.
    assert (Hp1 : P (Execlp p)) by (intros _; left; exists p; auto).
    assert (Hp2 : P (ExecSh p)) by (intros _; left; exists p; auto).
    destruct (ce_exec env (Execlp p)) eqn:H1.
    + cbn [fst snd]. split.
      * apply Forall_app. split; [apply Hhead|constructor; [exact Hp1|constructor]].
      * intros a H. injection H as <-. split; [reflexivity|].
        split; [exact H1|]. apply in_or_app. right. left. reflexivity.
    + destruct (ce_exec env (ExecSh p)) eqn:H2.
      * cbn [fst snd]. split.
        -- apply Forall_app. split; [apply Hhead|].
           constructor; [exact Hp1|constructor; [exact Hp2|constructor]].
        -- intros a H. injection H as <-. split; [reflexivity|].
           split; [exact H2|]. apply in_or_app. right. right. left. reflexivity.
      * apply Hrest; [apply Hhead|].
        constructor; [exact Hp1|constructor; [exact Hp2|constructor]].
  - apply Hrest; [apply Hhead|constructor].
  - apply Hrest; [apply Hhead|constructor].
Qed.

Lemma pager_fallback_actions (splice : list (Z * Z)) :
  Forall (fun a => match a with
                   | Execlp _ | ExecSh _ | Splice _ | LogError _ => True
                   | _ => False
                   end) (fst (pager_fallback splice)).
Proof.
  induction splice as [|[n errno] rest IH]; cbn [pager_fallback].
  - constructor.
  - destruct (0 <? n)%Z.
    + destruct (pager_fallback rest) as [tr x]. cbn [fst] in *.
      constructor; [exact I|exact IH].
    + destruct (n <? 0)%Z; cbn [fst]; repeat constructor.
Qed.

(** The trace of the child: the preparation, then the attempts. *)
Lemma pager_child_shape (env : ChildEnv) (pager : option string)
    (jump_to_end : bool) (parent_pid : Z) :
  let opts :=
    ((match ce_SYSTEMD_LESS env with Some s => s | None => "FRSXMK" end)
     ++ (if jump_to_end then " +G" else ""))%string in
  let prepare := [Dup2Stdin; ClosePair; Setenv "LESS" opts; Prctl (ce_prctl env)] in
  (fst (pager_child env pager jump_to_end parent_pid) = prepare /\
   ((ce_prctl env < 0)%Z \/ ce_getppid env <> parent_pid)) \/
  ((0 <= ce_prctl env)%Z /\ ce_getppid env = parent_pid /\
   exists rest,
     fst (pager_child env pager jump_to_end parent_pid)
       = (prepare ++ snd (secure_mode env) ++
          [if negb (snd (fst (secure_mode env)) =? 0)%Z
           then Setenv "LESSSECURE" "1" else Unsetenv "LESSSECURE"]) ++ rest /\
     Forall (fun a => match a with
                      | Execlp _ | ExecSh _ | Splice _ | LogError _ => True
                      | _ => False
                      end) rest /\
     ((exists a, In a rest /\ is_exec a = true) ->
      (0 <= fst (ce_lesssecure env))%Z)).
Proof.
  intros opts prepare.
  assert (Hopts : (if jump_to_end
                   then ((match ce_SYSTEMD_LESS env with
                          | Some s => s | None => "FRSXMK" end) ++ " +G")%string
                   else match ce_SYSTEMD_LESS env with
                        | Some s => s | None => "FRSXMK"%string end) = opts).
  { unfold opts. destruct jump_to_end; [reflexivity|].
    generalize (match ce_SYSTEMD_LESS env with
                | Some s => s | None => "FRSXMK"%string end).
    intros u. induction u as [|x u IH]; cbn; [reflexivity|].
    rewrite <- IH. reflexivity. }
  pose proof (foreach_exe_spec env (snd (fst (secure_mode env)))
                ["pager"; "less"; "more"]%string) as [Hfe1 _].
  assert (Hfe : Forall (fun a => match a with
                                 | Execlp _ | ExecSh _ | Splice _ | LogError _ => True
                                 | _ => False
                                 end)
                  (fst (foreach_exe env (snd (fst (secure_mode env)))
                          ["pager"; "less"; "more"]%string))).
  { eapply Forall_impl; [|exact Hfe1]. intros a (exe & -> & _). exact I. }
  clear Hfe1.
  pose proof (pager_fallback_actions (ce_splice env)) as Hpf.
  unfold pager_child. rewrite Hopts. fold prepare.
  destruct (secure_mode env) as [[trust sec] logs]. cbn [fst snd] in *.
  destruct (Z.ltb_spec (ce_prctl env) 0) as [Hp|Hp].
  { left. cbn [fst]. auto. }
  destruct (Z.eqb_spec (ce_getppid env) parent_pid) as [Hpp|Hpp]; cbn [negb].
  2:{ left. cbn [fst]. auto. }
  right. split; [exact Hp|]. split; [exact Hpp|].
  destruct (ce_lesssecure env) as [r errno]. cbn [fst].
  destruct (Z.ltb_spec r 0) as [Hr|Hr].
  { exists [LogError errno]. cbn [fst]. split; [reflexivity|].
    split; [repeat constructor|].
    intros (a & [<- |[]] & Ha). discriminate. }
  assert (Hrest : forall pre tr1,
            Forall (fun a => match a with
                             | Execlp _ | ExecSh _ | Splice _ | LogError _ => True
                             | _ => False
                             end) tr1 ->
            exists rest,
              fst (let '(tr2, x) := foreach_exe env sec ["pager"; "less"; "more"]%string in
                   match x with
                   | Some a => (pre ++ tr1 ++ tr2, Replaced a)
                   | None =>
                       let '(tr3, en) := pager_fallback (ce_splice env) in
                       (pre ++ tr1 ++ tr2 ++ tr3, en)
                   end) = pre ++ rest /\
              Forall (fun a => match a with
                               | Execlp _ | ExecSh _ | Splice _ | LogError _ => True
                               | _ => False
                               end) rest /\
              ((exists a, In a rest /\ is_exec a = true) -> (0 <= r)%Z)).
  { intros pre tr1 Htr1.
    destruct (foreach_exe env sec ["pager"; "less"; "more"]%string) as [tr2 x].
    cbn [fst] in Hfe. destruct x as [b|].
    - exists (tr1 ++ tr2). cbn [fst]. split; [reflexivity|].
      split; [apply Forall_app; auto|auto].
    - destruct (pager_fallback (ce_splice env)) as [tr3 en]. cbn [fst] in *.
      exists (tr1 ++ tr2 ++ tr3). split; [reflexivity|].
      split; [repeat (apply Forall_app; split); auto|auto]. }
  destruct pager as [p|]; [destruct trust|].
  - destruct (ce_exec env (Execlp p)).
    + exists [Execlp p]. cbn [fst]. split; [reflexivity|].
      split; [repeat constructor|auto].
    + destruct (ce_exec env (ExecSh p)).
      * exists [Execlp p; ExecSh p]. cbn [fst]. split; [reflexivity|].
        split; [repeat constructor|auto].
      * apply Hrest. repeat constructor.
  - apply Hrest. constructor.
  - apply Hrest. constructor.
Qed.

(** X21. The child removes LESSSECURE only when $SYSTEMD_PAGERSECURE says
    false, or is unset while the owner of the session is the effective user.
    A child that makes an exec call has set LESS, has set or removed
    LESSSECURE without error, has set the death signal and has seen its
    parent alive. *)
Theorem less_secure_unless_disabled_or_own_session (env : ChildEnv)
    (pager : option string) (jump_to_end : bool) (parent_pid : Z) :
  (In (Unsetenv "LESSSECURE") (fst (pager_child env pager jump_to_end parent_pid)) ->
   ce_pagersecure env = 0%Z \/
   (ce_pagersecure env = (- ENXIO)%Z /\ (0 <= fst (ce_owner_uid env))%Z /\
    snd (ce_owner_uid env) = ce_geteuid env)) /\
  (forall a,
     In a (fst (pager_child env pager jump_to_end parent_pid)) ->
     is_exec a = true ->
     (In (Setenv "LESSSECURE" "1") (fst (pager_child env pager jump_to_end parent_pid)) \/
      In (Unsetenv "LESSSECURE") (fst (pager_child env pager jump_to_end parent_pid))) /\
     In (Setenv "LESS"
           ((match ce_SYSTEMD_LESS env with Some s => s | None => "FRSXMK" end)
            ++ (if jump_to_end then " +G" else ""))%string)
        (fst (pager_child env pager jump_to_end parent_pid)) /\
     (0 <= ce_prctl env)%Z /\ ce_getppid env = parent_pid /\
     (0 <= fst (ce_lesssecure env))%Z).
Proof.
  destruct (secure_mode_cases env) as (_ & Hsec & Hlogs).
  apply quiet_actions in Hlogs. destruct Hlogs as [Hlx Hlu].
  destruct (pager_child_shape env pager jump_to_end parent_pid)
    as [(-> & _)|(Hp & Hpp & rest & -> & Hrest & Hr)].
  - split.
    + intros [H|[H|[H|[H|[]]]]]; discriminate.
    + intros a [<- |[<- |[<- |[<- |[]]]]]; discriminate.
  - rewrite Forall_forall in Hrest, Hlx. split.
    + intros H. apply in_app_or in H. destruct H as [H|H].
      * apply in_app_or in H. destruct H as [H|H].
        -- exfalso. destruct H as [H|[H|[H|[H|[]]]]]; discriminate.
        -- apply in_app_or in H. destruct H as [H|H]; [contradiction|].
           destruct (Z.eqb_spec (snd (fst (secure_mode env))) 0) as [Hz|Hz];
             [apply Hsec; exact Hz|].
           cbn [negb] in H. destruct H as [H|[]]. discriminate.
      * exfalso. apply (Hrest _ H).
    + intros a Ha Hx.
      assert (Hin : In a rest).
      { apply in_app_or in Ha. destruct Ha as [Ha|Ha]; [|exact Ha]. exfalso.
        apply in_app_or in Ha. destruct Ha as [Ha|Ha].
        - destruct Ha as [<- |[<- |[<- |[<- |[]]]]]; discriminate.
        - apply in_app_or in Ha. destruct Ha as [Ha|Ha].
          + specialize (Hlx _ Ha). congruence.
          + destruct (negb (snd (fst (secure_mode env)) =? 0)%Z);
              destruct Ha as [<- |[]]; discriminate. }
      split; [|split; [|split; [exact Hp|split; [exact Hpp|]]]].
      * destruct (negb (snd (fst (secure_mode env)) =? 0)%Z); [left|right];
          apply in_or_app; left; apply in_or_app; right;
          apply in_or_app; right; left; reflexivity.
      * apply in_or_app. left. apply in_or_app. left. cbn. auto.
      * apply Hr. exists a. auto.
Qed.

(** ** [pager_open], [pager_close] and [pager_have] *)

Lemma log_error_errno_negative (x : Z) : (0 < x)%Z -> (log_error_errno x < 0)%Z.
Proof. unfold log_error_errno. lia. Qed.

Ltac open_facts :=
  repeat split; intros;
  repeat match goal with
         | H : _ /\ _ |- _ => destruct H
         | H : _ \/ _ |- _ => destruct H
         | H : In _ _ |- _ => cbn in H
         | H : False |- _ => contradiction
         end;
  try lia; try discriminate; try congruence; try tauto; auto;
  try (right; split; [lia|cbn; tauto]).

(** X22. Back in the caller, [pager_open] returns at most 1, and 1 implies
    [pager_have].  With a pager already running it returns 1 and does
    nothing.  It returns 0 exactly when no pager runs and paging is off
    ($SYSTEMD_PAGER, or else $PAGER, is empty or cat, or there is no
    terminal), and then it does nothing.  [pager_have] holds afterwards
    exactly if it held before or this call forked a child. *)
Theorem pager_open_in_parent (env : OpenEnv) (pager_pid : Z)
    (jump_to_end : bool) (ret pager_pid' : Z) (tr : list Action) :
  open_env_ok env ->
  pager_open env pager_pid jump_to_end = InParent ret pager_pid' tr ->
  (ret <= 1)%Z /\
  (ret = 1%Z -> pager_have pager_pid' = true) /\
  (pager_have pager_pid = true -> ret = 1%Z /\ tr = [] /\ pager_pid' = pager_pid) /\
  (ret = 0%Z <->
   pager_have pager_pid = false /\
   (configured_pager env = Some ""%string \/
    configured_pager env = Some "cat"%string \/ oe_on_tty env = false)) /\
  (ret = 0%Z -> tr = [] /\ pager_pid' = pager_pid) /\
  (pager_have pager_pid' = true <->
   pager_have pager_pid = true \/
   ((0 < fst (oe_fork env))%Z /\ In (Fork (fst (oe_fork env))) tr)).
Proof.
  intros [Hpipe Hfork Hdup]. unfold errno_set in *.
  unfold pager_open, pager_have.
  destruct (Z.ltb_spec 0 pager_pid) as [Hpid|Hpid].
  { intros H. injection H as <- <- <-.
    destruct (Z.ltb_spec 0 pager_pid); [|lia]. open_facts. }
  assert (Hdis : forall (c : option string),
            match c with
            | Some s => (s =? "")%string || (s =? "cat")%string
            | None => false
            end = true <-> c = Some ""%string \/ c = Some "cat"%string).
  { intros [s|]; [|split; [discriminate|intros [H|H]; discriminate]].
    destruct (String.eqb_spec s "") as [-> |H1]; cbn [orb];
      [split; auto|].
    destruct (String.eqb_spec s "cat") as [-> |H2];
      [split; auto|].
    split; [discriminate|]. intros [H|H]; congruence. }
  destruct (match configured_pager env with
            | Some s => (s =? "")%string || (s =? "cat")%string
            | None => false
            end) eqn:Hc.
  { apply Hdis in Hc. intros H. injection H as <- <- <-.
    destruct (Z.ltb_spec 0 pager_pid); [lia|]. open_facts. }
  assert (Hc' : ~ (configured_pager env = Some ""%string \/
                   configured_pager env = Some "cat"%string)).
  { intros H. apply Hdis in H. congruence. }
  clear Hdis.
  destruct (oe_on_tty env) eqn:Htty; cbn [negb].
  2:{ intros H. injection H as <- <- <-.
      destruct (Z.ltb_spec 0 pager_pid); [lia|]. open_facts. }
  destruct (oe_pipe env) as [r errno]. cbn [fst snd] in Hpipe.
  destruct (Z.ltb_spec r 0) as [Hr|Hr].
  { pose proof (log_error_errno_negative errno (Hpipe Hr)) as Hneg.
    intros H. injection H as <- <- <-.
    destruct (Z.ltb_spec 0 pager_pid); [lia|]. open_facts. }
  destruct (oe_fork env) as [pid errno']. cbn [fst snd] in *.
  destruct (Z.ltb_spec pid 0) as [Hf|Hf].
  { specialize (Hfork Hf).
    intros H. injection H as <- <- <-.
    destruct (Z.ltb_spec 0 pid); [lia|]. open_facts. }
  destruct (Z.eqb_spec pid 0) as [Hz|Hz].
  { destruct (pager_child _ _ _ _). discriminate. }
  destruct (oe_dup2 env) as [r2 errno2]. cbn [fst snd] in Hdup.
  destruct (Z.ltb_spec r2 0) as [Hd|Hd].
  - pose proof (log_error_errno_negative errno2 (Hdup Hd)) as Hneg.
    intros H. injection H as <- <- <-.
    destruct (Z.ltb_spec 0 pid); [|lia]. open_facts.
  - intros H. injection H as <- <- <-.
    destruct (Z.ltb_spec 0 pid); [|lia]. open_facts.
Qed.

Lemma open_env_sample_ok : open_env_ok (open_env 4242).
Proof. constructor; unfold errno_set; cbn; lia. Qed.

Lemma pager_open_in_parent_sample :
  exists ret pager_pid' tr,
    pager_open (open_env 4242) 0 false = InParent ret pager_pid' tr /\
    (ret = 1%Z -> pager_have pager_pid' = true).
Proof.
  eexists. eexists. eexists. split; [vm_compute; reflexivity|].
  refine (proj1 (proj2 (pager_open_in_parent (open_env 4242) 0 false _ _ _
                          open_env_sample_ok _))).
  vm_compute. reflexivity.
Defined.

(** X23. If the [dup2] of the parent fails, [pager_open] returns a negative
    value, yet the child stays recorded in [pager_pid] and the pipe is not
    closed: [pager_have] holds, every later [pager_open] returns 1 without
    doing anything, and [pager_close] closes stdout and waits for that
    child. *)
Theorem failed_redirect_leaves_pager_running (env : OpenEnv) (pager_pid : Z)
    (jump_to_end : bool) (ret pager_pid' : Z) (tr : list Action) (r : Z) :
  open_env_ok env ->
  pager_open env pager_pid jump_to_end = InParent ret pager_pid' tr ->
  In (Dup2Stdout r) tr -> (r < 0)%Z ->
  (ret < 0)%Z /\ pager_have pager_pid' = true /\
  pager_pid' = fst (oe_fork env) /\ ~ In ClosePair tr /\
  (forall env' j, pager_open env' pager_pid' j = InParent 1 pager_pid' []) /\
  snd (pager_close pager_pid')
    = [FcloseStdout; Kill pager_pid'; Wait pager_pid'].
Proof.
  intros [Hpipe Hfork Hdup]. unfold errno_set in *.
  unfold pager_open, pager_have, pager_close.
  destruct (Z.ltb_spec 0 pager_pid) as [Hpid|Hpid].
  { intros H. injection H as <- <- <-. intros []. }
  destruct (match configured_pager env with
            | Some s => (s =? "")%string || (s =? "cat")%string
            | None => false
            end).
  { intros H. injection H as <- <- <-. intros []. }
  destruct (negb (oe_on_tty env)).
  { intros H. injection H as <- <- <-. intros []. }
  destruct (oe_pipe env) as [r1 errno].
  destruct (r1 <? 0)%Z.
  { intros H. injection H as <- <- <-. cbn.
    intros [H|[H|[H|[]]]]; discriminate. }
  destruct (oe_fork env) as [pid errno']. cbn [fst snd] in *.
  destruct (Z.ltb_spec pid 0) as [Hf|Hf].
  { intros H. injection H as <- <- <-. cbn.
    intros [H|[H|[H|[H|[H|[]]]]]]; discriminate. }
  destruct (Z.eqb_spec pid 0) as [Hz|Hz].
  { destruct (pager_child _ _ _ _). discriminate. }
  destruct (oe_dup2 env) as [r2 errno2]. cbn [fst snd] in Hdup.
  destruct (Z.ltb_spec r2 0) as [Hd|Hd].
  - pose proof (log_error_errno_negative errno2 (Hdup Hd)) as Hneg.
    intros H. injection H as <- <- <-. intros _ _.
    destruct (Z.ltb_spec 0 pid); [|lia].
    destruct (Z.leb_spec pid 0); [lia|].
    repeat split; auto.
    cbn. intros [H1|[H1|[H1|[H1|[H1|[]]]]]]; discriminate.
  - intros H. injection H as <- <- <-. cbn.
    intros [H|[H|[H|[H|[H|[]]]]]] Hr; try discriminate.
    injection H as <-. lia.
Qed.

Lemma failed_redirect_sample :
  exists ret pager_pid' tr,
    pager_open (open_env_dup2_fails 4242) 0 false = InParent ret pager_pid' tr /\
    (ret < 0)%Z /\ pager_have pager_pid' = true.
Proof.
  eexists. eexists. eexists. split; [vm_compute; reflexivity|].
  assert (Hok : open_env_ok (open_env_dup2_fails 4242))
    by (constructor; unfold errno_set; cbn; lia).
  destruct (failed_redirect_leaves_pager_running (open_env_dup2_fails 4242) 0
              false _ _ _ (-1) Hok eq_refl) as (H1 & H2 & _).
  - cbn. auto.
  - lia.
  - split; assumption.
Defined.

(** X24. After [pager_close] there is no pager and a second [pager_close] does
    nothing; stdout is closed and the child signalled and waited for exactly
    when a pager was running, otherwise [pager_pid] is left as it is. *)
Theorem pager_close_forgets_the_pager (pager_pid : Z) :
  pager_have (fst (pager_close pager_pid)) = false /\
  pager_close (fst (pager_close pager_pid)) = (fst (pager_close pager_pid), []) /\
  snd (pager_close pager_pid)
    = (if pager_have pager_pid
       then [FcloseStdout; Kill pager_pid; Wait pager_pid] else []) /\
  (pager_have pager_pid = false -> fst (pager_close pager_pid) = pager_pid).
Proof.
  unfold pager_close, pager_have.
  destruct (Z.leb_spec pager_pid 0) as [H|H]; cbn [fst snd].
  - destruct (Z.ltb_spec 0 pager_pid); [lia|].
    destruct (Z.leb_spec pager_pid 0); [|lia]. auto.
  - destruct (Z.ltb_spec 0 pager_pid); [|lia]. cbn. split; [reflexivity|].
    split; [reflexivity|]. split; [reflexivity|]. discriminate.
Qed.

(** X25. When $SYSTEMD_PAGER is set, [pager_open] does not depend on $PAGER. *)
Theorem systemd_pager_overrides_pager (env : OpenEnv) (s : string)
    (v : option string) (pager_pid : Z) (jump_to_end : bool) :
  oe_SYSTEMD_PAGER env = Some s ->
  pager_open (with_PAGER v env) pager_pid jump_to_end
    = pager_open env pager_pid jump_to_end.
Proof.
  intros H. unfold pager_open, configured_pager, with_PAGER. cbn.
  rewrite H. reflexivity.
Qed.

Lemma systemd_pager_overrides_pager_sample :
  pager_open
    (with_PAGER (Some "cat"%string)
       (mkOpenEnv (Some "less"%string) None true (0%Z, 0%Z) 100 (4242%Z, 0%Z)
          (1%Z, 0%Z) child_sudo)) 0 false
  = pager_open
      (mkOpenEnv (Some "less"%string) None true (0%Z, 0%Z) 100 (4242%Z, 0%Z)
         (1%Z, 0%Z) child_sudo) 0 false.
Proof.
  apply (systemd_pager_overrides_pager
           (mkOpenEnv (Some "less"%string) None true (0%Z, 0%Z) 100 (4242%Z, 0%Z)
              (1%Z, 0%Z) child_sudo) "less" (Some "cat"%string) 0 false).
  reflexivity.
Defined.

End PagerFacts.
